(** * AI News Radar: the client-side state, grouping and persistence core

    A shallow embedding of the dashboard scripts:
    - [Radar]  : the main page script (state, filtering, grouping, accordion
                 persistence, loader, [init]);
    - [Follow] : the subscription page script ([renderItemNode], [init]);
    - [VueApp] : the declarative variant, assets/app.js ([pickTitle],
                 [loadNewsData], [mounted]);
    - [VueSelector] : its second copy, which adds a group selector
                 ([followSplitGroups], [syncSelectedGroups]).

    JavaScript strings are sequences of UTF-16 code units; exceptions are
    values of [result]; the browser (storage, network, clock, DOM) is an
    explicit environment threaded through the effectful functions.  Markup
    assigned to [innerHTML] is kept as the string the script builds; what
    the engine alone decides (Unicode lower-casing, what the HTML parser
    makes of markup, the wording of its own errors) is taken from the
    class [Engine]. *)

From Stdlib Require Import Ascii String DecimalString DecimalN.
From Stdlib Require Import List NArith ZArith Lia Bool Permutation Sorted.
Import ListNotations.

#[local] Set Warnings "-register-all".

(* ================================================================= *)
(** ** JavaScript primitives *)
(* ================================================================= *)

Module JS.

Open Scope N_scope.

(** A string value: its UTF-16 code units. *)
Definition jsstring := list N.

(** Source literals are written as UTF-8 text and decoded to code units. *)
Fixpoint utf16_of_utf8 (bs : list N) : jsstring :=
  match bs with
  | [] => []
  | b0 :: r0 =>
    if b0 <? 0x80 then b0 :: utf16_of_utf8 r0
    else if b0 <? 0xE0 then
      match r0 with
      | b1 :: r1 => ((b0 - 0xC0) * 64 + (b1 - 0x80)) :: utf16_of_utf8 r1
      | _ => []
      end
    else if b0 <? 0xF0 then
      match r0 with
      | b1 :: b2 :: r2 =>
          ((b0 - 0xE0) * 4096 + (b1 - 0x80) * 64 + (b2 - 0x80))
            :: utf16_of_utf8 r2
      | _ => []
      end
    else
      match r0 with
      | b1 :: b2 :: b3 :: r3 =>
          let cp := (b0 - 0xF0) * 262144 + (b1 - 0x80) * 4096
                    + (b2 - 0x80) * 64 + (b3 - 0x80) in
          (0xD800 + (cp - 0x10000) / 0x400)
            :: (0xDC00 + (cp - 0x10000) mod 0x400)
            :: utf16_of_utf8 r3
      | _ => []
      end
  end.

Definition js (s : string) : jsstring :=
  utf16_of_utf8 (map N_of_ascii (list_ascii_of_string s)).

(** [a === b] on strings. *)
Fixpoint str_eqb (a b : jsstring) : bool :=
  match a, b with
  | [], [] => true
  | x :: a', y :: b' => (x =? y) && str_eqb a' b'
  | _, _ => false
  end.

(** Truthiness of a string: only the empty string is falsy. *)
Definition truthy (s : jsstring) : bool :=
  match s with [] => false | _ => true end.

(** A property that may be missing ([undefined]): truthiness, and the
    operator [x || d]. *)
Definition truthy_opt (o : option jsstring) : bool :=
  match o with Some s => truthy s | None => false end.

Definition or_str (o : option jsstring) (d : jsstring) : jsstring :=
  match o with
  | Some s => if truthy s then s else d
  | None => d
  end.

Definition or_opt (o d : option jsstring) : option jsstring :=
  if truthy_opt o then o else d.

(** [String(x)] / template interpolation of a possibly missing string. *)
Definition to_string (o : option jsstring) : jsstring :=
  match o with Some s => s | None => js "undefined" end.

(** WhiteSpace and LineTerminator code points, as removed by [trim]. *)
Definition isWhiteSpace (c : N) : bool :=
  ((9 <=? c) && (c <=? 13)) || (c =? 32) || (c =? 0xA0) || (c =? 0x1680)
  || ((0x2000 <=? c) && (c <=? 0x200A)) || (c =? 0x2028) || (c =? 0x2029)
  || (c =? 0x202F) || (c =? 0x205F) || (c =? 0x3000) || (c =? 0xFEFF).

Fixpoint trimStart (s : jsstring) : jsstring :=
  match s with
  | c :: r => if isWhiteSpace c then trimStart r else s
  | [] => []
  end.

Definition trimEnd (s : jsstring) : jsstring := rev (trimStart (rev s)).

Definition trim (s : jsstring) : jsstring := trimEnd (trimStart s).

(** *** The engine

    What the scripts take from the JavaScript engine and the browser, and
    the model does not compute:
    - [toLowerCase]: the Unicode lower-casing of a string.  It is not a map
      over code units (a capital sigma is lowered according to its position
      in the word, some letters to two code units); all that is used of it
      is that the empty string stays empty;
    - [querySelectorFinds tag markup selector]: whether
      [el.querySelector(selector)] finds an element after
      [el.innerHTML = markup] on a fresh element [el] of the given tag (the
      HTML parser decides: markup interpolated into a template can swallow
      the elements that follow it);
    - [nullAccessMessage]: the message of the TypeError raised when the
      property [k] of an expression whose value is [null] is read or
      written. *)
Inductive Access := Reading | Setting.

Class Engine := mkEngine {
  toLowerCase : jsstring -> jsstring;
  toLowerCase_empty : toLowerCase [] = [];
  querySelectorFinds : jsstring -> jsstring -> jsstring -> bool;
  nullAccessMessage : Access -> jsstring -> jsstring -> jsstring
}.

(** The quotation mark, the line feed, and the markup of a note:
    [<div class="empty">] followed by a text and [</div>]. *)
Definition quot : jsstring := [34].
Definition nl : jsstring := [10].

Definition emptyMarkup (text : jsstring) : jsstring :=
  js "<div class=" ++ quot ++ js "empty" ++ quot ++ js ">" ++ text
    ++ js "</div>".

(** [h.startsWith(q)] and [h.includes(q)]. *)
Fixpoint startsWith (h q : jsstring) {struct q} : bool :=
  match q, h with
  | [], _ => true
  | x :: q', y :: h' => (x =? y) && startsWith h' q'
  | _ :: _, [] => false
  end.

Fixpoint includes (h q : jsstring) : bool :=
  startsWith h q || match h with [] => false | _ :: h' => includes h' q end.

(** [parts.join(sep)]. *)
Fixpoint join (sep : jsstring) (parts : list jsstring) : jsstring :=
  match parts with
  | [] => []
  | [p] => p
  | p :: rest => p ++ sep ++ join sep rest
  end.

(** [String(n)] for a non-negative integer. *)
Definition decimal (n : N) : jsstring :=
  js (NilEmpty.string_of_uint (N.to_uint n)).

(** *** Exceptions *)

Inductive ErrorKind :=
  | Error | TypeError | SyntaxError | URIError
  | SecurityError | QuotaExceededError.

Record exn := mkExn { exn_kind : ErrorKind; message : jsstring }.

Inductive result (A : Type) : Type :=
  | Ok (a : A)
  | Throw (e : exn).
Arguments Ok {A} a.
Arguments Throw {A} e.

Definition bind {A B} (r : result A) (k : A -> result B) : result B :=
  match r with Ok a => k a | Throw e => Throw e end.

Fixpoint mapM {A B} (f : A -> result B) (l : list A) : result (list B) :=
  match l with
  | [] => Ok []
  | x :: r =>
      bind (f x) (fun y => bind (mapM f r) (fun ys => Ok (y :: ys)))
  end.

(** *** encodeURIComponent *)

(** uriUnreserved: letters, digits and [- _ . ! ~ * ' ( )]. *)
Definition unreserved (c : N) : bool :=
  ((65 <=? c) && (c <=? 90)) || ((97 <=? c) && (c <=? 122))
  || ((48 <=? c) && (c <=? 57))
  || (c =? 45) || (c =? 95) || (c =? 46) || (c =? 33) || (c =? 126)
  || (c =? 42) || (c =? 39) || (c =? 40) || (c =? 41).

Definition hexDigit (d : N) : N := if d <? 10 then 48 + d else 55 + d.

(** One octet as [%XX]. *)
Definition pctOctet (b : N) : jsstring :=
  [37; hexDigit (b / 16); hexDigit (b mod 16)].

(** The UTF-8 octets of a code point. *)
Definition utf8 (cp : N) : list N :=
  if cp <? 0x80 then [cp]
  else if cp <? 0x800 then [0xC0 + cp / 64; 0x80 + cp mod 64]
  else if cp <? 0x10000 then
    [0xE0 + cp / 4096; 0x80 + (cp / 64) mod 64; 0x80 + cp mod 64]
  else
    [0xF0 + cp / 262144; 0x80 + (cp / 4096) mod 64;
     0x80 + (cp / 64) mod 64; 0x80 + cp mod 64].

Definition pctEncode (cp : N) : jsstring := flat_map pctOctet (utf8 cp).

Definition isHighSurrogate (c : N) : bool := (0xD800 <=? c) && (c <=? 0xDBFF).
Definition isLowSurrogate (c : N) : bool := (0xDC00 <=? c) && (c <=? 0xDFFF).

Definition pairCodePoint (hi lo : N) : N :=
  (hi - 0xD800) * 0x400 + (lo - 0xDC00) + 0x10000.

Definition uriMalformed : exn := mkExn URIError (js "URI malformed").

(** The Encode operation: unreserved code units are copied, any other code
    point is written as the percent-escapes of its UTF-8 octets, and an
    unpaired surrogate raises URIError. *)
Fixpoint encodeURIComponent (s : jsstring) : result jsstring :=
  match s with
  | [] => Ok []
  | c :: rest =>
    if unreserved c then
      bind (encodeURIComponent rest) (fun e => Ok (c :: e))
    else if isHighSurrogate c then
      match rest with
      | d :: rest' =>
          if isLowSurrogate d then
            bind (encodeURIComponent rest')
                 (fun e => Ok (pctEncode (pairCodePoint c d) ++ e))
          else Throw uriMalformed
      | [] => Throw uriMalformed
      end
    else if isLowSurrogate c then Throw uriMalformed
    else if c <? 0x10000 then
      bind (encodeURIComponent rest) (fun e => Ok (pctEncode c ++ e))
    else Throw uriMalformed
  end.

(** *** Array.prototype.sort *)

(** The sort is stable; with a consistent comparator every conforming
    engine returns the list computed here (elements are inserted from the
    right, an element going before the first one it does not exceed). *)
Section Sort.
Context {A : Type} (cmp : A -> A -> Z).

Fixpoint sort_insert (x : A) (l : list A) : list A :=
  match l with
  | [] => [x]
  | y :: r => if (cmp x y <=? 0)%Z then x :: y :: r else y :: sort_insert x r
  end.

Definition Array_sort (l : list A) : list A := fold_right sort_insert [] l.
End Sort.

(** *** Map: insertion-ordered entries with distinct keys *)

Section Map.
Context {K V : Type} (eqb : K -> K -> bool).

Definition JsMap := list (K * V).

Fixpoint Map_get (k : K) (m : JsMap) : option V :=
  match m with
  | [] => None
  | (k', v) :: r => if eqb k k' then Some v else Map_get k r
  end.

Definition Map_has (k : K) (m : JsMap) : bool :=
  match Map_get k m with Some _ => true | None => false end.

(** [m.set(k, v)]: replaces in place, or appends a new entry. *)
Fixpoint Map_set (k : K) (v : V) (m : JsMap) : JsMap :=
  match m with
  | [] => [(k, v)]
  | (k', v') :: r =>
      if eqb k k' then (k', v) :: r else (k', v') :: Map_set k v r
  end.

(** Mutation of the object that [m.get(k)] refers to. *)
Fixpoint Map_mutate (k : K) (f : V -> V) (m : JsMap) : JsMap :=
  match m with
  | [] => []
  | (k', v) :: r =>
      if eqb k k' then (k', f v) :: r else (k', v) :: Map_mutate k f r
  end.

Definition Map_entries (m : JsMap) : list (K * V) := m.
Definition Map_values (m : JsMap) : list V := map snd m.
End Map.

(** *** Collation *)

(** Comparison of two collation keys, element by element. *)
Fixpoint keyCompare (a b : list N) : Z :=
  match a, b with
  | [], [] => 0%Z
  | [], _ :: _ => (-1)%Z
  | _ :: _, [] => 1%Z
  | x :: a', y :: b' =>
      match N.compare x y with
      | Lt => (-1)%Z
      | Gt => 1%Z
      | Eq => keyCompare a' b'
      end
  end.

(** *** Values produced by JSON.parse, and objects built from them *)

(** Numbers are kept as integers.  An array has its elements (a hole where
    none was assigned) and, besides, the named properties assigned to it
    afterwards; JSON.stringify does not write those. *)
Inductive jsval :=
  | JNull
  | JBool (b : bool)
  | JNumber (z : Z)
  | JString (s : jsstring)
  | JArray (elems : list (option jsval)) (own : list (jsstring * jsval))
  | JObject (props : list (jsstring * jsval)).

Definition jv_truthy (v : jsval) : bool :=
  match v with
  | JNull => false
  | JBool b => b
  | JNumber z => negb (z =? 0)%Z
  | JString s => truthy s
  | JArray _ _ | JObject _ => true
  end.

(** [typeof v === "object"]. *)
Definition typeof_object (v : jsval) : bool :=
  match v with
  | JNull | JArray _ _ | JObject _ => true
  | _ => false
  end.

(** The TypeError of an access to a property of [null]. *)
Definition nullAccess {engine : Engine} (a : Access) (base k : jsstring)
  : exn :=
  mkExn TypeError (nullAccessMessage a base k).

(** [base.appendChild], where [base] holds what [querySelector] returned:
    the method is looked up before the argument of the call is evaluated,
    and the lookup throws when nothing was found. *)
Definition appendChildOf {engine : Engine} (found : bool) (base : jsstring)
  : result unit :=
  if found then Ok tt
  else Throw (nullAccess Reading base (js "appendChild")).

Definition PROTO : jsstring := js "__proto__".
Definition LENGTH : jsstring := js "length".

(** An array index: the canonical decimal text of an integer below
    2^32 - 1. *)
Fixpoint digitsValue (acc : N) (s : jsstring) : option N :=
  match s with
  | [] => Some acc
  | c :: r =>
      if (48 <=? c) && (c <=? 57) then digitsValue (acc * 10 + (c - 48)) r
      else None
  end.

Definition arrayIndex (k : jsstring) : option nat :=
  match digitsValue 0 k with
  | Some n =>
      if str_eqb (decimal n) k && (n <? 4294967295) then Some (N.to_nat n)
      else None
  | None => None
  end.

(** [arr.length = n] and [arr[i] = v] on the elements of an array: the
    first cuts the array or extends it with holes, the second extends it
    with holes up to [i] when needed. *)
Definition setLength (n : nat) (elems : list (option jsval))
  : list (option jsval) :=
  firstn n elems ++ repeat None (n - length elems).

Definition setElement (i : nat) (v : jsval) (elems : list (option jsval))
  : list (option jsval) :=
  firstn i elems ++ repeat None (i - length elems) ++ [Some v]
    ++ skipn (S i) elems.

(** [state.accordionState[k]], as far as [typeof ... === "boolean"] can
    tell: the own property of that name (what an object inherits from its
    prototype, the prototype itself included, is never a boolean).  On an
    array, [length] is its length and an index names an element. *)
Definition getProp {engine : Engine} (o : jsval) (k : jsstring)
  : result (option jsval) :=
  match o with
  | JNull => Throw (nullAccess Reading (js "state.accordionState") k)
  | JObject props => Ok (Map_get str_eqb k props)
  | JArray elems own =>
      if str_eqb k LENGTH then
        Ok (Some (JNumber (Z.of_nat (length elems))))
      else
        match arrayIndex k with
        | Some i =>
            Ok (match nth_error elems i with
                | Some (Some v) => Some v
                | _ => None
                end)
        | None => Ok (Map_get str_eqb k own)
        end
  | _ => Ok None
  end.

(** [state.accordionState[k] = b] for a boolean [b].  The name [__proto__]
    reaches the prototype setter unless the object has an own property of
    that name, and the setter ignores a boolean; assignment to a property
    of a primitive is ignored.  On an array, an assignment to [length] sets
    the length to the number the boolean converts to (one or zero), and an
    assignment to an index sets that element. *)
Definition setFlag {engine : Engine} (o : jsval) (k : jsstring) (b : bool)
  : result jsval :=
  match o with
  | JNull => Throw (nullAccess Setting (js "state.accordionState") k)
  | JObject props =>
      if str_eqb k PROTO && negb (Map_has str_eqb k props) then Ok o
      else Ok (JObject (Map_set str_eqb k (JBool b) props))
  | JArray elems own =>
      if str_eqb k LENGTH then
        Ok (JArray (setLength (if b then 1 else 0)%nat elems) own)
      else
        match arrayIndex k with
        | Some i => Ok (JArray (setElement i (JBool b) elems) own)
        | None =>
            if str_eqb k PROTO && negb (Map_has str_eqb k own) then Ok o
            else Ok (JArray elems (Map_set str_eqb k (JBool b) own))
        end
  | _ => Ok o
  end.

(** *** localStorage *)

(** The store may be unavailable (every access raises SecurityError) and has
    a quota on the length of a stored value. *)
Record Storage := mkStorage {
  blocked : bool;
  quota : nat;
  slots : list (jsstring * jsstring)
}.

Definition getItem (k : jsstring) (s : Storage) : result (option jsstring) :=
  if blocked s then Throw (mkExn SecurityError (js "The operation is insecure."))
  else Ok (Map_get str_eqb k (slots s)).

Definition setItem (k v : jsstring) (s : Storage) : result Storage :=
  if blocked s then Throw (mkExn SecurityError (js "The operation is insecure."))
  else if (quota s <? length v)%nat then
    Throw (mkExn QuotaExceededError (js "The quota has been exceeded."))
  else Ok (mkStorage (blocked s) (quota s) (Map_set str_eqb k v (slots s))).

(** *** Effectful code: a state that survives exceptions *)

Definition M (S A : Type) : Type := S -> result A * S.

Definition ret {S A} (a : A) : M S A := fun s => (Ok a, s).

Definition bindM {S A B} (m : M S A) (k : A -> M S B) : M S B :=
  fun s => match m s with
           | (Ok a, s') => k a s'
           | (Throw e, s') => (Throw e, s')
           end.

Definition throwM {S A} (e : exn) : M S A := fun s => (Throw e, s).

Definition liftR {S A} (r : result A) : M S A := fun s => (r, s).

Definition gets {S A} (f : S -> A) : M S A := fun s => (Ok (f s), s).

Definition modify {S} (f : S -> S) : M S unit := fun s => (Ok tt, f s).

(** [try { m } catch (e) { h e }]: the state reached when the exception was
    raised is the one the handler starts from. *)
Definition tryM {S A} (m : M S A) (h : exn -> M S A) : M S A :=
  fun s => match m s with
           | (Ok a, s') => (Ok a, s')
           | (Throw e, s') => h e s'
           end.

Declare Scope js_scope.
Delimit Scope js_scope with js.
Notation "x <- m ;; k" := (bindM m (fun x => k))
  (at level 61, m at next level, right associativity) : js_scope.
Notation "m ;;; k" := (bindM m (fun _ => k))
  (at level 61, right associativity) : js_scope.

(** [l.forEach(f)]: an exception ends the loop, what was done stays. *)
Fixpoint forEach {S A} (f : A -> M S unit) (l : list A) : M S unit :=
  match l with
  | [] => ret tt
  | x :: rest => (f x ;;; forEach f rest)%js
  end.

End JS.

(* ================================================================= *)
(** ** The fetched snapshot and the network *)
(* ================================================================= *)

Module Feed.
Import JS.

(** NewsItem.  The fields the scripts guard with [||] wherever they read
    them may be missing; [site_id] (a Map key, compared with [!==]) and
    [site_name] (the receiver of [localeCompare] in [computeSiteStats],
    written unguarded into the item template) are strings: the model covers
    the snapshots whose items carry both.  On an item without [site_name]
    the comparator of [computeSiteStats] throws when it has to break a tie
    by name; that is outside the model. *)
Record Item := mkItem {
  title : option jsstring;
  title_zh : option jsstring;
  title_en : option jsstring;
  site_id : jsstring;
  site_name : jsstring;
  source : option jsstring;
  url : option jsstring;
  published_at : option jsstring;
  first_seen_at : option jsstring
}.

Record FollowGroup := mkFollowGroup {
  group_source : option jsstring;
  subscription_url : option jsstring;
  group_items : option (list Item);
  shown_count : option N
}.

Record MomoyuEntry := mkMomoyuEntry {
  rank : option N;
  entry_title : option jsstring;
  entry_url : option jsstring
}.

Record MomoyuSection := mkMomoyuSection {
  section : option jsstring;
  count : option N;
  entries : option (list MomoyuEntry)
}.

Record MomoyuParsed := mkMomoyuParsed {
  item_title : option jsstring;
  pubDate : option jsstring;
  sections : option (list MomoyuSection)
}.

(** FeedSnapshot: the payload of [latest-24h.json]; every property may be
    missing. *)
Record Snapshot := mkSnapshot {
  items_ai : option (list Item);
  items : option (list Item);
  items_all_raw : option (list Item);
  items_all : option (list Item);
  total_items : option N;
  total_items_raw : option N;
  total_items_all_mode : option N;
  follow_opml_items : option (list Item);
  follow_opml_groups : option (list FollowGroup);
  momoyu_items : option (list Item);
  momoyu_parsed : option MomoyuParsed;
  generated_at : option jsstring
}.

(** What the item template shows: the title is either a primary line with a
    secondary one, or a single text. *)
Inductive TitleView :=
  | Bilingual (primary sub : jsstring)
  | Plain (text : jsstring).

Record ItemNode := mkItemNode {
  node_site : jsstring;
  node_source : jsstring;
  node_time : jsstring;
  node_title : TitleView;
  node_href : option jsstring
}.

(** [a || b] on a property holding an array (an array is truthy even when
    empty) and on one holding a number (zero is falsy). *)
Definition or_arr {A} (o : option (list A)) (d : option (list A))
  : option (list A) :=
  match o with Some l => Some l | None => d end.

Definition arr_or_empty {A} (o : option (list A)) : list A :=
  match o with Some l => l | None => [] end.

Definition or_num (o : option N) (d : N) : N :=
  match o with
  | Some n => if (n =? 0)%N then d else n
  | None => d
  end.

(** A response: its status and what [res.json()] settles to. *)
Record Response := mkResponse {
  status : N;
  json : result Snapshot
}.

(** [res.ok]: the status is in the range 200-299. *)
Definition ok (r : Response) : bool :=
  ((200 <=? status r) && (status r <=? 299))%N.

(** The network: the clock, the outcomes the next fetches will have (a
    response, or a rejection such as a connection failure), and the log of
    the requests issued so far. *)
Record Network := mkNetwork {
  clock : N;
  responses : list (result Response);
  requests : list jsstring
}.

Definition Date_now (n : Network) : N := clock n.

Definition fetch (u : jsstring) : M Network Response :=
  fun n =>
    match responses n with
    | r :: rest => (r, mkNetwork (clock n) rest (requests n ++ [u]))
    | [] => (Throw (mkExn TypeError (js "Failed to fetch")),
             mkNetwork (clock n) [] (requests n ++ [u]))
    end.

Definition snapshotUrl (now : N) : jsstring :=
  (js "./data/latest-24h.json?t=" ++ decimal now)%list.

(** [loadNewsData], the same in the three scripts. *)
Definition loadNewsData : M Network Snapshot :=
  (now <- gets Date_now ;;
   res <- fetch (snapshotUrl now) ;;
   if negb (ok res) then
     throwM (mkExn Error
                   (js "加载 latest-24h.json 失败: " ++ decimal (status res))%list)
   else liftR (json res))%js.

End Feed.

(* ================================================================= *)
(** ** The main page script *)
(* ================================================================= *)

Module Radar.
Import JS Feed.

Inductive Mode := ModeAi | ModeAll.

Record State := mkState {
  itemsAi : list Item;
  itemsAll : list Item;
  itemsAllRaw : list Item;
  totalAi : N;
  totalRaw : N;
  totalAllMode : N;
  followOpmlItems : list Item;
  allDedup : bool;
  siteFilter : jsstring;
  query : jsstring;
  mode : Mode;
  generatedAt : option jsstring;
  accordionState : jsval
}.

Definition state0 : State :=
  mkState [] [] [] 0 0 0 [] true [] [] ModeAi None (JObject []).

Definition ACCORDION_STORAGE_KEY : jsstring :=
  js "ai-news-radar:accordion-state:v1".

(** *** The page, as far as the script writes it *)

(** A panel ([details]) of the news list: the markup assigned to its
    [innerHTML], its accordion id, whether it is open, and the nodes the
    script appended to the list container found in that markup. *)
Record SourceSection := mkSourceSection {
  src_markup : jsstring;
  src_id : jsstring;
  src_open : bool;
  src_items : list ItemNode
}.

Record SiteSection := mkSiteSection {
  site_markup : jsstring;
  site_acc_id : jsstring;
  site_open : bool;
  site_sources : list SourceSection
}.

(** A child of the news list: a note or a panel the script built, or
    whatever the parser makes of markup assigned to [innerHTML]. *)
Inductive NewsNode :=
  | EmptyNote (text : jsstring)
  | SourceNode (s : SourceSection)
  | SiteNode (s : SiteSection)
  | Markup (html : jsstring).

Inductive FollowNode :=
  | FollowEmpty (text : jsstring)
  | FollowItem (n : ItemNode).

Record FollowView := mkFollowView {
  followOpmlCount : jsstring;
  followOpmlList : list FollowNode
}.

Record ModeSwitchView := mkModeSwitchView {
  modeAiActive : bool;
  modeAllActive : bool;
  dedupeShown : bool;
  dedupeChecked : bool;
  dedupeLabel : jsstring;
  modeHint : jsstring
}.

Record Pill := mkPill {
  pill_active : bool;
  pill_text : jsstring;
  pill_target : jsstring
}.

Record SiteFiltersView := mkSiteFiltersView {
  siteOptions : list (jsstring * jsstring);
  siteSelectValue : jsstring;
  sitePills : list Pill
}.

Record Dom := mkDom {
  updatedAt : jsstring;
  resultCount : jsstring;
  newsList : list NewsNode;
  followOpml : FollowView;
  modeSwitch : ModeSwitchView;
  siteFilters : SiteFiltersView
}.

Record Env := mkEnv {
  st : State;
  dom : Dom;
  storage : Storage;
  net : Network
}.

Definition with_st (f : State -> State) (e : Env) : Env :=
  mkEnv (f (st e)) (dom e) (storage e) (net e).
Definition with_dom (f : Dom -> Dom) (e : Env) : Env :=
  mkEnv (st e) (f (dom e)) (storage e) (net e).
Definition with_storage (s : Storage) (e : Env) : Env :=
  mkEnv (st e) (dom e) s (net e).
Definition with_net (n : Network) (e : Env) : Env :=
  mkEnv (st e) (dom e) (storage e) n.

Definition set_updatedAt (t : jsstring) (d : Dom) : Dom :=
  mkDom t (resultCount d) (newsList d) (followOpml d) (modeSwitch d)
        (siteFilters d).
Definition set_resultCount (t : jsstring) (d : Dom) : Dom :=
  mkDom (updatedAt d) t (newsList d) (followOpml d) (modeSwitch d)
        (siteFilters d).
Definition set_newsList (l : list NewsNode) (d : Dom) : Dom :=
  mkDom (updatedAt d) (resultCount d) l (followOpml d) (modeSwitch d)
        (siteFilters d).
Definition set_followOpml (v : FollowView) (d : Dom) : Dom :=
  mkDom (updatedAt d) (resultCount d) (newsList d) v (modeSwitch d)
        (siteFilters d).
Definition set_modeSwitch (v : ModeSwitchView) (d : Dom) : Dom :=
  mkDom (updatedAt d) (resultCount d) (newsList d) (followOpml d) v
        (siteFilters d).
Definition set_siteFilters (v : SiteFiltersView) (d : Dom) : Dom :=
  mkDom (updatedAt d) (resultCount d) (newsList d) (followOpml d)
        (modeSwitch d) v.

Definition set_query (q : jsstring) (s : State) : State :=
  mkState (itemsAi s) (itemsAll s) (itemsAllRaw s) (totalAi s) (totalRaw s)
          (totalAllMode s) (followOpmlItems s) (allDedup s) (siteFilter s) q
          (mode s) (generatedAt s) (accordionState s).
Definition set_siteFilter (f : jsstring) (s : State) : State :=
  mkState (itemsAi s) (itemsAll s) (itemsAllRaw s) (totalAi s) (totalRaw s)
          (totalAllMode s) (followOpmlItems s) (allDedup s) f (query s)
          (mode s) (generatedAt s) (accordionState s).
Definition set_mode (m : Mode) (s : State) : State :=
  mkState (itemsAi s) (itemsAll s) (itemsAllRaw s) (totalAi s) (totalRaw s)
          (totalAllMode s) (followOpmlItems s) (allDedup s) (siteFilter s)
          (query s) m (generatedAt s) (accordionState s).
Definition set_allDedup (b : bool) (s : State) : State :=
  mkState (itemsAi s) (itemsAll s) (itemsAllRaw s) (totalAi s) (totalRaw s)
          (totalAllMode s) (followOpmlItems s) b (siteFilter s) (query s)
          (mode s) (generatedAt s) (accordionState s).
Definition set_accordionState (a : jsval) (s : State) : State :=
  mkState (itemsAi s) (itemsAll s) (itemsAllRaw s) (totalAi s) (totalRaw s)
          (totalAllMode s) (followOpmlItems s) (allDedup s) (siteFilter s)
          (query s) (mode s) (generatedAt s) a.

Section WithEngine.
Context {engine : Engine}.

(** *** Filtering *)

Definition effectiveAllItems (s : State) : list Item :=
  if allDedup s then itemsAll s else itemsAllRaw s.

Definition modeItems (s : State) : list Item :=
  match mode s with
  | ModeAll => effectiveAllItems s
  | ModeAi => itemsAi s
  end.

(** The text a query is searched in: five fields separated by spaces. *)
Definition hay (item : Item) : jsstring :=
  toLowerCase
    (or_str (title item) [] ++ js " " ++ or_str (title_zh item) []
     ++ js " " ++ or_str (title_en item) [] ++ js " "
     ++ or_str (Some (site_name item)) [] ++ js " "
     ++ or_str (source item) []).

Definition getFilteredItems (s : State) : list Item :=
  let q := toLowerCase (trim (query s)) in
  filter
    (fun item =>
       if truthy (siteFilter s) && negb (str_eqb (site_id item) (siteFilter s))
       then false
       else if negb (truthy q) then true
       else includes (hay item) q)
    (modeItems s).

(** *** Accordion ids *)

Definition makeAccordionId (parts : list (option jsstring)) : result jsstring :=
  bind (mapM (fun x => encodeURIComponent (or_str x [])) parts)
       (fun encoded => Ok (join (js "|") encoded)).

(** The open flag [bindAccordionState] gives a panel. *)
Definition bindAccordionState (s : State) (id : jsstring) (defaultOpen : bool)
  : result bool :=
  bind (getProp (accordionState s) id)
       (fun saved =>
          Ok (match saved with
              | Some (JBool b) => b
              | _ => defaultOpen
              end)).

Section Platform.

(** The platform services the script calls: the zh-CN collation (as the
    key it assigns to a string), number and date formatting for zh-CN
    ([formatDateTime] has no result for an invalid date), and JSON. *)
Variable collationKey : jsstring -> list N.
Variable formatNumber : N -> jsstring.
Variable formatDateTime : jsstring -> option jsstring.
Variable JSON_parse : jsstring -> result jsval.
Variable JSON_stringify : jsval -> result jsstring.

(** [a.localeCompare(b, "zh-CN")]. *)
Definition localeCompare (a b : jsstring) : Z :=
  keyCompare (collationKey a) (collationKey b).

Definition fmtNumber (n : N) : jsstring := formatNumber n.

Definition fmtTime (iso : option jsstring) : jsstring :=
  match iso with
  | None => js "时间未知"
  | Some i =>
      if negb (truthy i) then js "时间未知"
      else match formatDateTime i with
           | None => js "时间未知"
           | Some t => t
           end
  end.

(** *** Persistence of the accordion map *)

Definition readAccordionState : M Env jsval :=
  tryM
    (raw <- (fun e => (getItem ACCORDION_STORAGE_KEY (storage e), e)) ;;
     match raw with
     | None => ret (JObject [])
     | Some r =>
         if negb (truthy r) then ret (JObject [])
         else
           parsed <- liftR (JSON_parse r) ;;
           ret (if jv_truthy parsed && typeof_object parsed
                then parsed else JObject [])
     end)%js
    (fun _ => ret (JObject [])).

Definition writeAccordionState : M Env unit :=
  tryM
    (fun e =>
       let a := accordionState (st e) in
       let a := if jv_truthy a then a else JObject [] in
       match bind (JSON_stringify a)
                  (fun text => setItem ACCORDION_STORAGE_KEY text (storage e))
       with
       | Ok s' => (Ok tt, with_storage s' e)
       | Throw x => (Throw x, e)
       end)
    (fun _ => ret tt).

(** The [toggle] listener of a panel. *)
Definition onToggle (id : jsstring) (open : bool) : M Env unit :=
  (a <- gets (fun e => accordionState (st e)) ;;
   a' <- liftR (setFlag a id open) ;;
   modify (with_st (set_accordionState a')) ;;;
   writeAccordionState)%js.

(** *** Site statistics *)

Record SiteStat := mkSiteStat {
  stat_site_id : jsstring;
  stat_site_name : jsstring;
  stat_count : N;
  stat_raw_count : N
}.

Definition siteStat_bump (row : SiteStat) : SiteStat :=
  mkSiteStat (stat_site_id row) (stat_site_name row)
             (stat_count row + 1) (stat_raw_count row + 1).

Definition computeSiteStats_step (m : list (jsstring * SiteStat))
           (item : Item) : list (jsstring * SiteStat) :=
  let m1 :=
    if negb (Map_has str_eqb (site_id item) m)
    then Map_set str_eqb (site_id item)
                 (mkSiteStat (site_id item) (site_name item) 0 0) m
    else m in
  Map_mutate str_eqb (site_id item) siteStat_bump m1.

Definition computeSiteStats_rows (items : list Item) : list SiteStat :=
  Map_values (fold_left computeSiteStats_step items []).

Definition siteStat_cmp (a b : SiteStat) : Z :=
  let d := (Z.of_N (stat_count b) - Z.of_N (stat_count a))%Z in
  if (d =? 0)%Z then localeCompare (stat_site_name a) (stat_site_name b)
  else d.

Definition computeSiteStats (items : list Item) : list SiteStat :=
  Array_sort siteStat_cmp (computeSiteStats_rows items).

Definition currentSiteStats (s : State) : list SiteStat :=
  match mode s with
  | ModeAi => computeSiteStats (itemsAi s)
  | ModeAll =>
      computeSiteStats (if allDedup s then itemsAll s else itemsAllRaw s)
  end.

(** *** Grouping by source *)

Definition sourceKey (item : Item) : jsstring :=
  or_str (source item) (js "未分区").

Definition groupBySource_step (m : list (jsstring * list Item))
           (item : Item) : list (jsstring * list Item) :=
  let key := sourceKey item in
  let m1 := if negb (Map_has str_eqb key m)
            then Map_set str_eqb key [] m else m in
  Map_mutate str_eqb key (fun l => l ++ [item]) m1.

Definition groupBySource_groupMap (items : list Item)
  : list (jsstring * list Item) :=
  Map_entries (fold_left groupBySource_step items []).

Definition sourceGroup_cmp (a b : jsstring * list Item) : Z :=
  let d := (Z.of_nat (length (snd b)) - Z.of_nat (length (snd a)))%Z in
  if (d =? 0)%Z then localeCompare (fst a) (fst b) else d.

Definition groupBySource (items : list Item)
  : list (jsstring * list Item) :=
  Array_sort sourceGroup_cmp (groupBySource_groupMap items).

(** *** Grouping by site (first half of [renderGroupedBySiteAndSource]) *)

Record SiteEntry := mkSiteEntry {
  siteName : jsstring;
  siteItems : list Item
}.

Definition siteEntry_push (item : Item) (s : SiteEntry) : SiteEntry :=
  mkSiteEntry (siteName s) (siteItems s ++ [item]).

Definition siteMap_step (m : list (jsstring * SiteEntry)) (item : Item)
  : list (jsstring * SiteEntry) :=
  let m1 :=
    if negb (Map_has str_eqb (site_id item) m)
    then Map_set str_eqb (site_id item)
                 (mkSiteEntry
                    (or_str (Some (site_name item)) (site_id item)) [])
                 m
    else m in
  Map_mutate str_eqb (site_id item) (siteEntry_push item) m1.

Definition renderGroupedBySiteAndSource_siteMap (items : list Item)
  : list (jsstring * SiteEntry) :=
  Map_entries (fold_left siteMap_step items []).

Definition siteGroup_cmp (a b : jsstring * SiteEntry) : Z :=
  let byCount := (Z.of_nat (length (siteItems (snd b)))
                  - Z.of_nat (length (siteItems (snd a))))%Z in
  if negb (byCount =? 0)%Z then byCount
  else localeCompare (siteName (snd a)) (siteName (snd b)).

Definition renderGroupedBySiteAndSource_sites (items : list Item)
  : list (jsstring * SiteEntry) :=
  Array_sort siteGroup_cmp (renderGroupedBySiteAndSource_siteMap items).

(** *** Rendering *)

Definition renderItemNode (item : Item) : ItemNode :=
  let zh := trim (or_str (title_zh item) []) in
  let en := trim (or_str (title_en item) []) in
  mkItemNode
    (site_name item)
    (js "分区: " ++ to_string (source item))
    (fmtTime (or_opt (published_at item) (first_seen_at item)))
    (if truthy zh && truthy en && negb (str_eqb zh en)
     then Bilingual zh en
     else Plain (or_str (title item) (if truthy zh then zh else en)))
    (url item).

Definition countText (n : nat) : jsstring :=
  fmtNumber (N.of_nat n) ++ js " 条".

(** The template literal of [buildSourceGroupNode], with the source name
    and the formatted count interpolated as they are. *)
Definition sourceGroupMarkup (source count : jsstring) : jsstring :=
  nl ++ js "    <summary class=" ++ quot
     ++ js "source-group-head accordion-head" ++ quot ++ js ">" ++ nl
     ++ js "      <div class=" ++ quot ++ js "accordion-title" ++ quot
     ++ js ">" ++ nl
     ++ js "        <span class=" ++ quot ++ js "accordion-caret" ++ quot
     ++ js " aria-hidden=" ++ quot ++ js "true" ++ quot ++ js "></span>"
     ++ nl
     ++ js "        <h3>" ++ source ++ js "</h3>" ++ nl
     ++ js "      </div>" ++ nl
     ++ js "      <span>" ++ count ++ js " 条</span>" ++ nl
     ++ js "    </summary>" ++ nl
     ++ js "    <div class=" ++ quot ++ js "source-group-list" ++ quot
     ++ js "></div>" ++ nl
     ++ js "  ".

Definition buildSourceGroupNode (s : State) (source : jsstring)
           (items : list Item) (accordionId : jsstring)
  : result SourceSection :=
  let markup :=
    sourceGroupMarkup source (fmtNumber (N.of_nat (length items))) in
  bind (bindAccordionState s accordionId false)
    (fun open =>
  let listEl :=
    querySelectorFinds (js "details") markup (js ".source-group-list") in
  bind (mapM (fun item =>
                bind (appendChildOf listEl (js "listEl"))
                     (fun _ => Ok (renderItemNode item)))
             items)
    (fun rows => Ok (mkSourceSection markup accordionId open rows))).

Definition appendNews (nodes : list NewsNode) : M Env unit :=
  modify (with_dom (fun d => set_newsList (newsList d ++ nodes) d)).

Definition renderGroupedBySource (items : list Item) : M Env unit :=
  (s <- gets st ;;
   let groups := groupBySource items in
   let ctx := if truthy (siteFilter s) then js "site:" ++ siteFilter s
              else js "all" in
   frag <- liftR
     (mapM (fun g : jsstring * list Item =>
              bind (makeAccordionId
                      [Some (js "source"); Some ctx; Some (fst g)])
                   (fun accordionId =>
                      buildSourceGroupNode s (fst g) (snd g) accordionId))
           groups) ;;
   appendNews (map SourceNode frag))%js.

(** The template literal of the site panel. *)
Definition siteGroupMarkup (name count : jsstring) : jsstring :=
  nl ++ js "      <summary class=" ++ quot
     ++ js "site-group-head accordion-head" ++ quot ++ js ">" ++ nl
     ++ js "        <div class=" ++ quot ++ js "accordion-title" ++ quot
     ++ js ">" ++ nl
     ++ js "          <span class=" ++ quot ++ js "accordion-caret" ++ quot
     ++ js " aria-hidden=" ++ quot ++ js "true" ++ quot ++ js "></span>"
     ++ nl
     ++ js "          <h3>" ++ name ++ js "</h3>" ++ nl
     ++ js "        </div>" ++ nl
     ++ js "        <span>" ++ count ++ js " 条</span>" ++ nl
     ++ js "      </summary>" ++ nl
     ++ js "      <div class=" ++ quot ++ js "site-group-list" ++ quot
     ++ js "></div>" ++ nl
     ++ js "    ".

Definition renderSiteSection (s : State) (g : jsstring * SiteEntry)
  : result SiteSection :=
  let siteId := fst g in
  let site := snd g in
  let markup :=
    siteGroupMarkup (siteName site)
                    (fmtNumber (N.of_nat (length (siteItems site)))) in
  bind (makeAccordionId [Some (js "site"); Some siteId])
    (fun siteAccordionId =>
  bind (bindAccordionState s siteAccordionId false)
    (fun open =>
  let siteListEl :=
    querySelectorFinds (js "details") markup (js ".site-group-list") in
  bind (mapM (fun sg : jsstring * list Item =>
                bind (makeAccordionId
                        [Some (js "source"); Some (js "site:" ++ siteId);
                         Some (fst sg)])
                     (fun sourceAccordionId =>
                bind (appendChildOf siteListEl (js "siteListEl"))
                     (fun _ =>
                        buildSourceGroupNode s (fst sg) (snd sg)
                                             sourceAccordionId)))
             (groupBySource (siteItems site)))
    (fun sources =>
       Ok (mkSiteSection markup siteAccordionId open sources)))).

Definition renderGroupedBySiteAndSource (items : list Item) : M Env unit :=
  (s <- gets st ;;
   let sites := renderGroupedBySiteAndSource_sites items in
   frag <- liftR (mapM (renderSiteSection s) sites) ;;
   appendNews (map SiteNode frag))%js.

Definition renderList : M Env unit :=
  (filtered <- gets (fun e => getFilteredItems (st e)) ;;
   modify (with_dom (set_resultCount (countText (length filtered)))) ;;;
   modify (with_dom (set_newsList [])) ;;;
   if (length filtered =? 0)%nat then
     appendNews [EmptyNote (js "当前筛选条件下没有结果。")]
   else
     (sf <- gets (fun e => siteFilter (st e)) ;;
      if truthy sf then renderGroupedBySource filtered
      else renderGroupedBySiteAndSource filtered))%js.

Definition renderFollowOpml : M Env unit :=
  modify (fun e =>
    let items := followOpmlItems (st e) in
    with_dom
      (set_followOpml
         (mkFollowView
            (countText (length items))
            (if (length items =? 0)%nat
             then [FollowEmpty (js "暂无 follow.opml 数据。")]
             else map (fun item => FollowItem (renderItemNode item)) items)))
      e).

Definition is_all (m : Mode) : bool :=
  match m with ModeAll => true | ModeAi => false end.

Definition renderModeSwitch : M Env unit :=
  modify (fun e =>
    let s := st e in
    let label := if allDedup s then js "去重开" else js "去重关" in
    let hint :=
      if negb (is_all (mode s)) then
        js "当前视图：AI强相关（" ++ fmtNumber (totalAi s) ++ js " 条）"
      else
        let allCount :=
          if allDedup s
          then or_num (Some (totalAllMode s)) (N.of_nat (length (itemsAll s)))
          else or_num (Some (totalRaw s)) (N.of_nat (length (itemsAllRaw s)))
        in
        js "当前视图：全量（" ++ label ++ js "，" ++ fmtNumber allCount
           ++ js " 条）" in
    with_dom
      (set_modeSwitch
         (mkModeSwitchView (negb (is_all (mode s))) (is_all (mode s))
                           (is_all (mode s)) (allDedup s) label hint))
      e).

(** Assigning [select.value]: a value no option carries selects nothing. *)
Definition selectValue (options : list (jsstring * jsstring)) (v : jsstring)
  : jsstring :=
  if existsb (fun o => str_eqb (fst o) v) options then v else [].

Definition renderSiteFilters : M Env unit :=
  modify (fun e =>
    let s := st e in
    let stats := currentSiteStats s in
    let options :=
      (js "", js "全部站点")
        :: map (fun r =>
                  (stat_site_id r,
                   stat_site_name r ++ js " (" ++ decimal (stat_count r)
                     ++ js "/" ++ decimal (stat_raw_count r) ++ js ")"))
               stats in
    let pills :=
      mkPill (str_eqb (siteFilter s) []) (js "全部") []
        :: map (fun r =>
                  mkPill (str_eqb (siteFilter s) (stat_site_id r))
                         (stat_site_name r ++ js " " ++ decimal (stat_count r)
                            ++ js "/" ++ decimal (stat_raw_count r))
                         (stat_site_id r))
               stats in
    with_dom
      (set_siteFilters
         (mkSiteFiltersView options (selectValue options (siteFilter s))
                            pills))
      e).

(** *** Start-up *)

Definition applyPayload (payload : Snapshot) (s : State) : State :=
  let ai := arr_or_empty (or_arr (items_ai payload) (items payload)) in
  let raw := arr_or_empty
               (or_arr (items_all_raw payload)
                       (or_arr (items_all payload) (items payload))) in
  let all := arr_or_empty (or_arr (items_all payload) (items payload)) in
  mkState ai all raw
          (or_num (total_items payload) (N.of_nat (length ai)))
          (or_num (total_items_raw payload) (N.of_nat (length raw)))
          (or_num (total_items_all_mode payload) (N.of_nat (length all)))
          (arr_or_empty (follow_opml_items payload))
          (allDedup s) (siteFilter s) (query s) (mode s)
          (generated_at payload) (accordionState s).

(** [loadNewsData().then(...).catch(...)]: the settled outcome. *)
Definition settleLoad : M Env (result Snapshot) :=
  fun e => let (r, n) := loadNewsData (net e) in (Ok r, with_net n e).

(** [init] up to its [await]: the accordion state is read and the request
    is issued; and [init] from there on, once the load has settled.  In
    between, the page is live: the listeners are registered before [init]
    is called. *)
Definition initBegin : M Env (result Snapshot) :=
  (a <- readAccordionState ;;
   modify (with_st (set_accordionState a)) ;;;
   settleLoad)%js.

Definition initEnd (newsResult : result Snapshot) : M Env unit :=
  match newsResult with
  | Ok payload =>
      (modify (with_st (applyPayload payload)) ;;;
       renderFollowOpml ;;;
       renderModeSwitch ;;;
       renderSiteFilters ;;;
       renderList ;;;
       modify (fun e =>
         with_dom (set_updatedAt
                     (js "更新时间：" ++ fmtTime (generatedAt (st e)))) e))%js
  | Throw reason =>
      (modify (with_dom (set_updatedAt (js "新闻数据加载失败"))) ;;;
       modify (with_dom
                 (set_newsList [Markup (emptyMarkup (message reason))])))%js
  end.

(** [init] when nothing happens on the page while the snapshot loads. *)
Definition init : M Env unit :=
  (newsResult <- initBegin ;; initEnd newsResult)%js.

(** *** Event listeners *)

Definition onSearchInput (value : jsstring) : M Env unit :=
  (modify (with_st (set_query value)) ;;; renderList)%js.

Definition onSiteChange (value : jsstring) : M Env unit :=
  (modify (with_st (set_siteFilter value)) ;;;
   renderSiteFilters ;;; renderList)%js.

Definition onPillClick (p : Pill) : M Env unit :=
  onSiteChange (pill_target p).

Definition onModeClick (m : Mode) : M Env unit :=
  (modify (with_st (set_mode m)) ;;;
   renderModeSwitch ;;; renderSiteFilters ;;; renderList)%js.

Definition onDedupeChange (checked : bool) : M Env unit :=
  (modify (with_st (set_allDedup checked)) ;;;
   renderModeSwitch ;;; renderSiteFilters ;;; renderList)%js.

(** *** The page from its load on *)

(** What the user does: each event runs its listener. *)
Inductive Event :=
  | SearchInput (value : jsstring)
  | SiteChange (value : jsstring)
  | PillClick (p : Pill)
  | ModeClick (m : Mode)
  | DedupeChange (checked : bool)
  | Toggle (id : jsstring) (open : bool).

Definition listener (ev : Event) : M Env unit :=
  match ev with
  | SearchInput value => onSearchInput value
  | SiteChange value => onSiteChange value
  | PillClick p => onPillClick p
  | ModeClick m => onModeClick m
  | DedupeChange checked => onDedupeChange checked
  | Toggle id open => onToggle id open
  end.

(** An exception that escapes a listener is reported by the browser, and
    the page goes on with the state the listener left. *)
Definition dispatch (ev : Event) : M Env unit :=
  tryM (listener ev) (fun _ => ret tt).

Fixpoint dispatchAll (evs : list Event) : M Env unit :=
  match evs with
  | [] => ret tt
  | ev :: rest => (dispatch ev ;;; dispatchAll rest)%js
  end.

(** The script from its first line: the state literal, then [init] with
    the events that arrive while the snapshot loads. *)
Definition boot (d : Dom) (s : Storage) (n : Network) : Env :=
  mkEnv state0 d s n.

Definition start (during : list Event) : M Env unit :=
  (newsResult <- initBegin ;;
   dispatchAll during ;;;
   initEnd newsResult)%js.

End Platform.

End WithEngine.

End Radar.

(* ================================================================= *)
(** ** The subscription page script *)
(* ================================================================= *)

Module Follow.
Import JS Feed.

Record State := mkState {
  followOpmlItems : list Item;
  followOpmlGroups : list FollowGroup;
  momoyuItems : list Item;
  momoyuParsed : option MomoyuParsed;
  generatedAt : option jsstring
}.

Definition state0 : State := mkState [] [] [] None None.

(** A section of a panel: the markup assigned to its [innerHTML], and the
    nodes the script appended to the list container found in it. *)
Record FeedSection := mkFeedSection {
  feed_markup : jsstring;
  feed_items : list ItemNode
}.

(** A row of a ranked list: a link and the markup assigned to its
    [innerHTML]. *)
Record MomoyuRow := mkMomoyuRow {
  row_href : jsstring;
  row_markup : jsstring
}.

Record MomoyuSectionView := mkMomoyuSectionView {
  sec_markup : jsstring;
  sec_rows : list MomoyuRow
}.

Inductive Node :=
  | EmptyNote (text : jsstring)
  | ItemRow (n : ItemNode)
  | FeedNode (f : FeedSection)
  | MetaNote (text : jsstring)
  | MomoyuNode (s : MomoyuSectionView)
  | Markup (html : jsstring).

Record Panel := mkPanel {
  panelCount : jsstring;
  panelList : list Node
}.

Record Dom := mkDom {
  followOpml : Panel;
  momoyu : Panel;
  updatedAt : jsstring
}.

Record Env := mkEnv {
  st : State;
  dom : Dom;
  net : Network
}.

Definition with_st (f : State -> State) (e : Env) : Env :=
  mkEnv (f (st e)) (dom e) (net e).
Definition with_dom (f : Dom -> Dom) (e : Env) : Env :=
  mkEnv (st e) (f (dom e)) (net e).
Definition with_net (n : Network) (e : Env) : Env :=
  mkEnv (st e) (dom e) n.

Definition set_followOpml (f : Panel -> Panel) (d : Dom) : Dom :=
  mkDom (f (followOpml d)) (momoyu d) (updatedAt d).
Definition set_momoyu (f : Panel -> Panel) (d : Dom) : Dom :=
  mkDom (followOpml d) (f (momoyu d)) (updatedAt d).
Definition set_updatedAt (t : jsstring) (d : Dom) : Dom :=
  mkDom (followOpml d) (momoyu d) t.

Definition set_count (t : jsstring) (p : Panel) : Panel :=
  mkPanel t (panelList p).
Definition set_list (l : list Node) (p : Panel) : Panel :=
  mkPanel (panelCount p) l.

(** A render function works on its own panel of the page. *)
Definition onFollowOpml (m : M Panel unit) : M Env unit :=
  fun e => let (r, p) := m (followOpml (dom e)) in
           (r, with_dom (set_followOpml (fun _ => p)) e).

Definition onMomoyu (m : M Panel unit) : M Env unit :=
  fun e => let (r, p) := m (momoyu (dom e)) in
           (r, with_dom (set_momoyu (fun _ => p)) e).

Definition appendNode (n : Node) : M Panel unit :=
  modify (fun p => set_list (panelList p ++ [n]) p).

Section Platform.

Context {engine : Engine}.
Variable formatNumber : N -> jsstring.
Variable formatDateTime : jsstring -> option jsstring.

Definition fmtNumber (n : N) : jsstring := formatNumber n.

Definition fmtTime (iso : option jsstring) : jsstring :=
  match iso with
  | None => js "时间未知"
  | Some i =>
      if negb (truthy i) then js "时间未知"
      else match formatDateTime i with
           | None => js "时间未知"
           | Some t => t
           end
  end.

Definition renderItemNode (item : Item) : ItemNode :=
  let zh := trim (or_str (title_zh item) []) in
  let en := trim (or_str (title_en item) []) in
  mkItemNode
    (or_str (Some (site_name item)) (js "订阅"))
    (js "来源: " ++ or_str (source item) (js "未分区"))
    (fmtTime (or_opt (published_at item) (first_seen_at item)))
    (if truthy zh && truthy en && negb (str_eqb zh en)
     then Bilingual zh en
     else Plain (or_str (title item) (if truthy zh then zh else en)))
    (Some (or_str (url item) (js "#"))).

(** [renderSection], on the panel made of [listEl] and [countEl]. *)
Definition renderSection (items : list Item) (emptyText : jsstring)
           (p : Panel) : Panel :=
  mkPanel
    (fmtNumber (N.of_nat (length items)) ++ js " 条")
    (if (length items =? 0)%nat then [EmptyNote emptyText]
     else map (fun item => ItemRow (renderItemNode item)) items).

Definition groupItemCount (g : FollowGroup) : N :=
  N.of_nat (length (arr_or_empty (group_items g))).

(** The template literal of a section, the same for a subscription and for
    a ranked list: the name and the formatted count are interpolated as
    they are. *)
Definition sectionMarkup (name count : jsstring) : jsstring :=
  nl ++ js "      <header class=" ++ quot ++ js "momoyu-section-head"
     ++ quot ++ js ">" ++ nl
     ++ js "        <h3>" ++ name ++ js "</h3>" ++ nl
     ++ js "        <span>" ++ count ++ js " 条</span>" ++ nl
     ++ js "      </header>" ++ nl
     ++ js "      <div class=" ++ quot ++ js "momoyu-section-list" ++ quot
     ++ js "></div>" ++ nl
     ++ js "    ".

(** The section of one subscription, before it is appended to the panel. *)
Definition buildFeedNode (group : FollowGroup) : result FeedSection :=
  let feedName := or_str (group_source group) (js "未命名订阅") in
  let markup :=
    sectionMarkup feedName
      (fmtNumber (or_num (shown_count group) (groupItemCount group))) in
  let list :=
    querySelectorFinds (js "section") markup (js ".momoyu-section-list") in
  bind (mapM (fun item =>
                bind (appendChildOf list (js "list"))
                     (fun _ => Ok (renderItemNode item)))
             (arr_or_empty (group_items group)))
       (fun rows => Ok (mkFeedSection markup rows)).

Definition renderFollowOpmlGroups (s : State) : M Panel unit :=
  let groups := followOpmlGroups s in
  (modify (set_list []) ;;;
   if (length groups =? 0)%nat then
     modify (renderSection (followOpmlItems s) (js "暂无 follow.opml 数据。"))
   else
     let shownCount :=
       fold_left (fun acc g => (acc + groupItemCount g)%N) groups 0%N in
     modify (set_count
               (fmtNumber (N.of_nat (length groups)) ++ js " 个订阅 · "
                  ++ fmtNumber shownCount ++ js " 条")) ;;;
     forEach (fun group =>
                wrap <- liftR (buildFeedNode group) ;;
                appendNode (FeedNode wrap))
             groups)%js.

(** The template literal of a row of a ranked list. *)
Definition rowMarkup (rank title : jsstring) : jsstring :=
  nl ++ js "        <span class=" ++ quot ++ js "momoyu-rank" ++ quot
     ++ js ">" ++ rank ++ js "</span>" ++ nl
     ++ js "        <span class=" ++ quot ++ js "momoyu-title" ++ quot
     ++ js ">" ++ title ++ js "</span>" ++ nl
     ++ js "      ".

Definition renderMomoyuEntry (entry : MomoyuEntry) : MomoyuRow :=
  mkMomoyuRow
    (or_str (entry_url entry) (js "#"))
    (rowMarkup
       (match rank entry with Some r => decimal r | None => js "-" end)
       (or_str (entry_title entry) (js "无标题"))).

Definition buildMomoyuNode (sec : MomoyuSection) : result MomoyuSectionView :=
  let markup :=
    sectionMarkup (or_str (section sec) (js "未命名榜单"))
                  (fmtNumber (or_num (count sec) 0)) in
  let list :=
    querySelectorFinds (js "section") markup (js ".momoyu-section-list") in
  bind (mapM (fun entry =>
                let row := renderMomoyuEntry entry in
                bind (appendChildOf list (js "list")) (fun _ => Ok row))
             (arr_or_empty (entries sec)))
       (fun rows => Ok (mkMomoyuSectionView markup rows)).

Definition renderMomoyuParsed (s : State) : M Panel unit :=
  let sections :=
    match momoyuParsed s with
    | Some parsed => arr_or_empty (sections parsed)
    | None => []
    end in
  (modify (set_count
             (fmtNumber (N.of_nat (length sections)) ++ js " 个榜单")) ;;;
   modify (set_list []) ;;;
   if (length sections =? 0)%nat then
     modify (renderSection (momoyuItems s) (js "暂无 momoyu RSS 数据。"))
   else
     let meta :=
       match momoyuParsed s with
       | Some parsed =>
           if truthy_opt (item_title parsed) then
             or_str (item_title parsed) []
               ++ (if truthy_opt (pubDate parsed)
                   then js " · " ++ or_str (pubDate parsed) [] else js "")
           else js "momoyu 结构化热榜"
       | None => js "momoyu 结构化热榜"
       end in
     appendNode (MetaNote meta) ;;;
     forEach (fun sec =>
                wrap <- liftR (buildMomoyuNode sec) ;;
                appendNode (MomoyuNode wrap))
             sections)%js.

Definition applyPayload (payload : Snapshot) (s : State) : State :=
  mkState (arr_or_empty (follow_opml_items payload))
          (arr_or_empty (follow_opml_groups payload))
          (arr_or_empty (momoyu_items payload))
          (momoyu_parsed payload)
          (generated_at payload).

Definition init : M Env unit :=
  tryM
    (payload <- (fun e => let (r, n) := loadNewsData (net e) in
                          (r, with_net n e)) ;;
     modify (with_st (applyPayload payload)) ;;;
     s <- gets st ;;
     onFollowOpml (renderFollowOpmlGroups s) ;;;
     onMomoyu (renderMomoyuParsed s) ;;;
     modify (fun e =>
       with_dom (set_updatedAt
                   (js "更新时间：" ++ fmtTime (generatedAt (st e)))) e))%js
    (fun err =>
       (modify (with_dom (set_updatedAt (js "数据加载失败"))) ;;;
        modify (with_dom
                  (set_followOpml
                     (set_list [Markup (emptyMarkup (message err))]))) ;;;
        modify (with_dom
                  (set_momoyu
                     (set_list [Markup (emptyMarkup (message err))]))))%js).

End Platform.

(** The script from its first line: the state literal. *)
Definition boot (d : Dom) (n : Network) : Env := mkEnv state0 d n.

End Follow.

(* ================================================================= *)
(** ** The declarative variant *)
(* ================================================================= *)

Module VueApp.
Import JS Feed.

Record Data := mkData {
  followItems : list Item;
  followGroups : list FollowGroup;
  momoyuItems : list Item;
  momoyuParsed : option MomoyuParsed;
  generatedAt : option jsstring;
  loadError : jsstring
}.

Definition data0 : Data := mkData [] [] [] None None [].

Record Env := mkEnv {
  data : Data;
  net : Network
}.

(** *** methods *)

Definition pickTitle (item : Item) : jsstring :=
  or_str (or_opt (title item) (or_opt (title_zh item) (title_en item)))
         (js "无标题").

Definition hasBilingualTitle (item : Item) : bool :=
  let zh := trim (or_str (title_zh item) []) in
  let en := trim (or_str (title_en item) []) in
  truthy zh && truthy en && negb (str_eqb zh en).

Section Platform.

Variable formatNumber : N -> jsstring.
Variable formatDateTime : jsstring -> option jsstring.

Definition fmtNumber (n : N) : jsstring := formatNumber n.

Definition fmtTime (iso : option jsstring) : jsstring :=
  match iso with
  | None => js "时间未知"
  | Some i =>
      if negb (truthy i) then js "时间未知"
      else match formatDateTime i with
           | None => js "时间未知"
           | Some t => t
           end
  end.

(** *** computed *)

Definition momoyuSections (d : Data) : list MomoyuSection :=
  match momoyuParsed d with
  | Some parsed => arr_or_empty (sections parsed)
  | None => []
  end.

Definition hasMomoyuSections (d : Data) : bool :=
  (0 <? length (momoyuSections d))%nat.

Definition followCountText (d : Data) : jsstring :=
  if (0 <? length (followGroups d))%nat then
    let shownCount :=
      fold_left
        (fun acc g =>
           (acc + N.of_nat (length (arr_or_empty (group_items g))))%N)
        (followGroups d) 0%N in
    fmtNumber (N.of_nat (length (followGroups d))) ++ js " 个订阅 · "
      ++ fmtNumber shownCount ++ js " 条"
  else fmtNumber (N.of_nat (length (followItems d))) ++ js " 条".

Definition momoyuCountText (d : Data) : jsstring :=
  if hasMomoyuSections d then
    fmtNumber (N.of_nat (length (momoyuSections d))) ++ js " 个榜单"
  else fmtNumber (N.of_nat (length (momoyuItems d))) ++ js " 条".

Definition updatedLabel (d : Data) : jsstring :=
  if truthy (loadError d) then js "数据加载失败"
  else js "更新时间：" ++ fmtTime (generatedAt d).

Definition followEmptyText (d : Data) : jsstring :=
  or_str (Some (loadError d)) (js "暂无 follow.opml 数据。").

Definition momoyuEmptyText (d : Data) : jsstring :=
  or_str (Some (loadError d)) (js "暂无 momoyu RSS 数据。").

End Platform.

(** *** mounted *)

Definition applyPayload (payload : Snapshot) : Data :=
  mkData (arr_or_empty (follow_opml_items payload))
         (arr_or_empty (follow_opml_groups payload))
         (arr_or_empty (momoyu_items payload))
         (momoyu_parsed payload)
         (or_opt (generated_at payload) None)
         (js "").

Definition mounted : M Env unit :=
  tryM
    (payload <- (fun e => let (r, n) := loadNewsData (net e) in
                          (r, mkEnv (data e) n)) ;;
     modify (fun e => mkEnv (applyPayload payload) (net e)))%js
    (fun err =>
       modify (fun e =>
         mkEnv (mkData [] [] [] None None
                       (if truthy (message err) then message err
                        else js "数据加载失败"))
               (net e))).

End VueApp.

(* ================================================================= *)
(** ** The declarative variant with a group selector *)
(* ================================================================= *)

(** The second copy of the declarative script: the same data and methods,
    and a selector that shows one subscription and one ranked list at a
    time. *)
Module VueSelector.
Import JS Feed.

Record Data := mkData {
  followItems : list Item;
  followGroups : list FollowGroup;
  momoyuItems : list Item;
  momoyuParsed : option MomoyuParsed;
  selectedFollowGroupKey : jsstring;
  selectedMomoyuGroupKey : jsstring;
  generatedAt : option jsstring;
  loadError : jsstring
}.

Definition data0 : Data := mkData [] [] [] None [] [] None [].

Record Env := mkEnv {
  data : Data;
  net : Network
}.

Definition set_selectedFollowGroupKey (k : jsstring) (d : Data) : Data :=
  mkData (followItems d) (followGroups d) (momoyuItems d) (momoyuParsed d)
         k (selectedMomoyuGroupKey d) (generatedAt d) (loadError d).
Definition set_selectedMomoyuGroupKey (k : jsstring) (d : Data) : Data :=
  mkData (followItems d) (followGroups d) (momoyuItems d) (momoyuParsed d)
         (selectedFollowGroupKey d) k (generatedAt d) (loadError d).
Definition set_loadError (t : jsstring) (d : Data) : Data :=
  mkData (followItems d) (followGroups d) (momoyuItems d) (momoyuParsed d)
         (selectedFollowGroupKey d) (selectedMomoyuGroupKey d)
         (generatedAt d) t.

(** The entries of the two selectors. *)
Record MomoyuGroup := mkMomoyuGroup {
  mg_key : jsstring;
  mg_name : jsstring;
  mg_entries : list MomoyuEntry
}.

Record FollowSplitGroup := mkFollowSplitGroup {
  fg_key : jsstring;
  fg_name : jsstring;
  fg_items : list Item
}.

(** [arr.map((x, index) => f x index)]. *)
Fixpoint map_from {A B} (f : A -> nat -> B) (index : nat) (l : list A)
  : list B :=
  match l with
  | [] => []
  | x :: r => f x index :: map_from f (S index) r
  end.

Definition Array_map_indexed {A B} (f : A -> nat -> B) (l : list A)
  : list B := map_from f 0 l.

(** *** methods *)

Definition pickTitle (item : Item) : jsstring :=
  or_str (or_opt (title item) (or_opt (title_zh item) (title_en item)))
         (js "无标题").

Definition hasBilingualTitle (item : Item) : bool :=
  let zh := trim (or_str (title_zh item) []) in
  let en := trim (or_str (title_en item) []) in
  truthy zh && truthy en && negb (str_eqb zh en).

Section Platform.

(** Number formatting, and the two date formats of zh-CN: month, day, hour
    and minute for [fmtTime], month and day for [fmtDate] (neither has a
    result for an invalid date). *)
Variable formatNumber : N -> jsstring.
Variable formatDateTime : jsstring -> option jsstring.
Variable formatDate : jsstring -> option jsstring.

Definition fmtNumber (n : N) : jsstring := formatNumber n.

Definition fmtTime (iso : option jsstring) : jsstring :=
  match iso with
  | None => js "时间未知"
  | Some i =>
      if negb (truthy i) then js "时间未知"
      else match formatDateTime i with
           | None => js "时间未知"
           | Some t => t
           end
  end.

Definition fmtDate (iso : option jsstring) : jsstring :=
  match iso with
  | None => js "日期未知"
  | Some i =>
      if negb (truthy i) then js "日期未知"
      else match formatDate i with
           | None => js "日期未知"
           | Some t => t
           end
  end.

(** *** computed *)

Definition momoyuSections (d : Data) : list MomoyuSection :=
  match momoyuParsed d with
  | Some parsed => arr_or_empty (sections parsed)
  | None => []
  end.

Definition hasMomoyuSections (d : Data) : bool :=
  (0 <? length (momoyuSections d))%nat.

Definition momoyuSplitGroups (d : Data) : list MomoyuGroup :=
  Array_map_indexed
    (fun sec index =>
       mkMomoyuGroup (js "momoyu-" ++ decimal (N.of_nat index))
                     (or_str (section sec) (js "未命名榜单"))
                     (arr_or_empty (entries sec)))
    (momoyuSections d).

(** [groups.find(p) || groups[0]], or [null] when there is no group. *)
Definition activeMomoyuGroup (d : Data) : option MomoyuGroup :=
  match momoyuSplitGroups d with
  | [] => None
  | first :: _ =>
      match find (fun group =>
                    str_eqb (mg_key group) (selectedMomoyuGroupKey d))
                 (momoyuSplitGroups d) with
      | Some group => Some group
      | None => Some first
      end
  end.

Definition followSplitGroups (d : Data) : list FollowSplitGroup :=
  Array_map_indexed
    (fun group index =>
       mkFollowSplitGroup
         (or_str (or_opt (subscription_url group) (group_source group))
                 (js "follow")
            ++ js "::" ++ decimal (N.of_nat index))
         (or_str (group_source group) (js "未命名订阅"))
         (arr_or_empty (group_items group)))
    (followGroups d).

Definition activeFollowGroup (d : Data) : option FollowSplitGroup :=
  match followSplitGroups d with
  | [] => None
  | first :: _ =>
      match find (fun group =>
                    str_eqb (fg_key group) (selectedFollowGroupKey d))
                 (followSplitGroups d) with
      | Some group => Some group
      | None => Some first
      end
  end.

Definition followCountText (d : Data) : jsstring :=
  if (0 <? length (followGroups d))%nat then
    let shownCount :=
      fold_left
        (fun acc g =>
           (acc + N.of_nat (length (arr_or_empty (group_items g))))%N)
        (followGroups d) 0%N in
    fmtNumber (N.of_nat (length (followGroups d))) ++ js " 个订阅 · "
      ++ fmtNumber shownCount ++ js " 条"
  else fmtNumber (N.of_nat (length (followItems d))) ++ js " 条".

Definition momoyuCountText (d : Data) : jsstring :=
  if hasMomoyuSections d then
    fmtNumber (N.of_nat (length (momoyuSections d))) ++ js " 个榜单"
  else fmtNumber (N.of_nat (length (momoyuItems d))) ++ js " 条".

Definition updatedLabel (d : Data) : jsstring :=
  if truthy (loadError d) then js "数据加载失败"
  else js "更新时间：" ++ fmtTime (generatedAt d).

Definition followEmptyText (d : Data) : jsstring :=
  or_str (Some (loadError d)) (js "暂无 follow.opml 数据。").

Definition momoyuEmptyText (d : Data) : jsstring :=
  or_str (Some (loadError d)) (js "暂无 momoyu RSS 数据。").

End Platform.

(** [syncSelectedGroups]: a selected key that no group carries is replaced
    by the key of the first group, or by the empty string when there is
    none. *)
Definition syncSelectedGroups (d : Data) : Data :=
  let d1 :=
    match momoyuSplitGroups d with
    | first :: _ =>
        let exists_ :=
          existsb (fun group =>
                     str_eqb (mg_key group) (selectedMomoyuGroupKey d))
                  (momoyuSplitGroups d) in
        if negb exists_ then set_selectedMomoyuGroupKey (mg_key first) d
        else d
    | [] => set_selectedMomoyuGroupKey (js "") d
    end in
  match followSplitGroups d1 with
  | first :: _ =>
      let exists_ :=
        existsb (fun group =>
                   str_eqb (fg_key group) (selectedFollowGroupKey d1))
                (followSplitGroups d1) in
      if negb exists_ then set_selectedFollowGroupKey (fg_key first) d1
      else d1
  | [] => set_selectedFollowGroupKey (js "") d1
  end.

(** *** mounted *)

Definition applyPayload (payload : Snapshot) (d : Data) : Data :=
  mkData (arr_or_empty (follow_opml_items payload))
         (arr_or_empty (follow_opml_groups payload))
         (arr_or_empty (momoyu_items payload))
         (momoyu_parsed payload)
         (selectedFollowGroupKey d) (selectedMomoyuGroupKey d)
         (or_opt (generated_at payload) None)
         (loadError d).

Definition mounted : M Env unit :=
  tryM
    (payload <- (fun e => let (r, n) := loadNewsData (net e) in
                          (r, mkEnv (data e) n)) ;;
     modify (fun e =>
       mkEnv (set_loadError (js "")
                (syncSelectedGroups (applyPayload payload (data e))))
             (net e)))%js
    (fun err =>
       modify (fun e =>
         mkEnv (mkData [] [] [] None (js "") (js "") None
                       (if truthy (message err) then message err
                        else js "数据加载失败"))
               (net e))).

End VueSelector.


(* ================================================================= *)
(** ** A reference platform, for running the model on concrete inputs *)
(* ================================================================= *)

(** JSON text: objects, arrays, strings with their escapes, integers (no
    fraction or exponent), [true], [false], [null].  On such text [parse]
    gives what JSON.parse gives; any other text is a SyntaxError here.
    [stringify] writes a hole of an array as [null]. *)
Module JSONLite.
Import JS.

Definition hexLower (d : N) : N := (if d <? 10 then 48 + d else 87 + d)%N.

Definition unicodeEscape (c : N) : jsstring :=
  ([92; 117; hexLower (c / 4096); hexLower ((c / 256) mod 16);
    hexLower ((c / 16) mod 16); hexLower (c mod 16)])%N.

Fixpoint quoteBody (s : jsstring) : jsstring :=
  match s with
  | [] => []
  | c :: r =>
    if (c =? 34)%N then js "\" ++ [c] ++ quoteBody r
    else if (c =? 92)%N then js "\\" ++ quoteBody r
    else if (c =? 8)%N then js "\b" ++ quoteBody r
    else if (c =? 9)%N then js "\t" ++ quoteBody r
    else if (c =? 10)%N then js "\n" ++ quoteBody r
    else if (c =? 12)%N then js "\f" ++ quoteBody r
    else if (c =? 13)%N then js "\r" ++ quoteBody r
    else if (c <? 32)%N then unicodeEscape c ++ quoteBody r
    else if isHighSurrogate c then
      match r with
      | d :: r' =>
          if isLowSurrogate d then c :: d :: quoteBody r'
          else unicodeEscape c ++ quoteBody r
      | [] => unicodeEscape c
      end
    else if isLowSurrogate c then unicodeEscape c ++ quoteBody r
    else c :: quoteBody r
  end.

Definition quote (s : jsstring) : jsstring := [34%N] ++ quoteBody s ++ [34%N].

Definition integerText (z : Z) : jsstring :=
  (if (z <? 0)%Z then js "-" else []) ++ decimal (Z.abs_N z).

Fixpoint stringify (v : jsval) : jsstring :=
  match v with
  | JNull => js "null"
  | JBool b => if b then js "true" else js "false"
  | JNumber z => integerText z
  | JString s => quote s
  | JArray elems _ =>
      js "["
        ++ join (js ",")
             (map (fun o => match o with
                            | Some x => stringify x
                            | None => js "null"
                            end) elems)
        ++ js "]"
  | JObject props =>
      js "{"
        ++ join (js ",")
             (map (fun p => match p with
                            | (k, x) => quote k ++ js ":" ++ stringify x
                            end) props)
        ++ js "}"
  end.

Fixpoint skipWs (s : jsstring) : jsstring :=
  match s with
  | c :: r =>
      if ((c =? 32) || (c =? 9) || (c =? 10) || (c =? 13))%N then skipWs r
      else s
  | [] => []
  end.

Definition unhex (c : N) : option N :=
  (if (48 <=? c) && (c <=? 57) then Some (c - 48)
   else if (97 <=? c) && (c <=? 102) then Some (c - 87)
   else if (65 <=? c) && (c <=? 70) then Some (c - 55)
   else None)%N.

Definition unescape (c : N) : option N :=
  (if c =? 34 then Some 34 else if c =? 92 then Some 92
   else if c =? 47 then Some 47 else if c =? 98 then Some 8
   else if c =? 102 then Some 12 else if c =? 110 then Some 10
   else if c =? 114 then Some 13 else if c =? 116 then Some 9
   else None)%N.

Definition consFst (c : N) (o : option (jsstring * jsstring))
  : option (jsstring * jsstring) :=
  match o with Some (t, rest) => Some (c :: t, rest) | None => None end.

(** The characters of a string after its opening quote, and what follows
    the closing one. *)
Fixpoint parseStringBody (s : jsstring) : option (jsstring * jsstring) :=
  match s with
  | [] => None
  | c :: r =>
    if (c =? 34)%N then Some ([], r)
    else if (c =? 92)%N then
      match r with
      | e :: r1 =>
        if (e =? 117)%N then
          match r1 with
          | h1 :: h2 :: h3 :: h4 :: r2 =>
            match unhex h1, unhex h2, unhex h3, unhex h4 with
            | Some a, Some b, Some c', Some d =>
                consFst (a * 4096 + b * 256 + c' * 16 + d)%N
                        (parseStringBody r2)
            | _, _, _, _ => None
            end
          | _ => None
          end
        else
          match unescape e with
          | Some x => consFst x (parseStringBody r1)
          | None => None
          end
      | [] => None
      end
    else if (c <? 32)%N then None
    else consFst c (parseStringBody r)
  end.

Fixpoint parseDigits (acc : N) (s : jsstring) : N * jsstring :=
  match s with
  | c :: r =>
      if ((48 <=? c) && (c <=? 57))%N then parseDigits (acc * 10 + (c - 48))%N r
      else (acc, s)
  | [] => (acc, [])
  end.

Definition isDigit (c : N) : bool := ((48 <=? c) && (c <=? 57))%N.

Definition parseNatural (s : jsstring) : option (N * jsstring) :=
  match s with
  | c :: r =>
      if negb (isDigit c) then None
      else
        let (n, rest) := parseDigits 0 s in
        let leadingZero :=
          (c =? 48)%N && match r with d :: _ => isDigit d | [] => false end in
        let unsupported :=
          match rest with
          | d :: _ => ((d =? 46) || (d =? 101) || (d =? 69))%N
          | [] => false
          end in
        if leadingZero || unsupported then None else Some (n, rest)
  | [] => None
  end.

Section WithValue.
Variable parseValue : jsstring -> option (jsval * jsstring).

(** The elements after [[] or a comma, up to the closing bracket. *)
Fixpoint parseElems (n : nat) (acc : list (option jsval)) (s : jsstring)
  : option (list (option jsval) * jsstring) :=
  match n with
  | O => None
  | S n' =>
    match parseValue s with
    | Some (v, rest) =>
      match skipWs rest with
      | c :: r =>
          if (c =? 44)%N then parseElems n' (acc ++ [Some v]) r
          else if (c =? 93)%N then Some (acc ++ [Some v], r)
          else None
      | [] => None
      end
    | None => None
    end
  end.

(** The members after [{] or a comma, up to the closing brace; a repeated
    name keeps its place and takes the later value. *)
Fixpoint parseMembers (n : nat) (acc : list (jsstring * jsval)) (s : jsstring)
  : option (list (jsstring * jsval) * jsstring) :=
  match n with
  | O => None
  | S n' =>
    match skipWs s with
    | q :: r0 =>
      if negb (q =? 34)%N then None
      else
        match parseStringBody r0 with
        | Some (k, r1) =>
          match skipWs r1 with
          | colon :: r2 =>
            if negb (colon =? 58)%N then None
            else
              match parseValue r2 with
              | Some (v, rest) =>
                let acc' := Map_set str_eqb k v acc in
                match skipWs rest with
                | c :: r =>
                    if (c =? 44)%N then parseMembers n' acc' r
                    else if (c =? 125)%N then Some (acc', r)
                    else None
                | [] => None
                end
              | None => None
              end
          | [] => None
          end
        | None => None
        end
    | [] => None
    end
  end.
End WithValue.

Fixpoint parseValue (fuel : nat) (s : jsstring) : option (jsval * jsstring) :=
  match fuel with
  | O => None
  | S f =>
    match skipWs s with
    | [] => None
    | c :: r =>
      if (c =? 123)%N then
        match skipWs r with
        | d :: r' =>
            if (d =? 125)%N then Some (JObject [], r')
            else match parseMembers (parseValue f) (length r) [] r with
                 | Some (props, rest) => Some (JObject props, rest)
                 | None => None
                 end
        | [] => None
        end
      else if (c =? 91)%N then
        match skipWs r with
        | d :: r' =>
            if (d =? 93)%N then Some (JArray [] [], r')
            else match parseElems (parseValue f) (length r) [] r with
                 | Some (elems, rest) => Some (JArray elems [], rest)
                 | None => None
                 end
        | [] => None
        end
      else if (c =? 34)%N then
        match parseStringBody r with
        | Some (t, rest) => Some (JString t, rest)
        | None => None
        end
      else if startsWith (c :: r) (js "true") then Some (JBool true, skipn 3 r)
      else if startsWith (c :: r) (js "false") then Some (JBool false, skipn 4 r)
      else if startsWith (c :: r) (js "null") then Some (JNull, skipn 3 r)
      else if (c =? 45)%N then
        match parseNatural r with
        | Some (n, rest) => Some (JNumber (- Z.of_N n), rest)
        | None => None
        end
      else
        match parseNatural (c :: r) with
        | Some (n, rest) => Some (JNumber (Z.of_N n), rest)
        | None => None
        end
    end
  end.

(** [JSON.stringify] of such values never throws. *)
Definition JSON_stringify (v : jsval) : result jsstring := Ok (stringify v).

Definition syntaxError : exn := mkExn SyntaxError (js "Unexpected token").

Definition parse (s : jsstring) : result jsval :=
  match parseValue (S (length s)) s with
  | Some (v, rest) =>
      match skipWs rest with
      | [] => Ok v
      | _ => Throw syntaxError
      end
  | None => Throw syntaxError
  end.

End JSONLite.

Module Sample.
Import JS Feed.

(** Collation by code units, plain decimal counts, dates shown as given. *)
Definition collationKey (s : jsstring) : list N := s.
Definition formatNumber (n : N) : jsstring := decimal n.
Definition formatDateTime (iso : jsstring) : option jsstring := Some iso.

(** An engine for the examples, whose texts are Basic Latin, Latin-1 or
    caseless: capitals of Basic Latin and Latin-1 are lowered code unit by
    code unit; the container of a template is found unless the text
    interpolated before it opens a [textarea], which takes the rest of the
    markup as its text (the one markup the examples interpolate); and the
    errors are worded as V8 words them. *)
Definition lowerUnit (c : N) : N :=
  (if ((65 <=? c) && (c <=? 90))
      || ((192 <=? c) && (c <=? 222) && negb (c =? 215))
   then c + 32 else c)%N.

Definition nullMessage (a : Access) (base k : jsstring) : jsstring :=
  match a with
  | Reading =>
      js "Cannot read properties of null (reading '" ++ k ++ js "')"
  | Setting =>
      js "Cannot set properties of null (setting '" ++ k ++ js "')"
  end.

Definition findsContainer (tag markup selector : jsstring) : bool :=
  negb (includes markup (js "<textarea")).

Definition engine : Engine :=
  mkEngine (map lowerUnit) eq_refl findsContainer nullMessage.

Definition item (t zh en : option jsstring) (site name : jsstring)
           (src : option jsstring) : Item :=
  mkItem t zh en site name src None None None.

Definition itemA : Item :=
  item (Some (js "Alpha model released")) None None (js "X") (js "Site X")
       (Some (js "news")).
Definition itemB : Item :=
  item (Some (js "Beta weights")) None None (js "Y") (js "Site Y")
       (Some (js "blog")).
Definition itemC : Item :=
  item (Some (js "Gamma paper")) None None (js "X") (js "Site X")
       (Some (js "blog")).

Definition itemAcross : Item :=
  item (Some (js "alpha")) (Some (js "beta")) None (js "s1") (js "Site")
       (Some (js "feed")).

Definition itemBilingual : Item :=
  item (Some (js "Launch")) (Some (js "发布")) (Some (js "Release"))
       (js "s1") (js "Site") (Some (js "feed")).

Definition itemOnlyEnglish : Item :=
  item None (Some (js "  ")) (Some (js " Release ")) (js "s1") (js "Site")
       (Some (js "feed")).

(** States of the main page. *)
Definition stateBlankQuery : Radar.State :=
  Radar.mkState [itemA; itemB] [itemC] [] 2 0 1 [] true [] (js "  ")
                Radar.ModeAi None (JObject []).

Definition stateSiteX : Radar.State :=
  Radar.mkState [itemA; itemB; itemC] [] [] 3 0 0 [] true (js "X") []
                Radar.ModeAi None (JObject []).

Definition stateAcross : Radar.State :=
  Radar.mkState [itemAcross] [] [] 1 0 0 [] true [] (js "Alpha Beta")
                Radar.ModeAi None (JObject []).

(** Stores, networks and pages. *)
Definition emptyStorage : Storage := mkStorage false 4096 [].

Definition emptySnapshot : Snapshot :=
  mkSnapshot None None None None None None None None None None None None.

Definition twoSiteSnapshot : Snapshot :=
  mkSnapshot (Some [itemA; itemB]) None None None None None None None None
             None None (Some (js "2026-01-01T00:00:00Z")).

Definition okButUnparsable : Response :=
  mkResponse 200 (Throw JSONLite.syntaxError).

Definition serverError : Response := mkResponse 500 (Ok emptySnapshot).

Definition idleNet : Network := mkNetwork 1700000000000 [] [].

Definition netUnparsable : Network :=
  mkNetwork 1700000000000 [Ok okButUnparsable] [].

Definition netServerError : Network :=
  mkNetwork 1700000000000 [Ok serverError] [].

Definition netTwoSites : Network :=
  mkNetwork 1700000000000 [Ok (mkResponse 200 (Ok twoSiteSnapshot))] [].

Definition blankDom : Radar.Dom :=
  Radar.mkDom [] [] [] (Radar.mkFollowView [] [])
              (Radar.mkModeSwitchView false false false false [] [])
              (Radar.mkSiteFiltersView [] [] []).

Definition radarEnv (n : Network) : Radar.Env :=
  Radar.boot blankDom emptyStorage n.

Definition freshEnv : Radar.Env := radarEnv idleNet.

(** A store whose saved blob is an array. *)
Definition envArrayBlob : Radar.Env :=
  Radar.mkEnv Radar.state0 blankDom
              (mkStorage false 4096 [(Radar.ACCORDION_STORAGE_KEY, js "[]")])
              idleNet.

Definition panelId : jsstring := js "site|X".

Definition followDom : Follow.Dom :=
  Follow.mkDom (Follow.mkPanel [] []) (Follow.mkPanel [] []) [].

Definition followEnv (n : Network) : Follow.Env := Follow.boot followDom n.


(** The main page after start-up on a snapshot of two items. *)
Definition loaded : Radar.Env :=
  snd (Radar.init (engine := engine) collationKey formatNumber formatDateTime
                  JSONLite.parse (radarEnv netTwoSites)).

(** Markup (or text) and accordion id of each rendered node. *)
Definition headings (nodes : list Radar.NewsNode)
  : list (jsstring * jsstring) :=
  map (fun n =>
         match n with
         | Radar.SiteNode s => (Radar.site_markup s, Radar.site_acc_id s)
         | Radar.SourceNode s => (Radar.src_markup s, Radar.src_id s)
         | Radar.EmptyNote t => (t, [])
         | Radar.Markup m => (m, [])
         end)
      nodes.

End Sample.

(* ================================================================= *)
(** ** Further sample data *)
(* ================================================================= *)

Module Cases.
Import JS Feed Sample.

(** An item whose source holds an unpaired surrogate. *)
Definition itemLone : Item :=
  item (Some (js "Delta")) None None (js "X") (js "Site X")
       (Some [0xD800%N]).

Definition dataEnv (s : Radar.State) : Radar.Env :=
  Radar.mkEnv s blankDom emptyStorage idleNet.

Definition stateThree : Radar.State :=
  Radar.mkState [itemA; itemB; itemC] [itemC] [itemC; itemC] 3 0 0 [] true
                [] [] Radar.ModeAi None (JObject []).

Definition stateLone : Radar.State :=
  Radar.mkState [itemA; itemLone] [] [] 2 0 0 [] true [] [] Radar.ModeAi None
                (JObject []).

(** The saved flags say that the panel of site X is open. *)
Definition stateOpenX : Radar.State :=
  Radar.mkState [itemA; itemB; itemC] [] [] 3 0 0 [] true [] [] Radar.ModeAi
                None (JObject [(js "site|X", JBool true)]).

(** A snapshot with two subscriptions and a ranked list. *)
Definition groupOne : FollowGroup :=
  mkFollowGroup (Some (js "Feed One")) (Some (js "https://one.example/rss"))
                (Some [itemA; itemC]) (Some 5%N).

Definition groupTwo : FollowGroup :=
  mkFollowGroup None None (Some [itemB]) None.

Definition rankedList : MomoyuParsed :=
  mkMomoyuParsed (Some (js "Hot")) None
    (Some [mkMomoyuSection (Some (js "Tech")) (Some 1%N)
             (Some [mkMomoyuEntry (Some 1%N) (Some (js "First")) None])]).

Definition followSnapshot : Snapshot :=
  mkSnapshot None None None None None None None (Some [itemA; itemB; itemC])
             (Some [groupOne; groupTwo]) (Some [itemB]) (Some rankedList)
             (Some (js "2026-01-01T00:00:00Z")).

Definition netFollow : Network :=
  mkNetwork 1700000000000 [Ok (mkResponse 200 (Ok followSnapshot))] [].

Definition followState : Follow.State :=
  Follow.mkState [itemA; itemB; itemC] [groupOne; groupTwo] [itemB]
                 (Some rankedList) None.

Definition vueData : VueApp.Data :=
  VueApp.mkData [itemA; itemB; itemC] [groupOne; groupTwo] [itemB]
                (Some rankedList) None [].

Definition selectorData : VueSelector.Data :=
  VueSelector.mkData [itemA; itemB; itemC] [groupOne; groupTwo] [itemB]
                     (Some rankedList) (js "follow::1") (js "gone") None [].

Definition selectorEnv (n : Network) : VueSelector.Env :=
  VueSelector.mkEnv VueSelector.data0 n.

Definition emptyPanel : Follow.Panel := Follow.mkPanel [] [].

(** A payload with the plain item list only, and no totals. *)
Definition itemsOnlySnapshot : Snapshot :=
  mkSnapshot None (Some [itemA; itemB; itemC]) None None None None None None
             None None None None.

End Cases.


(* ================================================================= *)
(** ** The vocabulary of the properties *)
(* ================================================================= *)

Module Spec.
Import JS Feed Radar.

(** [q] occurs in [h]. *)
Definition Substring (q h : jsstring) : Prop :=
  exists pre post, h = pre ++ q ++ post.

(** *** Searching *)

(** The search criterion read field by field: the query occurs, without
    regard to case, inside one of the five fields. *)
Definition fieldHas {engine : Engine} (q : jsstring) (f : option jsstring)
  : bool :=
  includes (toLowerCase (or_str f [])) (toLowerCase q).

Definition perFieldMatch {engine : Engine} (q : jsstring) (item : Item)
  : bool :=
  fieldHas q (title item) || fieldHas q (title_zh item)
  || fieldHas q (title_en item) || fieldHas q (Some (site_name item))
  || fieldHas q (source item).

(** *** Titles *)

(** The resolution read as a plain preference order: [title], else
    [title_zh], else [title_en]. *)
Definition preferredTitle (item : Item) : jsstring :=
  or_str (title item) (or_str (title_zh item) (or_str (title_en item) [])).

(** *** Sorting *)

Section Comparators.
Context {A : Type} (cmp : A -> A -> Z).

(** [a] is not after [b]; [x] and [y] tie. *)
Definition notAfter (a b : A) : Prop := (cmp a b <= 0)%Z.
Definition ties (x y : A) : bool := (cmp x y =? 0)%Z.
End Comparators.

Section Ranking.
Variable collationKey : jsstring -> list N.

(** [a] may stand before [b]: it has more items, or as many and a name that
    does not collate after. *)
Definition ranksBefore {G} (cnt : G -> Z) (name : G -> jsstring) (a b : G)
  : Prop :=
  (cnt b < cnt a)%Z
  \/ (cnt a = cnt b /\ (localeCompare collationKey (name a) (name b) <= 0)%Z).

(** [a] and [b] tie: as many items, and names that collate equal. *)
Definition tiedWith {G} (cnt : G -> Z) (name : G -> jsstring) (a b : G)
  : bool :=
  (cnt a =? cnt b)%Z && (localeCompare collationKey (name a) (name b) =? 0)%Z.

(** The comparator the three sorts share. *)
Definition countThenName {G} (cnt : G -> Z) (name : G -> jsstring) (a b : G)
  : Z :=
  let d := (cnt b - cnt a)%Z in
  if (d =? 0)%Z then localeCompare collationKey (name a) (name b) else d.
End Ranking.

Definition statCount (r : SiteStat) : Z := Z.of_N (stat_count r).
Definition sourceCount (g : jsstring * list Item) : Z :=
  Z.of_nat (length (snd g)).
Definition siteCount (g : jsstring * SiteEntry) : Z :=
  Z.of_nat (length (siteItems (snd g))).
Definition siteLabel (g : jsstring * SiteEntry) : jsstring := siteName (snd g).

(** *** Grouping

    [computeSiteStats], [groupBySource] and the site map of
    [renderGroupedBySiteAndSource] run the same loop: create the entry of
    the item's key when the map has none, then update the entry in place. *)

Section GroupLoop.
Context {A V : Type} (key : A -> jsstring) (init : A -> V) (push : A -> V -> V).

Definition group_step (m : list (jsstring * V)) (it : A) : list (jsstring * V) :=
  let m1 := if negb (Map_has str_eqb (key it) m)
            then Map_set str_eqb (key it) (init it) m else m in
  Map_mutate str_eqb (key it) (push it) m1.

Definition hasKey (k : jsstring) (it : A) : bool := str_eqb (key it) k.

(** Keys in the order of their first occurrence. *)
Definition noteKey (ks : list jsstring) (k : jsstring) : list jsstring :=
  if existsb (str_eqb k) ks then ks else ks ++ [k].

Definition firstSeen (ks : list jsstring) : list jsstring :=
  fold_left noteKey ks [].

(** The map groups the items: distinct keys, each entry related by [R] to
    the items of its key in their order, no entry without items, every
    item's key present. *)
Definition grouped (R : jsstring -> V -> list A -> Prop)
           (m : list (jsstring * V)) (items : list A) : Prop :=
  NoDup (map fst m)
  /\ (forall k v, In (k, v) m ->
        R k v (filter (hasKey k) items) /\ filter (hasKey k) items <> [])
  /\ (forall it, In it items -> In (key it) (map fst m)).
End GroupLoop.

(** What an entry of each of the three maps records of its items. *)
Definition sourceEntry (k : jsstring) (v : list Item) (l : list Item) : Prop :=
  v = l.

Definition siteEntry (k : jsstring) (v : SiteEntry) (l : list Item) : Prop :=
  siteItems v = l
  /\ exists first rest,
       l = first :: rest
       /\ siteName v = or_str (Some (site_name first)) (site_id first).

Definition statEntry (k : jsstring) (row : SiteStat) (l : list Item) : Prop :=
  stat_site_id row = k
  /\ stat_count row = N.of_nat (length l)
  /\ stat_raw_count row = N.of_nat (length l)
  /\ exists first rest, l = first :: rest /\ stat_site_name row = site_name first.

(** *** Persistence *)

Definition isPlainObject (v : jsval) : bool :=
  match v with JObject _ => true | _ => false end.

(** What [readAccordionState] makes of a store. *)
Definition storedAccordion (JSON_parse : jsstring -> result jsval)
           (s : Storage) : jsval :=
  match getItem ACCORDION_STORAGE_KEY s with
  | Ok (Some raw) =>
      if truthy raw then
        match JSON_parse raw with
        | Ok parsed =>
            if jv_truthy parsed && typeof_object parsed then parsed
            else JObject []
        | Throw _ => JObject []
        end
      else JObject []
  | _ => JObject []
  end.

(** *** Reading an encoded id back *)

Definition unhexDigit (c : N) : N := (if c <? 58 then c - 48 else c - 55)%N.

(** The octets behind the percent-escapes of a text. *)
Fixpoint unpct (s : jsstring) : list N :=
  match s with
  | [] => []
  | c :: r =>
     if (c =? 37)%N then
       match r with
       | h :: l :: r' => (unhexDigit h * 16 + unhexDigit l)%N :: unpct r'
       | _ => []
       end
     else c :: unpct r
  end.

End Spec.

(* ================================================================= *)
(** ** What a rendered page shows *)
(* ================================================================= *)

Module Views.
Import JS Feed.

(** A string [encodeURIComponent] accepts: code units, every surrogate in a
    pair. *)
Fixpoint wellFormed (s : jsstring) : bool :=
  match s with
  | [] => true
  | c :: rest =>
      if isHighSurrogate c then
        match rest with
        | d :: rest' => isLowSurrogate d && wellFormed rest'
        | [] => false
        end
      else negb (isLowSurrogate c) && (c <? 0x10000)%N && wellFormed rest
  end.

Section WithEngine.
Context {engine : Engine}.

(** The accordion panels of the news list, outermost first: each with its
    id and whether it is open. *)
Definition sourcePanel (s : Radar.SourceSection) : jsstring * bool :=
  (Radar.src_id s, Radar.src_open s).

Definition panelsOf (n : Radar.NewsNode) : list (jsstring * bool) :=
  match n with
  | Radar.EmptyNote _ => []
  | Radar.SourceNode s => [sourcePanel s]
  | Radar.SiteNode s =>
      (Radar.site_acc_id s, Radar.site_open s)
        :: map sourcePanel (Radar.site_sources s)
  | Radar.Markup _ => []
  end.

Definition panels (nodes : list Radar.NewsNode) : list (jsstring * bool) :=
  flat_map panelsOf nodes.

(** The item rows the script appended to the news list, in the order of
    the page. *)
Definition rowsOf (n : Radar.NewsNode) : list ItemNode :=
  match n with
  | Radar.EmptyNote _ => []
  | Radar.SourceNode s => Radar.src_items s
  | Radar.SiteNode s => flat_map Radar.src_items (Radar.site_sources s)
  | Radar.Markup _ => []
  end.

Definition rows (nodes : list Radar.NewsNode) : list ItemNode :=
  flat_map rowsOf nodes.

(** The flag saved for a panel: [true] only for an own boolean [true]. *)
Definition savedOpen (a : jsval) (id : jsstring) : bool :=
  match getProp a id with
  | Ok (Some (JBool b)) => b
  | _ => false
  end.

(** Whether the list container of a panel is found in the markup the
    panel is given: of the source panel of a group, and of the site panel
    of a site. *)
Definition sourceListFound (formatNumber : N -> jsstring)
           (g : jsstring * list Item) : bool :=
  querySelectorFinds
    (js "details")
    (Radar.sourceGroupMarkup (fst g) (formatNumber (N.of_nat (length (snd g)))))
    (js ".source-group-list").

Definition siteListFound (formatNumber : N -> jsstring)
           (g : jsstring * Radar.SiteEntry) : bool :=
  querySelectorFinds
    (js "details")
    (Radar.siteGroupMarkup
       (Radar.siteName (snd g))
       (formatNumber (N.of_nat (length (Radar.siteItems (snd g))))))
    (js ".site-group-list").

(** What a source panel shows of a group of items, under the context
    [ctx] of its id; and what a site panel shows of a site. *)
Definition showsSource (formatNumber : N -> jsstring)
           (formatDateTime : jsstring -> option jsstring)
           (s : Radar.State) (ctx : jsstring) (g : jsstring * list Item)
           (sec : Radar.SourceSection) : Prop :=
  Radar.makeAccordionId [Some (js "source"); Some ctx; Some (fst g)]
  = Ok (Radar.src_id sec)
  /\ Radar.src_markup sec
     = Radar.sourceGroupMarkup (fst g)
                               (formatNumber (N.of_nat (length (snd g))))
  /\ Radar.src_open sec
     = savedOpen (Radar.accordionState s) (Radar.src_id sec)
  /\ Radar.src_items sec = map (Radar.renderItemNode formatDateTime) (snd g).

Definition showsSite (collationKey : jsstring -> list N)
           (formatNumber : N -> jsstring)
           (formatDateTime : jsstring -> option jsstring)
           (s : Radar.State) (g : jsstring * Radar.SiteEntry)
           (sec : Radar.SiteSection) : Prop :=
  Radar.makeAccordionId [Some (js "site"); Some (fst g)]
  = Ok (Radar.site_acc_id sec)
  /\ Radar.site_markup sec
     = Radar.siteGroupMarkup
         (Radar.siteName (snd g))
         (formatNumber (N.of_nat (length (Radar.siteItems (snd g)))))
  /\ Radar.site_open sec
     = savedOpen (Radar.accordionState s) (Radar.site_acc_id sec)
  /\ Forall2 (showsSource formatNumber formatDateTime s
                          (js "site:" ++ fst g))
             (Radar.groupBySource collationKey (Radar.siteItems (snd g)))
             (Radar.site_sources sec).

(** Every panel that the list of the filtered items is made of finds its
    list container: the source panels under a site filter; without one, the
    site panels and the source panels inside them. *)
Definition containersFound (collationKey : jsstring -> list N)
           (formatNumber : N -> jsstring) (siteFilter : jsstring)
           (filtered : list Item) : Prop :=
  if truthy siteFilter then
    forall g, In g (Radar.groupBySource collationKey filtered) ->
              sourceListFound formatNumber g = true
  else
    forall g,
      In g (Radar.renderGroupedBySiteAndSource_sites collationKey filtered) ->
      siteListFound formatNumber g = true
      /\ forall sg,
           In sg (Radar.groupBySource collationKey
                                      (Radar.siteItems (snd g))) ->
           sourceListFound formatNumber sg = true.

(** The exceptions a panel can raise: the URIError of a malformed part of
    its id, the TypeError of reading the flag of a [null] accordion state,
    and the TypeError of appending to a list container that was not
    found. *)
Definition panelError (s : Radar.State) (x : exn) : Prop :=
  x = uriMalformed
  \/ (Radar.accordionState s = JNull
      /\ exists id, x = nullAccess Reading (js "state.accordionState") id)
  \/ (exists base, x = nullAccess Reading base (js "appendChild")).

(** The parts the ids of the panels are made from: of a source panel
    under a context, and of a site panel with the source panels nested in
    it; and the site id that such parts name. *)
Definition sourceParts (ctx : jsstring) (g : jsstring * list Item)
  : list jsstring :=
  [js "source"; ctx; fst g].

Definition siteParts (collationKey : jsstring -> list N)
           (g : jsstring * Radar.SiteEntry) : list (list jsstring) :=
  [js "site"; fst g]
    :: map (sourceParts (js "site:" ++ fst g))
           (Radar.groupBySource collationKey (Radar.siteItems (snd g))).

Definition partsSite (parts : list jsstring) : jsstring :=
  match parts with
  | [_; siteId] => siteId
  | [_; ctx; _] => skipn 5 ctx
  | _ => []
  end.

(** Whether the list container of a section of the subscription page is
    found in the markup the section is given: of a subscription, and of a
    ranked list. *)
Definition feedListFound (formatNumber : N -> jsstring) (g : FollowGroup)
  : bool :=
  querySelectorFinds
    (js "section")
    (Follow.sectionMarkup
       (or_str (group_source g) (js "未命名订阅"))
       (Follow.fmtNumber formatNumber
          (or_num (shown_count g) (Follow.groupItemCount g))))
    (js ".momoyu-section-list").

Definition rankedListFound (formatNumber : N -> jsstring)
           (sec : MomoyuSection) : bool :=
  querySelectorFinds
    (js "section")
    (Follow.sectionMarkup
       (or_str (section sec) (js "未命名榜单"))
       (Follow.fmtNumber formatNumber (or_num (count sec) 0)))
    (js ".momoyu-section-list").

(** The item rows of a panel of the subscription page. *)
Definition followRowsOf (n : Follow.Node) : list ItemNode :=
  match n with
  | Follow.ItemRow r => [r]
  | Follow.FeedNode f => Follow.feed_items f
  | _ => []
  end.

Definition followRows (nodes : list Follow.Node) : list ItemNode :=
  flat_map followRowsOf nodes.

(** Two states hold the same data of a snapshot: arrays, totals and
    generation time. *)
Definition sameData (s s' : Radar.State) : Prop :=
  Radar.itemsAi s' = Radar.itemsAi s
  /\ Radar.itemsAll s' = Radar.itemsAll s
  /\ Radar.itemsAllRaw s' = Radar.itemsAllRaw s
  /\ Radar.followOpmlItems s' = Radar.followOpmlItems s
  /\ Radar.totalAi s' = Radar.totalAi s
  /\ Radar.totalRaw s' = Radar.totalRaw s
  /\ Radar.totalAllMode s' = Radar.totalAllMode s
  /\ Radar.generatedAt s' = Radar.generatedAt s.

(** The views are those of the state: rendering again changes nothing. *)
Definition modeSwitchCurrent (formatNumber : N -> jsstring) (e : Radar.Env)
  : Prop :=
  Radar.renderModeSwitch formatNumber e = (Ok tt, e).

Definition siteFiltersCurrent (collationKey : jsstring -> list N)
           (e : Radar.Env) : Prop :=
  Radar.renderSiteFilters collationKey e = (Ok tt, e).

Definition listCurrent (collationKey : jsstring -> list N)
           (formatNumber : N -> jsstring)
           (formatDateTime : jsstring -> option jsstring) (e : Radar.Env)
  : Prop :=
  Radar.renderList collationKey formatNumber formatDateTime e = (Ok tt, e).

End WithEngine.

End Views.


(* ================================================================= *)
(** ** Facts about the primitives *)
(* ================================================================= *)

Module JSFacts.
Import JS Spec.

Lemma str_eqb_eq (a b : jsstring) : str_eqb a b = true <-> a = b.
Proof.
  revert b; induction a as [|x a IH]; intros [|y b]; simpl;
    try (split; [discriminate | congruence]); try tauto.
  rewrite andb_true_iff, N.eqb_eq, IH. split.
  - intros [-> ->]; reflexivity.
  - intros H; inversion H; auto.
Qed.

Lemma str_eqb_refl (a : jsstring) : str_eqb a a = true.
Proof. apply str_eqb_eq; reflexivity. Qed.

Lemma str_eqb_neq (a b : jsstring) : str_eqb a b = false <-> a <> b.
Proof.
  rewrite <- str_eqb_eq. destruct (str_eqb a b); split; congruence.
Qed.

Lemma truthy_true (s : jsstring) : truthy s = true <-> s <> [].
Proof. destruct s; simpl; split; congruence. Qed.

Lemma truthy_false (s : jsstring) : truthy s = false <-> s = [].
Proof. destruct s; simpl; split; congruence. Qed.

(** *** trim *)

Lemma trimStart_blank (s : jsstring) :
  (forall c, In c s -> isWhiteSpace c = true) -> trimStart s = [].
Proof.
  induction s as [|c r IH]; simpl; intros H; [reflexivity|].
  rewrite (H c (or_introl eq_refl)). apply IH. intros d Hd; apply H; auto.
Qed.

Lemma trim_blank (s : jsstring) :
  (forall c, In c s -> isWhiteSpace c = true) -> trim s = [].
Proof.
  intros H. unfold trim, trimEnd. rewrite (trimStart_blank s H). reflexivity.
Qed.

(** *** includes *)

Lemma startsWith_spec (h q : jsstring) :
  startsWith h q = true <-> exists post, h = q ++ post.
Proof.
  revert h; induction q as [|x q IH]; intros h; simpl.
  - split; [intros _; exists h; reflexivity | reflexivity].
  - destruct h as [|y h].
    + split; [discriminate | intros [post H]; discriminate].
    + rewrite andb_true_iff, N.eqb_eq, IH. split.
      * intros [-> [post ->]]. exists post; reflexivity.
      * intros [post H]. inversion H; subst. split; [reflexivity|].
        exists post; reflexivity.
Qed.

Lemma includes_spec (h q : jsstring) :
  includes h q = true <-> Substring q h.
Proof.
  unfold Substring. induction h as [|y h IH]; simpl.
  - rewrite orb_false_r, startsWith_spec. split.
    + intros [post H]. exists [], post. exact H.
    + intros [pre [post H]]. destruct pre; simpl in H.
      * exists post; exact H.
      * discriminate.
  - rewrite orb_true_iff, startsWith_spec, IH. split.
    + intros [[post H] | [pre [post H]]].
      * exists [], post. exact H.
      * exists (y :: pre), post. simpl. rewrite H. reflexivity.
    + intros [pre [post H]]. destruct pre as [|z pre]; simpl in H.
      * left. exists post. exact H.
      * right. inversion H; subst. exists pre, post. reflexivity.
Qed.

Lemma Substring_app_l (q a b : jsstring) : Substring q a -> Substring q (a ++ b).
Proof.
  intros [pre [post ->]]. exists pre, (post ++ b).
  rewrite <- !app_assoc. reflexivity.
Qed.

Lemma Substring_app_r (q a b : jsstring) : Substring q b -> Substring q (a ++ b).
Proof.
  intros [pre [post ->]]. exists (a ++ pre), post.
  rewrite <- !app_assoc. reflexivity.
Qed.

(** *** Array_sort *)

Section SortFacts.
Context {A : Type} (cmp : A -> A -> Z).

Lemma sort_insert_perm (x : A) (l : list A) :
  Permutation (sort_insert cmp x l) (x :: l).
Proof.
  induction l as [|y r IH]; simpl; [reflexivity|].
  destruct (cmp x y <=? 0)%Z; [reflexivity|].
  rewrite IH. apply perm_swap.
Qed.

Lemma Array_sort_perm (l : list A) : Permutation (Array_sort cmp l) l.
Proof.
  induction l as [|x r IH]; simpl; [reflexivity|].
  rewrite sort_insert_perm. apply perm_skip, IH.
Qed.

Lemma Array_sort_In (l : list A) (x : A) : In x (Array_sort cmp l) <-> In x l.
Proof.
  split; apply Permutation_in;
    [apply Array_sort_perm | symmetry; apply Array_sort_perm].
Qed.

Lemma Array_sort_length (l : list A) : length (Array_sort cmp l) = length l.
Proof. apply Permutation_length, Array_sort_perm. Qed.

(** A consistent comparator: a total preorder read off the sign. *)
Hypothesis cmp_trans :
  forall a b c, (cmp a b <= 0 -> cmp b c <= 0 -> cmp a c <= 0)%Z.
Hypothesis cmp_flip : forall a b, (0 < cmp a b -> cmp b a <= 0)%Z.
Hypothesis cmp_tie : forall a b, cmp a b = 0%Z -> cmp b a = 0%Z.

Lemma sort_insert_sorted (x : A) (l : list A) :
  StronglySorted (notAfter cmp) l ->
  StronglySorted (notAfter cmp) (sort_insert cmp x l).
Proof.
  induction 1 as [|y r Hs IH Hy]; simpl.
  - constructor; constructor.
  - destruct (cmp x y <=? 0)%Z eqn:E.
    + apply Z.leb_le in E. constructor; [constructor; assumption|].
      constructor; [exact E|].
      rewrite Forall_forall in *. intros z Hz.
      apply (cmp_trans x y z E (Hy z Hz)).
    + apply Z.leb_gt in E. constructor; [exact IH|].
      eapply Permutation_Forall.
      * symmetry; apply sort_insert_perm.
      * constructor; [apply cmp_flip, E | exact Hy].
Qed.

Lemma Array_sort_sorted (l : list A) :
  StronglySorted (notAfter cmp) (Array_sort cmp l).
Proof.
  induction l as [|x r IH]; simpl; [constructor|].
  apply sort_insert_sorted, IH.
Qed.

(** Stability: the elements that tie with any given one keep their order. *)
Lemma sort_insert_stable (x a : A) (l : list A) :
  filter (ties cmp x) (sort_insert cmp a l) = filter (ties cmp x) (a :: l).
Proof.
  induction l as [|y r IH]; [reflexivity|].
  simpl sort_insert. destruct (cmp a y <=? 0)%Z eqn:E; [reflexivity|].
  apply Z.leb_gt in E.
  simpl. rewrite IH. simpl. unfold ties.
  destruct (cmp x a =? 0)%Z eqn:Ea; destruct (cmp x y =? 0)%Z eqn:Ey;
    try reflexivity.
  apply Z.eqb_eq in Ea, Ey. exfalso.
  pose proof (cmp_tie _ _ Ea) as Hax.
  assert (cmp a y <= 0)%Z by (apply (cmp_trans a x y); lia).
  lia.
Qed.

Lemma Array_sort_stable (x : A) (l : list A) :
  filter (ties cmp x) (Array_sort cmp l) = filter (ties cmp x) l.
Proof.
  induction l as [|a r IH]; [reflexivity|].
  simpl Array_sort. rewrite sort_insert_stable. simpl. rewrite IH. reflexivity.
Qed.

End SortFacts.

(** *** Collation keys compare consistently *)

Lemma keyCompare_range (a b : list N) :
  keyCompare a b = (-1)%Z \/ keyCompare a b = 0%Z \/ keyCompare a b = 1%Z.
Proof.
  revert b; induction a as [|x a IH]; intros [|y b]; simpl; auto.
  destruct (N.compare x y); auto.
Qed.

Lemma keyCompare_opp (a b : list N) : keyCompare b a = (- keyCompare a b)%Z.
Proof.
  revert b; induction a as [|x a IH]; intros [|y b]; simpl; try reflexivity.
  rewrite (N.compare_antisym x y). destruct (N.compare x y); simpl; auto.
Qed.

Lemma keyCompare_eq (a b : list N) : keyCompare a b = 0%Z <-> a = b.
Proof.
  revert b; induction a as [|x a IH]; intros [|y b]; simpl;
    try (split; [discriminate | congruence]); try tauto.
  destruct (N.compare x y) eqn:E.
  - apply N.compare_eq in E. subst. rewrite IH. split; congruence.
  - split; [discriminate|]. intros H; inversion H; subst.
    rewrite N.compare_refl in E. discriminate.
  - split; [discriminate|]. intros H; inversion H; subst.
    rewrite N.compare_refl in E. discriminate.
Qed.

Lemma keyCompare_trans (a b c : list N) :
  (keyCompare a b <= 0 -> keyCompare b c <= 0 -> keyCompare a c <= 0)%Z.
Proof.
  revert b c; induction a as [|x a IH]; intros [|y b] [|z c]; simpl;
    try lia.
  destruct (N.compare x y) eqn:Exy; destruct (N.compare y z) eqn:Eyz;
    try lia; intros H1 H2.
  - apply N.compare_eq in Exy, Eyz. subst. rewrite N.compare_refl.
    eapply IH; eassumption.
  - apply N.compare_eq in Exy. subst. rewrite Eyz. lia.
  - apply N.compare_eq in Eyz. subst. rewrite Exy. lia.
  - rewrite N.compare_lt_iff in Exy, Eyz.
    assert (E : N.compare x z = Lt) by (apply N.compare_lt_iff; lia).
    rewrite E. lia.
Qed.

(** *** Map *)

Section MapFacts.
Context {V : Type}.
Implicit Types (m : list (jsstring * V)) (k : jsstring).

Lemma Map_has_In k m : Map_has str_eqb k m = true <-> In k (map fst m).
Proof.
  unfold Map_has. induction m as [|[k' v] r IH]; simpl.
  - split; [discriminate | tauto].
  - destruct (str_eqb k k') eqn:E.
    + apply str_eqb_eq in E. subst. tauto.
    + apply str_eqb_neq in E. rewrite IH. split; [tauto|].
      intros [H|H]; [congruence | exact H].
Qed.

Lemma Map_has_false k m : Map_has str_eqb k m = false <-> ~ In k (map fst m).
Proof.
  rewrite <- Map_has_In. destruct (Map_has str_eqb k m); split; congruence.
Qed.

Lemma Map_has_existsb k m :
  Map_has str_eqb k m = existsb (str_eqb k) (map fst m).
Proof.
  unfold Map_has. induction m as [|[k' v] r IH]; simpl; [reflexivity|].
  destruct (str_eqb k k'); simpl; [reflexivity | exact IH].
Qed.

Lemma Map_set_fresh k (v : V) m :
  ~ In k (map fst m) -> Map_set str_eqb k v m = m ++ [(k, v)].
Proof.
  induction m as [|[k' v'] r IH]; simpl; intros H; [reflexivity|].
  destruct (str_eqb k k') eqn:E.
  - apply str_eqb_eq in E. subst. tauto.
  - rewrite IH by tauto. reflexivity.
Qed.

Lemma Map_mutate_absent k (f : V -> V) m :
  ~ In k (map fst m) -> Map_mutate str_eqb k f m = m.
Proof.
  induction m as [|[k' v'] r IH]; simpl; intros H; [reflexivity|].
  destruct (str_eqb k k') eqn:E.
  - apply str_eqb_eq in E. subst. tauto.
  - rewrite IH by tauto. reflexivity.
Qed.

Lemma Map_mutate_app k (f : V -> V) m1 m2 :
  ~ In k (map fst m1) ->
  Map_mutate str_eqb k f (m1 ++ m2) = m1 ++ Map_mutate str_eqb k f m2.
Proof.
  induction m1 as [|[k' v'] r IH]; simpl; intros H; [reflexivity|].
  destruct (str_eqb k k') eqn:E.
  - apply str_eqb_eq in E. subst. tauto.
  - rewrite IH by tauto. reflexivity.
Qed.

Lemma Map_mutate_here k (f : V -> V) (v : V) m :
  Map_mutate str_eqb k f ((k, v) :: m) = (k, f v) :: m.
Proof. simpl. rewrite str_eqb_refl. reflexivity. Qed.

Lemma Map_split k m :
  In k (map fst m) ->
  exists m1 v m2, m = m1 ++ (k, v) :: m2 /\ ~ In k (map fst m1).
Proof.
  induction m as [|[k' v'] r IH]; simpl; [tauto|].
  intros H. destruct (str_eqb k k') eqn:E.
  - apply str_eqb_eq in E. subst. exists [], v', r. simpl. tauto.
  - apply str_eqb_neq in E. destruct IH as (m1 & v & m2 & -> & Hn).
    + destruct H; [congruence | assumption].
    + exists ((k', v') :: m1), v, m2. simpl. split; [reflexivity|].
      intros [H1|H1]; [congruence | tauto].
Qed.

End MapFacts.

(** *** The grouping loop

    [computeSiteStats], [groupBySource] and the site map of
    [renderGroupedBySiteAndSource] run the same loop: create the entry of
    the item's key when the map has none, then update the entry in place. *)

Section GroupLoop.
Context {A V : Type} (key : A -> jsstring) (init : A -> V) (push : A -> V -> V).

Lemma group_step_shape (m : list (jsstring * V)) (it : A) :
  (~ In (key it) (map fst m)
   /\ group_step key init push m it = m ++ [(key it, push it (init it))])
  \/ (exists m1 v m2, m = m1 ++ (key it, v) :: m2
                      /\ ~ In (key it) (map fst m1)
                      /\ group_step key init push m it
                         = m1 ++ (key it, push it v) :: m2).
Proof.
  unfold group_step. destruct (Map_has str_eqb (key it) m) eqn:E; simpl.
  - right. apply Map_has_In in E.
    destruct (Map_split _ _ E) as (m1 & v & m2 & -> & Hn).
    exists m1, v, m2. repeat split; try assumption.
    rewrite Map_mutate_app by assumption. rewrite Map_mutate_here. reflexivity.
  - left. apply Map_has_false in E. split; [assumption|].
    rewrite Map_set_fresh by assumption.
    rewrite Map_mutate_app by assumption. rewrite Map_mutate_here. reflexivity.
Qed.

Lemma group_step_keys (m : list (jsstring * V)) (it : A) :
  map fst (group_step key init push m it) = noteKey (map fst m) (key it).
Proof.
  unfold noteKey. rewrite <- Map_has_existsb.
  destruct (group_step_shape m it) as [[Hn ->] | (m1 & v & m2 & -> & Hn & ->)].
  - apply Map_has_false in Hn. rewrite Hn. rewrite map_app. reflexivity.
  - assert (E : Map_has str_eqb (key it) (m1 ++ (key it, v) :: m2) = true).
    { apply Map_has_In. rewrite map_app. apply in_or_app. right. left. reflexivity. }
    rewrite E. rewrite !map_app. reflexivity.
Qed.

Lemma group_fold_keys (items : list A) (m : list (jsstring * V)) :
  map fst (fold_left (group_step key init push) items m)
  = fold_left noteKey (map key items) (map fst m).
Proof.
  revert m; induction items as [|it r IH]; intros m; simpl; [reflexivity|].
  rewrite IH, group_step_keys. reflexivity.
Qed.

Lemma filter_none (k : jsstring) (items : list A) :
  (forall it, In it items -> key it <> k) -> filter (hasKey key k) items = [].
Proof.
  induction items as [|it r IH]; simpl; intros H; [reflexivity|].
  unfold hasKey at 1.
  destruct (str_eqb (key it) k) eqn:E.
  - apply str_eqb_eq in E. exfalso. apply (H it); auto.
  - apply IH. intros; apply H; auto.
Qed.

(** What an entry knows after the loop, as a relation between the entry
    and the items of its key, in their order. *)
Variable R : jsstring -> V -> list A -> Prop.
Hypothesis R_first : forall it, R (key it) (push it (init it)) [it].
Hypothesis R_push :
  forall it v l, R (key it) v l -> l <> [] -> R (key it) (push it v) (l ++ [it]).

Lemma grouped_nil : grouped key R [] [].
Proof.
  split; [constructor|]. split; [intros k v [] | intros it []].
Qed.

Lemma NoDup_app_mid (k : jsstring) (l1 l2 : list jsstring) :
  NoDup (l1 ++ k :: l2) -> ~ In k l1 /\ ~ In k l2.
Proof.
  intros H. apply NoDup_remove_2 in H. split; intro; apply H, in_or_app; auto.
Qed.

Lemma grouped_step (m : list (jsstring * V)) (items : list A) (it : A) :
  grouped key R m items ->
  grouped key R (group_step key init push m it) (items ++ [it]).
Proof.
  intros (Hnd & Hent & Hcov).
  assert (Hfilter : forall k, filter (hasKey key k) (items ++ [it])
                              = filter (hasKey key k) items
                                ++ (if str_eqb (key it) k then [it] else [])).
  { intros k. rewrite filter_app. simpl. unfold hasKey at 2.
    destruct (str_eqb (key it) k); reflexivity. }
  destruct (group_step_shape m it) as [[Hn E] | (m1 & v & m2 & Em & Hn & E)].
  - rewrite E. split; [|split].
    + rewrite map_app. simpl. apply NoDup_app; repeat split; auto.
      * constructor; [simpl; tauto | constructor].
      * intros k H1 [<-|[]]. contradiction.
    + intros k w Hin. rewrite Hfilter.
      apply in_app_or in Hin. destruct Hin as [Hin | [Hin | []]].
      * assert (Hk : key it <> k).
        { intros <-. apply Hn. apply (in_map fst) in Hin. exact Hin. }
        apply str_eqb_neq in Hk. rewrite Hk, app_nil_r. apply (Hent _ _ Hin).
      * inversion Hin; subst. rewrite str_eqb_refl.
        rewrite filter_none.
        -- split; [apply R_first | discriminate].
        -- intros it' Hin' He. apply Hn. rewrite <- He. apply Hcov, Hin'.
    + intros it' Hin. rewrite map_app. apply in_or_app.
      apply in_app_or in Hin. destruct Hin as [Hin | [<- | []]].
      * left. apply Hcov, Hin.
      * right. left. reflexivity.
  - rewrite E. subst m. rewrite map_app in Hnd. simpl in Hnd.
    destruct (NoDup_app_mid _ _ _ Hnd) as [_ Hn2].
    assert (Hother : forall k w, In (k, w) m1 \/ In (k, w) m2 -> key it <> k).
    { intros k w [H|H] <-; [apply Hn | apply Hn2];
        apply (in_map fst) in H; exact H. }
    split; [|split].
    + rewrite map_app. simpl. exact Hnd.
    + intros k w Hin. rewrite Hfilter.
      apply in_app_or in Hin. destruct Hin as [Hin | [Hin | Hin]].
      * pose proof (Hother _ _ (or_introl Hin)) as Hk.
        apply str_eqb_neq in Hk. rewrite Hk, app_nil_r.
        apply (Hent k w). apply in_or_app; auto.
      * inversion Hin; subst. rewrite str_eqb_refl.
        destruct (Hent (key it) v) as [Hr Hne];
          [apply in_or_app; right; left; reflexivity|].
        split; [apply R_push; assumption|].
        intros Hf. apply app_eq_nil in Hf. destruct Hf; discriminate.
      * pose proof (Hother _ _ (or_intror Hin)) as Hk.
        apply str_eqb_neq in Hk. rewrite Hk, app_nil_r.
        apply (Hent k w). apply in_or_app; right; right; exact Hin.
    + intros it' Hin. rewrite map_app. simpl.
      apply in_app_or in Hin. destruct Hin as [Hin | [<- | []]].
      * specialize (Hcov _ Hin). rewrite map_app in Hcov. exact Hcov.
      * apply in_or_app. right. left. reflexivity.
Qed.

Lemma grouped_fold (items : list A) :
  grouped key R (fold_left (group_step key init push) items []) items.
Proof.
  assert (G : forall more m done, grouped key R m done ->
                grouped key R (fold_left (group_step key init push) more m)
                        (done ++ more)).
  { induction more as [|it r IH]; intros m done H; simpl.
    - rewrite app_nil_r. exact H.
    - replace (done ++ it :: r) with ((done ++ [it]) ++ r)
        by (rewrite <- app_assoc; reflexivity).
      apply IH, grouped_step, H. }
  apply (G items [] []), grouped_nil.
Qed.

(** Every item falls under exactly one of the keys. *)
Lemma partition_perm (ks : list jsstring) (items : list A) :
  NoDup ks -> (forall it, In it items -> In (key it) ks) ->
  Permutation (concat (map (fun k => filter (hasKey key k) items) ks)) items.
Proof.
  intros Hnd. induction items as [|it r IH]; intros Hcov.
  - clear Hnd Hcov. induction ks as [|k ks IHk]; simpl; [constructor | exact IHk].
  - assert (Hin : In (key it) ks) by (apply Hcov; left; reflexivity).
    destruct (in_split _ _ Hin) as (l1 & l2 & E).
    assert (IH' : Permutation
                    (concat (map (fun k => filter (hasKey key k) r) ks)) r)
      by (apply IH; intros; apply Hcov; right; assumption).
    rewrite E in Hnd, IH' |- *.
    destruct (NoDup_app_mid _ _ _ Hnd) as [Hn1 Hn2].
    assert (Hsame : forall l, ~ In (key it) l ->
              map (fun k => filter (hasKey key k) (it :: r)) l
              = map (fun k => filter (hasKey key k) r) l).
    { intros l Hl. apply map_ext_in. intros k Hk. simpl. unfold hasKey at 1.
      assert (Hne : key it <> k) by (intros <-; contradiction).
      apply str_eqb_neq in Hne. rewrite Hne. reflexivity. }
    rewrite map_app, concat_app in IH' |- *. simpl map in IH' |- *.
    simpl concat in IH' |- *. rewrite !Hsame by assumption.
    simpl filter. unfold hasKey at 2. rewrite str_eqb_refl.
    simpl. apply Permutation_sym, Permutation_cons_app, Permutation_sym, IH'.
Qed.

End GroupLoop.

End JSFacts.

(** *** encodeURIComponent and join *)

Module UriFacts.
Import JS Spec JSFacts.
Open Scope N_scope.

Ltac ndiv := zify; Z.to_euclidean_division_equations; lia.

Lemma unreserved_facts c : unreserved c = true -> c <> 37 /\ c <> 124 /\ c < 128.
Proof.
  unfold unreserved. rewrite !orb_true_iff, !andb_true_iff, !N.leb_le, !N.eqb_eq. lia.
Qed.

Lemma unhex_hexDigit d : d < 16 -> unhexDigit (hexDigit d) = d.
Proof.
  intros H. unfold unhexDigit, hexDigit.
  destruct (d <? 10) eqn:E.
  - apply N.ltb_lt in E. assert ((48 + d <? 58) = true) by (apply N.ltb_lt; lia).
    rewrite H0. lia.
  - apply N.ltb_ge in E. assert ((55 + d <? 58) = false) by (apply N.ltb_ge; lia).
    rewrite H0. lia.
Qed.

Lemma hexDigit_range d : d < 16 -> 48 <= hexDigit d <= 70.
Proof.
  intros H. unfold hexDigit.
  destruct (d <? 10) eqn:E; [apply N.ltb_lt in E | apply N.ltb_ge in E]; lia.
Qed.

Lemma four_bytes hi lo :
  0xD800 <= hi -> hi <= 0xDBFF -> 0xDC00 <= lo -> lo <= 0xDFFF ->
  let cp := pairCodePoint hi lo in
  0x10000 <= cp < 0x110000.
Proof. intros. unfold cp, pairCodePoint. lia. Qed.

Lemma four_rebuild cp : 0x10000 <= cp < 0x110000 ->
  (0xF0 + cp / 262144 - 0xF0) * 262144
  + (0x80 + (cp / 4096) mod 64 - 0x80) * 4096
  + (0x80 + (cp / 64) mod 64 - 0x80) * 64 + (0x80 + cp mod 64 - 0x80) = cp.
Proof. intros. ndiv. Qed.
Lemma three_rebuild cp : cp < 0x10000 ->
  (0xE0 + cp / 4096 - 0xE0) * 4096
  + (0x80 + (cp / 64) mod 64 - 0x80) * 64 + (0x80 + cp mod 64 - 0x80) = cp.
Proof. intros. ndiv. Qed.
Lemma two_rebuild cp : cp < 0x800 ->
   (0xC0 + cp / 64 - 0xC0) * 64 + (0x80 + cp mod 64 - 0x80) = cp.
Proof. intros. ndiv. Qed.
Lemma pair_split hi lo :
  0xD800 <= hi -> hi <= 0xDBFF -> 0xDC00 <= lo -> lo <= 0xDFFF ->
  let cp := pairCodePoint hi lo in
  0xD800 + (cp - 0x10000) / 0x400 = hi
  /\ 0xDC00 + (cp - 0x10000) mod 0x400 = lo.
Proof. intros. unfold cp, pairCodePoint.
  replace ((hi - 55296) * 1024 + (lo - 56320) + 65536 - 65536)
    with ((lo - 56320) + (hi - 55296) * 1024) by lia.
  rewrite N.div_add by lia. rewrite N.Div0.mod_add.
  rewrite N.div_small by lia. rewrite N.mod_small by lia. lia.
Qed.

Lemma unpct_octet b t : b < 256 -> unpct (pctOctet b ++ t) = b :: unpct t.
Proof.
  intros Hb. unfold pctOctet. cbn [app unpct]. rewrite N.eqb_refl.
  rewrite !unhex_hexDigit by ndiv. f_equal. ndiv.
Qed.

Lemma unpct_plain c t : c <> 37 -> unpct (c :: t) = c :: unpct t.
Proof. intros H. cbn [unpct]. apply N.eqb_neq in H. rewrite H. reflexivity. Qed.

Lemma utf16_1 b0 r : b0 < 0x80 -> utf16_of_utf8 (b0 :: r) = b0 :: utf16_of_utf8 r.
Proof. intros H. cbn [utf16_of_utf8]. apply N.ltb_lt in H. rewrite H. reflexivity. Qed.

Lemma utf16_2 b0 b1 r : 0x80 <= b0 < 0xE0 ->
  utf16_of_utf8 (b0 :: b1 :: r) = ((b0 - 0xC0) * 64 + (b1 - 0x80)) :: utf16_of_utf8 r.
Proof.
  intros [H1 H2]. cbn [utf16_of_utf8].
  apply N.ltb_ge in H1. apply N.ltb_lt in H2. rewrite H1, H2. reflexivity.
Qed.

Lemma utf16_3 b0 b1 b2 r : 0xE0 <= b0 < 0xF0 ->
  utf16_of_utf8 (b0 :: b1 :: b2 :: r)
  = ((b0 - 0xE0) * 4096 + (b1 - 0x80) * 64 + (b2 - 0x80)) :: utf16_of_utf8 r.
Proof.
  intros [H1 H2]. cbn [utf16_of_utf8].
  assert (E1 : (b0 <? 0x80) = false) by (apply N.ltb_ge; lia).
  assert (E2 : (b0 <? 0xE0) = false) by (apply N.ltb_ge; lia).
  assert (E3 : (b0 <? 0xF0) = true) by (apply N.ltb_lt; lia).
  rewrite E1, E2, E3. reflexivity.
Qed.

Lemma utf16_4 b0 b1 b2 b3 r : 0xF0 <= b0 ->
  utf16_of_utf8 (b0 :: b1 :: b2 :: b3 :: r)
  = (let cp := (b0 - 0xF0) * 262144 + (b1 - 0x80) * 4096
                    + (b2 - 0x80) * 64 + (b3 - 0x80) in
          (0xD800 + (cp - 0x10000) / 0x400)
            :: (0xDC00 + (cp - 0x10000) mod 0x400)
            :: utf16_of_utf8 r).
Proof.
  intros H1. cbn [utf16_of_utf8].
  assert (E1 : (b0 <? 0x80) = false) by (apply N.ltb_ge; lia).
  assert (E2 : (b0 <? 0xE0) = false) by (apply N.ltb_ge; lia).
  assert (E3 : (b0 <? 0xF0) = false) by (apply N.ltb_ge; lia).
  rewrite E1, E2, E3. reflexivity.
Qed.

Lemma encode_cons c rest :
  encodeURIComponent (c :: rest) =
    if unreserved c then
      bind (encodeURIComponent rest) (fun e => Ok (c :: e))
    else if isHighSurrogate c then
      match rest with
      | d :: rest' =>
          if isLowSurrogate d then
            bind (encodeURIComponent rest')
                 (fun e => Ok (pctEncode (pairCodePoint c d) ++ e))
          else Throw uriMalformed
      | [] => Throw uriMalformed
      end
    else if isLowSurrogate c then Throw uriMalformed
    else if c <? 0x10000 then
      bind (encodeURIComponent rest) (fun e => Ok (pctEncode c ++ e))
    else Throw uriMalformed.
Proof. reflexivity. Qed.

Lemma bind_Ok {A B} (r : result A) (k : A -> result B) (b : B) :
  bind r k = Ok b -> exists a, r = Ok a /\ k a = Ok b.
Proof. destruct r; simpl; intros H; [eauto | discriminate]. Qed.

(** The code point written by [pctEncode], read back. *)
Lemma decode_scalar c t :
  c < 0x10000 -> isHighSurrogate c = false -> isLowSurrogate c = false ->
  utf16_of_utf8 (unpct (pctEncode c ++ t)) = c :: utf16_of_utf8 (unpct t).
Proof.
  intros Hc _ _. unfold pctEncode, utf8.
  destruct (c <? 0x80) eqn:E1; [|destruct (c <? 0x800) eqn:E2; [|destruct (c <? 0x10000) eqn:E3]].
  - apply N.ltb_lt in E1. cbn [flat_map]. rewrite app_nil_r.
    rewrite unpct_octet by lia. apply utf16_1; lia.
  - apply N.ltb_ge in E1. apply N.ltb_lt in E2. cbn [flat_map]. rewrite app_nil_r, <- app_assoc.
    rewrite !unpct_octet by ndiv. rewrite utf16_2 by ndiv. f_equal. ndiv.
  - apply N.ltb_ge in E1, E2. cbn [flat_map]. rewrite app_nil_r, <- !app_assoc.
    rewrite !unpct_octet by ndiv. rewrite utf16_3 by ndiv. f_equal. ndiv.
  - apply N.ltb_ge in E3. lia.
Qed.

Lemma decode_pair hi lo t :
  isHighSurrogate hi = true -> isLowSurrogate lo = true ->
  utf16_of_utf8 (unpct (pctEncode (pairCodePoint hi lo) ++ t))
  = hi :: lo :: utf16_of_utf8 (unpct t).
Proof.
  unfold isHighSurrogate, isLowSurrogate.
  rewrite !andb_true_iff, !N.leb_le. intros [H1 H2] [H3 H4].
  pose proof (four_bytes hi lo H1 H2 H3 H4) as Hcp. cbv zeta in Hcp.
  pose proof (pair_split hi lo H1 H2 H3 H4) as Hsplit. cbv zeta in Hsplit.
  set (cp := pairCodePoint hi lo) in *.
  unfold pctEncode, utf8.
  assert (E1 : (cp <? 0x80) = false) by (apply N.ltb_ge; lia).
  assert (E2 : (cp <? 0x800) = false) by (apply N.ltb_ge; lia).
  assert (E3 : (cp <? 0x10000) = false) by (apply N.ltb_ge; lia).
  rewrite E1, E2, E3. cbn [flat_map]. rewrite app_nil_r, <- !app_assoc.
  rewrite !unpct_octet by ndiv. rewrite utf16_4 by ndiv. cbv zeta.
  rewrite four_rebuild by lia. destruct Hsplit as [-> ->]. reflexivity.
Qed.

Lemma decode_encode : forall n s e,
  (length s <= n)%nat -> encodeURIComponent s = Ok e ->
  utf16_of_utf8 (unpct e) = s.
Proof.
  induction n as [|n IH]; intros s e Hlen H.
  - destruct s; [|simpl in Hlen; lia]. simpl in H. inversion H. reflexivity.
  - destruct s as [|c rest]; [simpl in H; inversion H; reflexivity|].
    rewrite encode_cons in H. simpl in Hlen.
    destruct (unreserved c) eqn:Eu.
    { apply bind_Ok in H. destruct H as (e' & He' & H). inversion H; subst.
      destruct (unreserved_facts c Eu) as (H37 & _ & H128).
      rewrite unpct_plain by assumption. rewrite utf16_1 by lia.
      f_equal. apply IH; [lia | assumption]. }
    destruct (isHighSurrogate c) eqn:Eh.
    { destruct rest as [|d rest']; [discriminate|].
      destruct (isLowSurrogate d) eqn:El; [|discriminate].
      apply bind_Ok in H. destruct H as (e' & He' & H). inversion H; subst.
      rewrite decode_pair by assumption. do 2 f_equal.
      apply IH; [simpl in Hlen; lia | assumption]. }
    destruct (isLowSurrogate c) eqn:El; [discriminate|].
    destruct (c <? 0x10000) eqn:Ec; [|discriminate].
    apply N.ltb_lt in Ec.
    apply bind_Ok in H. destruct H as (e' & He' & H). inversion H; subst.
    rewrite decode_scalar by assumption. f_equal. apply IH; [lia | assumption].
Qed.

Lemma encodeURIComponent_inj s1 s2 e :
  encodeURIComponent s1 = Ok e -> encodeURIComponent s2 = Ok e -> s1 = s2.
Proof.
  intros H1 H2.
  rewrite <- (decode_encode _ s1 e (le_n _) H1).
  apply (decode_encode _ s2 e (le_n _) H2).
Qed.

Lemma utf8_octets cp b : cp < 0x110000 -> In b (utf8 cp) -> b < 256.
Proof.
  intros Hcp. unfold utf8.
  destruct (cp <? 0x80) eqn:E1; [|destruct (cp <? 0x800) eqn:E2; [|destruct (cp <? 0x10000) eqn:E3]];
    repeat match goal with
           | H : (_ <? _) = true |- _ => apply N.ltb_lt in H
           | H : (_ <? _) = false |- _ => apply N.ltb_ge in H
           end;
    cbn [In]; intros H;
    repeat match goal with
           | H : _ \/ _ |- _ => destruct H
           | H : False |- _ => destruct H
           end; subst b; ndiv.
Qed.

Lemma pctOctet_chars b x : b < 256 -> In x (pctOctet b) -> x = 37 \/ 48 <= x <= 70.
Proof.
  intros Hb [<- | [<- | [<- | []]]]; [left; reflexivity | right | right];
    apply hexDigit_range; ndiv.
Qed.

Lemma pctEncode_chars cp x :
  cp < 0x110000 -> In x (pctEncode cp) -> x = 37 \/ 48 <= x <= 70.
Proof.
  intros Hcp H. unfold pctEncode in H. apply in_flat_map in H.
  destruct H as (b & Hb & Hx). eapply pctOctet_chars; [|exact Hx].
  eapply utf8_octets; eassumption.
Qed.

(** The separator never occurs in an encoded part. *)
Lemma encode_no_bar : forall n s e,
  (length s <= n)%nat -> encodeURIComponent s = Ok e -> ~ In 124 e.
Proof.
  induction n as [|n IH]; intros s e Hlen H.
  - destruct s; [|simpl in Hlen; lia]. simpl in H. inversion H. simpl. tauto.
  - destruct s as [|c rest]; [simpl in H; inversion H; simpl; tauto|].
    rewrite encode_cons in H. simpl in Hlen.
    destruct (unreserved c) eqn:Eu.
    { apply bind_Ok in H. destruct H as (e' & He' & H). inversion H; subst.
      destruct (unreserved_facts c Eu) as (_ & H124 & _).
      intros [Hc | Hin]; [congruence|]. revert Hin. apply (IH rest); [lia | assumption]. }
    destruct (isHighSurrogate c) eqn:Eh.
    { destruct rest as [|d rest']; [discriminate|].
      destruct (isLowSurrogate d) eqn:El; [|discriminate].
      apply bind_Ok in H. destruct H as (e' & He' & H). inversion H; subst.
      unfold isHighSurrogate, isLowSurrogate in Eh, El.
      rewrite !andb_true_iff, !N.leb_le in Eh, El.
      intros Hin. apply in_app_or in Hin. destruct Hin as [Hin | Hin].
      - apply pctEncode_chars in Hin; [lia|]. unfold pairCodePoint. lia.
      - revert Hin. apply (IH rest'); [simpl in Hlen; lia | assumption]. }
    destruct (isLowSurrogate c) eqn:El; [discriminate|].
    destruct (c <? 0x10000) eqn:Ec; [|discriminate].
    apply N.ltb_lt in Ec.
    apply bind_Ok in H. destruct H as (e' & He' & H). inversion H; subst.
    intros Hin. apply in_app_or in Hin. destruct Hin as [Hin | Hin].
    + apply pctEncode_chars in Hin; lia.
    + revert Hin. apply (IH rest); [lia | assumption].
Qed.

(** *** join *)

Lemma cut_at_separator (c : N) (a b x y : jsstring) :
  ~ In c a -> ~ In c b -> a ++ c :: x = b ++ c :: y -> a = b /\ x = y.
Proof.
  revert b; induction a as [|p a IH]; intros [|q b] Ha Hb H; simpl in *.
  - inversion H; auto.
  - inversion H; subst. tauto.
  - inversion H; subst. tauto.
  - inversion H; subst. destruct (IH b) as [-> ->]; auto.
Qed.

Lemma join_cons2 (sep p q : jsstring) (r : list jsstring) :
  join sep (p :: q :: r) = p ++ sep ++ join sep (q :: r).
Proof. reflexivity. Qed.

Lemma join_inj (c : N) (l1 l2 : list jsstring) :
  (forall p, In p l1 -> ~ In c p) -> (forall p, In p l2 -> ~ In c p) ->
  l1 <> [] -> l2 <> [] -> join [c] l1 = join [c] l2 -> l1 = l2.
Proof.
  revert l2; induction l1 as [|p l1 IH]; intros l2 H1 H2 N1 N2 H; [congruence|].
  destruct l2 as [|q l2]; [congruence|].
  destruct l1 as [|p' l1]; destruct l2 as [|q' l2].
  - simpl in H. congruence.
  - rewrite join_cons2 in H. simpl in H. exfalso.
    apply (H1 p (or_introl eq_refl)). rewrite H. apply in_or_app. right. left. reflexivity.
  - rewrite join_cons2 in H. simpl in H. exfalso.
    apply (H2 q (or_introl eq_refl)). rewrite <- H. apply in_or_app. right. left. reflexivity.
  - rewrite !join_cons2 in H. simpl in H.
    apply cut_at_separator in H; [|apply H1; left; reflexivity | apply H2; left; reflexivity].
    destruct H as [-> H]. f_equal. apply IH; try discriminate; auto.
    + intros x Hx. apply H1. right. exact Hx.
    + intros x Hx. apply H2. right. exact Hx.
Qed.

Lemma mapM_Ok_inv {A B} (f : A -> result B) (l : list A) (ys : list B) :
  mapM f l = Ok ys -> Forall2 (fun x y => f x = Ok y) l ys.
Proof.
  revert ys; induction l as [|x r IH]; simpl; intros ys H.
  - inversion H. constructor.
  - apply bind_Ok in H. destruct H as (y & Hy & H).
    apply bind_Ok in H. destruct H as (ys' & Hys & H). inversion H; subst.
    constructor; auto.
Qed.

End UriFacts.

(* ================================================================= *)
(** ** Filtering *)
(* ================================================================= *)

Module FilterSpec.
Import JS Feed Radar Spec Sample Cases JSFacts.

Lemma filter_all {A} (l : list A) : filter (fun _ => true) l = l.
Proof. induction l as [|x r IH]; simpl; congruence. Qed.

Section Filter.
Context {engine : Engine}.

Lemma blank_query (s : State) :
  (forall c, In c (query s) -> isWhiteSpace c = true) ->
  toLowerCase (trim (query s)) = [].
Proof. intros Hq. rewrite (trim_blank _ Hq). apply toLowerCase_empty. Qed.

(** C1. With no site filter and an empty or whitespace-only query,
    [getFilteredItems] returns the whole array the mode selects, same
    elements in the same order: [itemsAi] in the AI mode; in the other
    mode [itemsAll] when the deduplication flag is set and [itemsAllRaw]
    when it is not.  So after a snapshot has been stored, whatever mode and
    flag are then chosen, the result is the array of the payload that
    [init] stored for that mode (with its fallbacks). *)
Theorem getFilteredItems_unfiltered (s : State) :
  siteFilter s = [] ->
  (forall c, In c (query s) -> isWhiteSpace c = true) ->
  getFilteredItems s
  = match mode s with
    | ModeAi => itemsAi s
    | ModeAll => if allDedup s then itemsAll s else itemsAllRaw s
    end
  /\ forall (payload : Snapshot) (s0 : State) (m : Mode) (dedup : bool),
       s = set_allDedup dedup (set_mode m (applyPayload payload s0)) ->
       getFilteredItems s
       = match m with
         | ModeAi =>
             arr_or_empty (or_arr (items_ai payload) (items payload))
         | ModeAll =>
             if dedup
             then arr_or_empty (or_arr (items_all payload) (items payload))
             else arr_or_empty
                    (or_arr (items_all_raw payload)
                            (or_arr (items_all payload) (items payload)))
         end.
Proof.
  intros Hf Hq.
  assert (H : getFilteredItems s
              = match mode s with
                | ModeAi => itemsAi s
                | ModeAll => if allDedup s then itemsAll s else itemsAllRaw s
                end).
  { unfold getFilteredItems. rewrite Hf, (blank_query _ Hq). simpl.
    rewrite filter_all. unfold modeItems, effectiveAllItems.
    destruct (mode s); reflexivity. }
  split; [exact H|].
  intros payload s0 m dedup Hs. rewrite H, Hs.
  destruct m, dedup; reflexivity.
Qed.

(** C2. With a non-empty site filter S, every item [getFilteredItems]
    returns has [site_id] equal to S. *)
Theorem getFilteredItems_site (s : State) (item : Item) :
  siteFilter s <> [] ->
  In item (getFilteredItems s) ->
  site_id item = siteFilter s.
Proof.
  intros Hf Hin. unfold getFilteredItems in Hin.
  apply filter_In in Hin. destruct Hin as [_ Hkeep].
  apply truthy_true in Hf. rewrite Hf in Hkeep. simpl in Hkeep.
  destruct (str_eqb (site_id item) (siteFilter s)) eqn:E.
  - apply str_eqb_eq, E.
  - discriminate.
Qed.

(** C3, amended. For a query whose trimmed, lower-cased form [q] is not
    empty, an item is retained exactly when it belongs to the array the
    mode selects, passes the optional exact site filter, and [q] occurs in
    the lower-cased form of one text: title, title_zh, title_en, site name
    and source, a missing field counting as empty, joined by single
    spaces. *)
Theorem getFilteredItems_query (s : State) (item : Item) :
  let q := toLowerCase (trim (query s)) in
  q <> [] ->
  (In item (getFilteredItems s) <->
     In item (match mode s with
              | ModeAi => itemsAi s
              | ModeAll => if allDedup s then itemsAll s else itemsAllRaw s
              end)
     /\ (siteFilter s = [] \/ site_id item = siteFilter s)
     /\ Substring q
          (toLowerCase
             (or_str (title item) [] ++ js " "
                ++ or_str (title_zh item) [] ++ js " "
                ++ or_str (title_en item) [] ++ js " "
                ++ or_str (Some (site_name item)) [] ++ js " "
                ++ or_str (source item) []))).
Proof.
  intros q Hq.
  unfold getFilteredItems. fold q. rewrite filter_In.
  apply truthy_true in Hq. rewrite Hq. simpl negb. cbv iota.
  rewrite <- includes_spec. fold (hay item).
  replace (match mode s with
           | ModeAi => itemsAi s
           | ModeAll => if allDedup s then itemsAll s else itemsAllRaw s
           end) with (modeItems s)
    by (unfold modeItems, effectiveAllItems; destruct (mode s); reflexivity).
  destruct (siteFilter s) as [|c f] eqn:Ef.
  - simpl. intuition congruence.
  - simpl truthy. simpl andb.
    destruct (str_eqb (site_id item) (c :: f)) eqn:E; simpl.
    + apply str_eqb_eq in E. intuition congruence.
    + apply str_eqb_neq in E. intuition congruence.
Qed.

End Filter.

Section FilterExamples.
#[local] Existing Instance Sample.engine.

Lemma getFilteredItems_unfiltered_witness :
  getFilteredItems stateBlankQuery = [Sample.itemA; Sample.itemB]
  /\ getFilteredItems (set_mode ModeAll stateBlankQuery) = [Sample.itemC]
  /\ getFilteredItems (set_allDedup false (set_mode ModeAll stateBlankQuery))
     = []
  /\ getFilteredItems
       (set_mode ModeAll (applyPayload itemsOnlySnapshot stateBlankQuery))
     = [Sample.itemA; Sample.itemB; Sample.itemC].
Proof.
  assert (Hq : forall c, In c (js "  ") -> isWhiteSpace c = true)
    by (intros c [<- | [<- | []]]; reflexivity).
  split; [|split; [|split]].
  - apply (getFilteredItems_unfiltered stateBlankQuery eq_refl Hq).
  - apply (getFilteredItems_unfiltered (set_mode ModeAll stateBlankQuery)
                                       eq_refl Hq).
  - apply (getFilteredItems_unfiltered
             (set_allDedup false (set_mode ModeAll stateBlankQuery))
             eq_refl Hq).
  - apply (proj2 (getFilteredItems_unfiltered
                    (set_mode ModeAll
                              (applyPayload itemsOnlySnapshot stateBlankQuery))
                    eq_refl Hq)
                 itemsOnlySnapshot stateBlankQuery ModeAll true eq_refl).
Defined.

Lemma getFilteredItems_site_witness :
  site_id Sample.itemC = siteFilter stateSiteX.
Proof.
  apply (getFilteredItems_site stateSiteX Sample.itemC).
  - discriminate.
  - vm_compute. right. left. reflexivity.
Defined.

(** C3, as stated, fails: a query with a space in it is found across the
    boundary of two fields, though no single field contains it. *)
Lemma query_matches_across_fields :
  In itemAcross (getFilteredItems stateAcross)
  /\ perFieldMatch (query stateAcross) itemAcross = false.
Proof. split; [left; reflexivity | reflexivity]. Qed.

Lemma getFilteredItems_query_witness :
  In itemAcross (getFilteredItems stateAcross).
Proof.
  apply (getFilteredItems_query stateAcross itemAcross).
  - discriminate.
  - split; [left; reflexivity|].
    split; [left; reflexivity|].
    exists [], (js "  site feed"). reflexivity.
Defined.

End FilterExamples.

End FilterSpec.

(* ================================================================= *)
(** ** Grouping and ordering *)
(* ================================================================= *)

Module GroupingSpec.
Import JS Feed Radar Spec JSFacts.

(** *** A family of groups that divides a list *)

Section Partition.
Context {V : Type} (key : Item -> jsstring) (members : V -> list Item).
Variables (m : list (jsstring * V)) (items : list Item).
Hypothesis keys_distinct : NoDup (map fst m).
Hypothesis entry_members :
  forall k v, In (k, v) m -> members v = filter (hasKey key k) items.
Hypothesis keys_cover : forall it, In it items -> In (key it) (map fst m).

Lemma entries_concat : Permutation (concat (map (fun g => members (snd g)) m)) items.
Proof.
  replace (map (fun g => members (snd g)) m)
    with (map (fun k => filter (hasKey key k) items) (map fst m)).
  - apply partition_perm; assumption.
  - rewrite map_map. apply map_ext_in. intros [k v] H. simpl.
    symmetry. apply entry_members, H.
Qed.

Lemma same_key_same_entry k v v' : In (k, v) m -> In (k, v') m -> v = v'.
Proof.
  clear entry_members keys_cover. revert keys_distinct.
  induction m as [|[k0 v0] r IH]; simpl; [tauto|].
  intros Hnd H1 H2. inversion Hnd as [|? ? Hnot Hnd']; subst.
  destruct H1 as [H1|H1]; destruct H2 as [H2|H2].
  - congruence.
  - inversion H1; subst. exfalso. apply Hnot.
    apply (in_map fst) in H2. exact H2.
  - inversion H2; subst. exfalso. apply Hnot.
    apply (in_map fst) in H1. exact H1.
  - apply IH; assumption.
Qed.

Variable G : list (jsstring * V).
Hypothesis G_perm : Permutation G m.

Lemma groups_concat : Permutation (concat (map (fun g => members (snd g)) G)) items.
Proof.
  rewrite <- flat_map_concat_map.
  eapply Permutation_trans; [apply Permutation_flat_map, G_perm|].
  rewrite flat_map_concat_map. apply entries_concat.
Qed.

Lemma groups_total :
  list_sum (map (fun g => length (members (snd g))) G) = length items.
Proof.
  rewrite <- (Permutation_length groups_concat).
  rewrite length_concat, map_map. reflexivity.
Qed.

Lemma groups_unique_home (it : Item) :
  In it items ->
  exists g, In g G /\ In it (members (snd g))
            /\ forall g', In g' G -> In it (members (snd g')) -> g' = g.
Proof.
  intros Hin. pose proof (keys_cover it Hin) as Hk.
  apply in_map_iff in Hk. destruct Hk as ([k v] & Ek & Hg). simpl in Ek. subst k.
  exists (key it, v). split; [|split].
  - apply (Permutation_in _ (Permutation_sym G_perm)), Hg.
  - simpl. rewrite (entry_members _ _ Hg). apply filter_In. split; [exact Hin|].
    apply str_eqb_refl.
  - intros [k' v'] Hg' Hit. simpl in Hit.
    apply (Permutation_in _ G_perm) in Hg'.
    rewrite (entry_members _ _ Hg') in Hit. apply filter_In in Hit.
    destruct Hit as [_ Hkey]. apply str_eqb_eq in Hkey. subst k'.
    f_equal. apply (same_key_same_entry (key it)); assumption.
Qed.

End Partition.

(** *** The three loops *)

Lemma source_entries_grouped (items : list Item) :
  grouped sourceKey sourceEntry (groupBySource_groupMap items) items.
Proof.
  apply (grouped_fold sourceKey (fun _ => []) (fun it l => l ++ [it])).
  - intros it. reflexivity.
  - intros it v l H _. unfold sourceEntry in *. subst. reflexivity.
Qed.

Lemma site_entries_grouped (items : list Item) :
  grouped site_id siteEntry (renderGroupedBySiteAndSource_siteMap items) items.
Proof.
  apply (grouped_fold site_id
           (fun it => mkSiteEntry (or_str (Some (site_name it)) (site_id it)) [])
           siteEntry_push).
  - intros it. split; [reflexivity|]. exists it, []. split; reflexivity.
  - intros it v l [Hi (first & rest & Hl & Hn)] _. split.
    + simpl. rewrite Hi. reflexivity.
    + exists first, (rest ++ [it]). rewrite Hl. split; [reflexivity | exact Hn].
Qed.

Lemma stat_rows_grouped (items : list Item) :
  grouped site_id statEntry (fold_left computeSiteStats_step items []) items.
Proof.
  apply (grouped_fold site_id
           (fun it => mkSiteStat (site_id it) (site_name it) 0 0)
           (fun _ row => siteStat_bump row)).
  - intros it. repeat split. exists it, []. split; reflexivity.
  - intros it v l (Hid & Hc & Hr & first & rest & Hl & Hn) _.
    unfold statEntry. simpl. rewrite Hc, Hr, length_app. simpl.
    repeat split; try lia; try assumption.
    exists first, (rest ++ [it]). rewrite Hl. split; [reflexivity | exact Hn].
Qed.

Section Ordering.
Variable collationKey : jsstring -> list N.

Section Comparator.
Context {G : Type} (cnt : G -> Z) (name : G -> jsstring) (cmp : G -> G -> Z).
Hypothesis cmp_def : forall a b, cmp a b = countThenName collationKey cnt name a b.

Lemma cmp_cases (a b : G) :
  (cnt a = cnt b /\ cmp a b = localeCompare collationKey (name a) (name b))
  \/ (cnt a <> cnt b /\ cmp a b = (cnt b - cnt a)%Z).
Proof.
  rewrite cmp_def. unfold countThenName. cbv zeta.
  destruct (cnt b - cnt a =? 0)%Z eqn:E.
  - apply Z.eqb_eq in E. left. split; [lia | reflexivity].
  - apply Z.eqb_neq in E. right. split; [lia | reflexivity].
Qed.

Lemma cmp_is_trans (a b c : G) :
  (cmp a b <= 0 -> cmp b c <= 0 -> cmp a c <= 0)%Z.
Proof.
  pose proof (keyCompare_trans (collationKey (name a)) (collationKey (name b))
                               (collationKey (name c))) as T.
  destruct (cmp_cases a b) as [[? ->] | [? ->]];
    destruct (cmp_cases b c) as [[? ->] | [? ->]];
    destruct (cmp_cases a c) as [[? ->] | [? ->]];
    unfold localeCompare in *; lia.
Qed.

Lemma cmp_is_flip (a b : G) : (0 < cmp a b -> cmp b a <= 0)%Z.
Proof.
  pose proof (keyCompare_opp (collationKey (name a)) (collationKey (name b))) as O.
  destruct (cmp_cases a b) as [[? ->] | [? ->]];
    destruct (cmp_cases b a) as [[? ->] | [? ->]];
    unfold localeCompare in *; lia.
Qed.

Lemma cmp_is_tie (a b : G) : cmp a b = 0%Z -> cmp b a = 0%Z.
Proof.
  pose proof (keyCompare_opp (collationKey (name a)) (collationKey (name b))) as O.
  destruct (cmp_cases a b) as [[? ->] | [? ->]];
    destruct (cmp_cases b a) as [[? ->] | [? ->]];
    unfold localeCompare in *; lia.
Qed.

Lemma notAfter_ranksBefore (a b : G) :
  notAfter cmp a b <-> ranksBefore collationKey cnt name a b.
Proof.
  unfold notAfter, ranksBefore.
  destruct (cmp_cases a b) as [[? ->] | [? ->]]; lia.
Qed.

Lemma ties_tiedWith (a b : G) : ties cmp a b = tiedWith collationKey cnt name a b.
Proof.
  unfold ties, tiedWith.
  destruct (cmp_cases a b) as [[E ->] | [E ->]].
  - rewrite E, Z.eqb_refl. reflexivity.
  - apply Z.eqb_neq in E. rewrite E. simpl. apply Z.eqb_neq. apply Z.eqb_neq in E. lia.
Qed.

Lemma sorted_by_count_then_name (l : list G) :
  StronglySorted (ranksBefore collationKey cnt name) (Array_sort cmp l).
Proof.
  pose proof (Array_sort_sorted cmp cmp_is_trans cmp_is_flip l) as H.
  induction H as [|x r Hs IH Hx]; constructor; [exact IH|].
  eapply Forall_impl; [|exact Hx]. intros y. apply notAfter_ranksBefore.
Qed.

Lemma sort_keeps_ties (x : G) (l : list G) :
  filter (tiedWith collationKey cnt name x) (Array_sort cmp l)
  = filter (tiedWith collationKey cnt name x) l.
Proof.
  rewrite <- !(filter_ext _ _ (ties_tiedWith x)).
  apply Array_sort_stable; [apply cmp_is_trans | apply cmp_is_tie].
Qed.

End Comparator.

Lemma siteStat_cmp_def (a b : SiteStat) :
  siteStat_cmp collationKey a b = countThenName collationKey statCount stat_site_name a b.
Proof. reflexivity. Qed.

Lemma sourceGroup_cmp_def (a b : jsstring * list Item) :
  sourceGroup_cmp collationKey a b = countThenName collationKey sourceCount fst a b.
Proof. reflexivity. Qed.

Lemma siteGroup_cmp_def (a b : jsstring * SiteEntry) :
  siteGroup_cmp collationKey a b = countThenName collationKey siteCount siteLabel a b.
Proof.
  unfold siteGroup_cmp, countThenName, siteCount, siteLabel. cbv zeta.
  destruct (_ =? 0)%Z; reflexivity.
Qed.

Lemma source_groups_facts (items : list Item) :
  let groups := groupBySource collationKey items in
  list_sum (map (fun g => length (snd g)) groups) = length items
  /\ Permutation (concat (map snd groups)) items
  /\ (forall k l, In (k, l) groups -> l = filter (hasKey sourceKey k) items)
  /\ (forall it, In it items ->
        exists g, In g groups /\ In it (snd g)
                  /\ forall g', In g' groups -> In it (snd g') -> g' = g).
Proof.
  intros groups.
  destruct (source_entries_grouped items) as (Hnd & Hent & Hcov).
  assert (Hmem : forall k v, In (k, v) (groupBySource_groupMap items) ->
                   v = filter (hasKey sourceKey k) items)
    by (intros k v H; apply (Hent k v H)).
  assert (Hperm : Permutation groups (groupBySource_groupMap items))
    by apply Array_sort_perm.
  split; [|split; [|split]].
  - apply (groups_total sourceKey (fun l => l) _ items Hnd Hmem Hcov _ Hperm).
  - apply (groups_concat sourceKey (fun l => l) _ items Hnd Hmem Hcov _ Hperm).
  - intros k l H. apply Hmem. apply (Permutation_in _ Hperm), H.
  - apply (groups_unique_home sourceKey (fun l => l) _ items Hnd Hmem Hcov _ Hperm).
Qed.

Lemma site_groups_facts (items : list Item) :
  let sites := renderGroupedBySiteAndSource_sites collationKey items in
  list_sum (map (fun s => length (siteItems (snd s))) sites) = length items
  /\ Permutation (concat (map (fun s => siteItems (snd s)) sites)) items
  /\ (forall k e, In (k, e) sites ->
        siteItems e = filter (hasKey site_id k) items)
  /\ (forall it, In it items ->
        exists s, In s sites /\ In it (siteItems (snd s))
                  /\ forall s', In s' sites -> In it (siteItems (snd s')) ->
                                s' = s).
Proof.
  intros sites.
  destruct (site_entries_grouped items) as (Hnd & Hent & Hcov).
  assert (Hmem : forall k v, In (k, v) (renderGroupedBySiteAndSource_siteMap items) ->
                   siteItems v = filter (hasKey site_id k) items)
    by (intros k v H; apply (Hent k v H)).
  assert (Hperm : Permutation sites (renderGroupedBySiteAndSource_siteMap items))
    by apply Array_sort_perm.
  split; [|split; [|split]].
  - apply (groups_total site_id siteItems _ items Hnd Hmem Hcov _ Hperm).
  - apply (groups_concat site_id siteItems _ items Hnd Hmem Hcov _ Hperm).
  - intros k e H. apply Hmem. apply (Permutation_in _ Hperm), H.
  - apply (groups_unique_home site_id siteItems _ items Hnd Hmem Hcov _ Hperm).
Qed.

(** C4. The groups divide their input: the per-group counts of
    [groupBySource] add up to the number of items, every item lies in
    exactly one group (the groups put together are a rearrangement of the
    input), and the same holds for the site groups of the two-level
    grouping and for the source groups nested in them. *)
Theorem grouping_partitions (items : list Item) :
  let groups := groupBySource collationKey items in
  let sites := renderGroupedBySiteAndSource_sites collationKey items in
  (list_sum (map (fun g => length (snd g)) groups) = length items
   /\ Permutation (concat (map snd groups)) items
   /\ (forall it, In it items ->
         exists g, In g groups /\ In it (snd g)
                   /\ forall g', In g' groups -> In it (snd g') -> g' = g))
  /\ (list_sum (map (fun s => length (siteItems (snd s))) sites)
      = length items
      /\ Permutation (concat (map (fun s => siteItems (snd s)) sites)) items
      /\ (forall it, In it items ->
            exists s, In s sites /\ In it (siteItems (snd s))
                      /\ forall s', In s' sites ->
                                    In it (siteItems (snd s')) -> s' = s))
  /\ list_sum
       (map (fun s =>
               list_sum (map (fun g => length (snd g))
                             (groupBySource collationKey (siteItems (snd s)))))
            sites)
     = length items.
Proof.
  intros groups sites.
  destruct (source_groups_facts items) as (S1 & S2 & _ & S3).
  destruct (site_groups_facts items) as (T1 & T2 & _ & T3).
  split; [|split].
  - split; [exact S1 | split; [exact S2 | exact S3]].
  - split; [exact T1 | split; [exact T2 | exact T3]].
  - rewrite <- T1. f_equal. apply map_ext. intros s.
    apply (source_groups_facts (siteItems (snd s))).
Qed.

(** C5. The lists returned by [computeSiteStats], [groupBySource] and the
    site-level grouping are in descending order of item count, groups with
    the same count in ascending order of their zh-CN collation; the sort is
    stable: groups that tie (same count, names that collate equal) keep the
    order in which the loop first met them. *)
Theorem groups_sorted_stable (items : list Item) :
  (StronglySorted (ranksBefore collationKey statCount stat_site_name)
                  (computeSiteStats collationKey items)
   /\ (forall r, filter (tiedWith collationKey statCount stat_site_name r)
                        (computeSiteStats collationKey items)
                 = filter (tiedWith collationKey statCount stat_site_name r)
                          (computeSiteStats_rows items))
   /\ map stat_site_id (computeSiteStats_rows items)
      = firstSeen (map site_id items)
   /\ (forall r, In r (computeSiteStats collationKey items) ->
         stat_count r
         = N.of_nat (length (filter (hasKey site_id (stat_site_id r)) items))))
  /\ (StronglySorted (ranksBefore collationKey sourceCount fst)
                     (groupBySource collationKey items)
      /\ (forall g, filter (tiedWith collationKey sourceCount fst g)
                           (groupBySource collationKey items)
                    = filter (tiedWith collationKey sourceCount fst g)
                             (groupBySource_groupMap items))
      /\ map fst (groupBySource_groupMap items)
         = firstSeen (map sourceKey items))
  /\ (StronglySorted (ranksBefore collationKey siteCount siteLabel)
                     (renderGroupedBySiteAndSource_sites collationKey items)
      /\ (forall g, filter (tiedWith collationKey siteCount siteLabel g)
                           (renderGroupedBySiteAndSource_sites collationKey items)
                    = filter (tiedWith collationKey siteCount siteLabel g)
                             (renderGroupedBySiteAndSource_siteMap items))
      /\ map fst (renderGroupedBySiteAndSource_siteMap items)
         = firstSeen (map site_id items)).
Proof.
  split; [|split].
  - split; [|split; [|split]].
    + apply (sorted_by_count_then_name _ _ _ siteStat_cmp_def).
    + intros r. apply (sort_keeps_ties _ _ _ siteStat_cmp_def).
    + unfold computeSiteStats_rows, Map_values.
      destruct (stat_rows_grouped items) as (_ & Hent & _).
      transitivity (map fst (fold_left computeSiteStats_step items [])).
      * rewrite map_map. apply map_ext_in. intros [k row] H. simpl.
        apply (Hent k row H).
      * apply (group_fold_keys site_id
                 (fun it => mkSiteStat (site_id it) (site_name it) 0 0)
                 (fun _ row => siteStat_bump row) items []).
    + intros r Hr. apply Array_sort_In in Hr.
      unfold computeSiteStats_rows, Map_values in Hr.
      apply in_map_iff in Hr. destruct Hr as ([k row] & <- & H). simpl.
      destruct (stat_rows_grouped items) as (_ & Hent & _).
      destruct (Hent k row H) as [(Hid & Hc & _) _].
      rewrite Hid. exact Hc.
  - split; [|split].
    + apply (sorted_by_count_then_name _ _ _ sourceGroup_cmp_def).
    + intros g. apply (sort_keeps_ties _ _ _ sourceGroup_cmp_def).
    + apply (group_fold_keys sourceKey (fun _ => [])
                             (fun it l => l ++ [it]) items []).
  - split; [|split].
    + apply (sorted_by_count_then_name _ _ _ siteGroup_cmp_def).
    + intros g. apply (sort_keeps_ties _ _ _ siteGroup_cmp_def).
    + apply (group_fold_keys site_id
               (fun it => mkSiteEntry (or_str (Some (site_name it)) (site_id it)) [])
               siteEntry_push items []).
Qed.

End Ordering.

(** The scenario of the specification: two items of two sites. *)
Example site_groups_of_two_sites :
  map (fun s => (fst s, siteItems (snd s)))
      (renderGroupedBySiteAndSource_sites Sample.collationKey
                                          [Sample.itemA; Sample.itemB])
  = [(js "X", [Sample.itemA]); (js "Y", [Sample.itemB])].
Proof. reflexivity. Qed.

Example source_groups_by_count :
  groupBySource Sample.collationKey
                [Sample.itemA; Sample.itemB; Sample.itemC]
  = [(js "blog", [Sample.itemB; Sample.itemC]); (js "news", [Sample.itemA])].
Proof. reflexivity. Qed.

End GroupingSpec.

(* ================================================================= *)
(** ** Titles *)
(* ================================================================= *)

Module TitleSpec.
Import JS Feed Spec Sample JSFacts.

(** C6, as stated, fails on the item template: an item with two distinct
    translated titles is shown by them, its [title] is not displayed. *)
Lemma bilingual_item_hides_title :
  node_title (Radar.renderItemNode Sample.formatDateTime itemBilingual)
  = Bilingual (js "发布") (js "Release")
  /\ node_title (Follow.renderItemNode Sample.formatDateTime itemBilingual)
     = Bilingual (js "发布") (js "Release")
  /\ preferredTitle itemBilingual = js "Launch".
Proof. repeat split. Qed.

Lemma or_str_truthy (o : option jsstring) (d t : jsstring) :
  o = Some t -> t <> [] -> or_str o d = t.
Proof. intros -> H. simpl. apply truthy_true in H. rewrite H. reflexivity. Qed.

Lemma or_str_falsy (o : option jsstring) (d : jsstring) :
  truthy_opt o = false -> or_str o d = d.
Proof. destruct o as [s|]; simpl; [intros ->|]; reflexivity. Qed.

(** C6, amended. [pickTitle] takes [title], else [title_zh], else
    [title_en], else a fixed text, a missing or empty field counting as
    absent.  The item template of both pages first trims [title_zh] and
    [title_en]: when both are non-empty and differ it shows the two of them
    and not [title]; otherwise it shows [title], else the trimmed
    [title_zh], else the trimmed [title_en]. *)
Theorem title_resolution (formatDateTime : jsstring -> option jsstring)
        (item : Item) :
  let zh := trim (or_str (title_zh item) []) in
  let en := trim (or_str (title_en item) []) in
  let shown := node_title (Radar.renderItemNode formatDateTime item) in
  (forall t, title item = Some t -> t <> [] -> VueApp.pickTitle item = t)
  /\ (forall t, truthy_opt (title item) = false ->
        title_zh item = Some t -> t <> [] -> VueApp.pickTitle item = t)
  /\ (forall t, truthy_opt (title item) = false ->
        truthy_opt (title_zh item) = false ->
        title_en item = Some t -> t <> [] -> VueApp.pickTitle item = t)
  /\ (truthy_opt (title item) = false ->
      truthy_opt (title_zh item) = false ->
      truthy_opt (title_en item) = false ->
      VueApp.pickTitle item = js "无标题")
  /\ node_title (Follow.renderItemNode formatDateTime item) = shown
  /\ (zh <> [] -> en <> [] -> zh <> en -> shown = Bilingual zh en)
  /\ (zh = [] \/ en = [] \/ zh = en ->
      (forall t, title item = Some t -> t <> [] -> shown = Plain t)
      /\ (truthy_opt (title item) = false -> zh <> [] -> shown = Plain zh)
      /\ (truthy_opt (title item) = false -> zh = [] -> shown = Plain en)).
Proof.
  intros zh en shown. unfold VueApp.pickTitle, or_opt.
  split; [|split; [|split; [|split; [|split; [|split]]]]].
  - intros t Ht Hne. rewrite Ht. simpl. apply truthy_true in Hne.
    rewrite Hne. simpl. rewrite Hne. reflexivity.
  - intros t H1 Ht Hne. rewrite H1, Ht. simpl. apply truthy_true in Hne.
    rewrite Hne. simpl. rewrite Hne. reflexivity.
  - intros t H1 H2 Ht Hne. rewrite H1, H2, Ht. simpl.
    apply truthy_true in Hne. rewrite Hne. reflexivity.
  - intros H1 H2 H3. rewrite H1, H2. apply or_str_falsy, H3.
  - reflexivity.
  - intros Hz He Hd. unfold shown, Radar.renderItemNode. simpl. fold zh en.
    apply truthy_true in Hz, He. apply str_eqb_neq in Hd.
    rewrite Hz, He, Hd. reflexivity.
  - intros Hcase.
    assert (Hplain : shown
                     = Plain (or_str (title item) (if truthy zh then zh else en))).
    { unfold shown, Radar.renderItemNode. simpl. fold zh en.
      destruct Hcase as [Hz | [He | Hd]].
      - apply truthy_false in Hz. rewrite Hz. reflexivity.
      - apply truthy_false in He. rewrite He, andb_false_r. reflexivity.
      - apply str_eqb_eq in Hd. rewrite Hd, andb_false_r. reflexivity. }
    rewrite Hplain. split; [|split].
    + intros t Ht Hne. rewrite (or_str_truthy _ _ t Ht Hne). reflexivity.
    + intros H1 Hz. rewrite (or_str_falsy _ _ H1).
      apply truthy_true in Hz. rewrite Hz. reflexivity.
    + intros H1 Hz. rewrite (or_str_falsy _ _ H1), Hz. reflexivity.
Qed.

Lemma title_resolution_witness :
  node_title (Radar.renderItemNode Sample.formatDateTime itemOnlyEnglish)
  = Plain (js "Release").
Proof.
  destruct (title_resolution Sample.formatDateTime itemOnlyEnglish)
    as (_ & _ & _ & _ & _ & _ & H).
  destruct H as (_ & _ & H3); [left; reflexivity|].
  apply H3; reflexivity.
Defined.

End TitleSpec.

(* ================================================================= *)
(** ** The loader *)
(* ================================================================= *)

Module LoaderSpec.
Import JS Feed Spec Sample JSFacts.

(** C7, as stated, fails: an ok status does not mean a payload is
    returned; when the body is not JSON the parse error is thrown. *)
Lemma ok_status_unparsable_body :
  ok okButUnparsable = true
  /\ fst (loadNewsData netUnparsable) = Throw JSONLite.syntaxError.
Proof. split; reflexivity. Qed.

Lemma loadNewsData_unfold (n : Network) (o : result Response)
      (rest : list (result Response)) :
  responses n = o :: rest ->
  loadNewsData n
  = (match o with
     | Ok res =>
         if negb (ok res) then
           Throw (mkExn Error
                    (js "加载 latest-24h.json 失败: " ++ decimal (status res)))
         else json res
     | Throw e => Throw e
     end,
     mkNetwork (clock n) rest (requests n ++ [snapshotUrl (clock n)])).
Proof.
  intros H. unfold loadNewsData, bindM, gets, fetch, Date_now. rewrite H.
  destruct o as [res|e]; [|reflexivity].
  destruct (negb (ok res)); [reflexivity|].
  unfold liftR. reflexivity.
Qed.

(** C7, amended. [loadNewsData] issues exactly one request, for the
    snapshot with the clock reading as its query parameter.  It returns a
    payload exactly when the response has an ok status and its body parses,
    and then returns the parsed body; for a status that is not ok it throws
    an Error whose message contains the decimal status; a failed fetch or a
    failed parse is thrown on as it is.  Nothing is retried: one outcome is
    consumed. *)
Theorem loadNewsData_contract (n : Network) (o : result Response)
        (rest : list (result Response)) :
  responses n = o :: rest ->
  (forall p, fst (loadNewsData n) = Ok p
             <-> exists r, o = Ok r /\ ok r = true /\ json r = Ok p)
  /\ (forall r, o = Ok r -> ok r = false ->
        exists e, fst (loadNewsData n) = Throw e
                  /\ exn_kind e = Error
                  /\ Substring (decimal (status r)) (message e))
  /\ (forall r, o = Ok r -> ok r = true -> fst (loadNewsData n) = json r)
  /\ (forall e, o = Throw e -> fst (loadNewsData n) = Throw e)
  /\ requests (snd (loadNewsData n))
     = requests n ++ [snapshotUrl (clock n)]
  /\ responses (snd (loadNewsData n)) = rest.
Proof.
  intros H. rewrite (loadNewsData_unfold n o rest H). simpl.
  split; [|split; [|split; [|split; [|split]]]]; try reflexivity.
  - intros p. split.
    + destruct o as [r|e]; [|discriminate].
      destruct (ok r) eqn:E; simpl; [|discriminate].
      intros Hj. exists r. auto.
    + intros (r & -> & E & Hj). rewrite E. simpl. exact Hj.
  - intros r -> E. rewrite E. simpl. eexists. split; [reflexivity|].
    split; [reflexivity|]. simpl.
    exists (js "加载 latest-24h.json 失败: "), []. rewrite app_nil_r. reflexivity.
  - intros r -> E. rewrite E. reflexivity.
  - intros e ->. reflexivity.
Qed.

Lemma loadNewsData_contract_witness :
  exists e, fst (loadNewsData netServerError) = Throw e
            /\ exn_kind e = Error
            /\ Substring (js "500") (message e).
Proof.
  destruct (loadNewsData_contract netServerError (Ok serverError) [] eq_refl)
    as (_ & H & _).
  apply (H serverError eq_refl eq_refl).
Defined.

(** The scenario of the specification: a response with status 500. *)
Example status_500_message :
  fst (loadNewsData netServerError)
  = Throw (mkExn Error (js "加载 latest-24h.json 失败: 500")).
Proof. reflexivity. Qed.

End LoaderSpec.

(* ================================================================= *)
(** ** Persistence of the accordion state *)
(* ================================================================= *)

Module PersistenceSpec.
Import JS Feed Radar Spec Sample JSFacts UriFacts.

Lemma readAccordionState_eq (JSON_parse : jsstring -> result jsval) (e : Env) :
  readAccordionState JSON_parse e
  = (Ok (storedAccordion JSON_parse (storage e)), e).
Proof.
  unfold readAccordionState, storedAccordion, tryM, bindM, liftR, ret.
  destruct (getItem ACCORDION_STORAGE_KEY (storage e)) as [[raw|]|err];
    try reflexivity.
  destruct (truthy raw); simpl; [|reflexivity].
  destruct (JSON_parse raw) as [parsed|err]; reflexivity.
Qed.

(** C9, as stated, fails in one respect: a saved blob that is a JSON array
    passes the [typeof] test and is returned as it is, so the result is not
    always a plain object. *)
Lemma array_blob_is_returned :
  fst (readAccordionState JSONLite.parse envArrayBlob) = Ok (JArray [] [])
  /\ isPlainObject (JArray [] []) = false.
Proof. split; reflexivity. Qed.

(** C9, amended. Neither function throws, whatever the store does.
    [readAccordionState] returns a non-null value of type object and leaves
    everything as it was: the empty object when the read throws, when
    nothing or an empty text is saved, when the text does not parse, or when
    it parses to something that is not an object; otherwise the parsed
    value itself, a plain object or an array.  [writeAccordionState]
    returns normally whether or not the store accepted the write, and
    touches nothing but the store. *)
Theorem storage_failures_swallowed
        (JSON_parse : jsstring -> result jsval)
        (JSON_stringify : jsval -> result jsstring) (e : Env) :
  (exists v,
      readAccordionState JSON_parse e = (Ok v, e)
      /\ jv_truthy v = true /\ typeof_object v = true
      /\ (isPlainObject v = true \/ exists elems own, v = JArray elems own)
      /\ (forall err, getItem ACCORDION_STORAGE_KEY (storage e) = Throw err ->
            v = JObject [])
      /\ (getItem ACCORDION_STORAGE_KEY (storage e) = Ok None -> v = JObject [])
      /\ (getItem ACCORDION_STORAGE_KEY (storage e) = Ok (Some []) ->
            v = JObject [])
      /\ (forall raw err,
            getItem ACCORDION_STORAGE_KEY (storage e) = Ok (Some raw) ->
            JSON_parse raw = Throw err -> v = JObject [])
      /\ (forall raw parsed,
            getItem ACCORDION_STORAGE_KEY (storage e) = Ok (Some raw) ->
            JSON_parse raw = Ok parsed ->
            jv_truthy parsed && typeof_object parsed = false ->
            v = JObject [])
      /\ (forall raw parsed,
            getItem ACCORDION_STORAGE_KEY (storage e) = Ok (Some raw) ->
            raw <> [] ->
            JSON_parse raw = Ok parsed ->
            jv_truthy parsed && typeof_object parsed = true ->
            v = parsed))
  /\ (exists s',
        writeAccordionState JSON_stringify e = (Ok tt, with_storage s' e)
        /\ (s' = storage e
            \/ exists text,
                 JSON_stringify
                   (if jv_truthy (accordionState (st e))
                    then accordionState (st e) else JObject [])
                 = Ok text
                 /\ setItem ACCORDION_STORAGE_KEY text (storage e) = Ok s')).
Proof.
  split.
  - exists (storedAccordion JSON_parse (storage e)).
    split; [apply readAccordionState_eq|].
    assert (Hshape : forall w, jv_truthy w = true -> typeof_object w = true ->
                       isPlainObject w = true
                       \/ exists elems own, w = JArray elems own).
    { intros [| | | |elems own|props]; simpl; intros; try discriminate;
        [right; eauto | left; reflexivity]. }
    unfold storedAccordion.
    destruct (getItem ACCORDION_STORAGE_KEY (storage e)) as [[raw|]|err0];
      [destruct (truthy raw) eqn:Et;
       [destruct (JSON_parse raw) as [parsed|err1] eqn:Ep;
        [destruct (jv_truthy parsed && typeof_object parsed) eqn:Eo;
         [pose proof Eo as Eo'; apply andb_true_iff in Eo';
          destruct Eo' as [E1 E2]|]|]|]| |];
      repeat split; try assumption; try reflexivity;
        try (apply Hshape; (assumption || reflexivity)); intros;
        try congruence;
        match goal with
        | H : Ok (Some _) = Ok (Some _) |- _ => inversion H; subst
        end; simpl in *; try congruence;
        apply truthy_false in Et; congruence.
  - unfold writeAccordionState, tryM. cbv zeta.
    destruct (JSON_stringify _) as [text|err] eqn:Et; simpl.
    + destruct (setItem ACCORDION_STORAGE_KEY text (storage e))
        as [s'|err] eqn:E.
      * exists s'. split; [reflexivity|]. right. exists text. auto.
      * exists (storage e). split; [|left; reflexivity].
        destruct e; reflexivity.
    + exists (storage e). split; [|left; reflexivity].
      destruct e; reflexivity.
Qed.

Lemma storage_failures_swallowed_witness :
  exists v, readAccordionState JSONLite.parse envArrayBlob
            = (Ok v, envArrayBlob)
            /\ v = JArray [] [].
Proof.
  destruct (storage_failures_swallowed JSONLite.parse JSONLite.JSON_stringify
                                       envArrayBlob)
    as [(v & Hread & _ & _ & _ & _ & _ & _ & _ & _ & Hparsed) _].
  exists v. split; [exact Hread|].
  apply (Hparsed (js "[]") (JArray [] [])); try reflexivity. discriminate.
Defined.

(** *** Accordion ids *)

Lemma or_str_some_nil (s : jsstring) : or_str (Some s) [] = s.
Proof. destruct s; reflexivity. Qed.

Lemma makeAccordionId_inv (parts : list (option jsstring)) (id : jsstring) :
  makeAccordionId parts = Ok id ->
  exists encoded,
    Forall2 (fun x y => encodeURIComponent (or_str x []) = Ok y) parts encoded
    /\ id = join (js "|") encoded.
Proof.
  unfold makeAccordionId. intros H. apply bind_Ok in H.
  destruct H as (encoded & Hm & H). inversion H; subst.
  exists encoded. split; [apply mapM_Ok_inv, Hm | reflexivity].
Qed.

Lemma encoded_parts_same (p1 p2 : list (option jsstring))
      (encoded : list jsstring) :
  Forall2 (fun x y => encodeURIComponent (or_str x []) = Ok y) p1 encoded ->
  Forall2 (fun x y => encodeURIComponent (or_str x []) = Ok y) p2 encoded ->
  map (fun x => or_str x []) p1 = map (fun x => or_str x []) p2.
Proof.
  intros H1. revert p2. induction H1 as [|x y r ys Hx Hr IH]; intros p2 H2.
  - inversion H2. reflexivity.
  - inversion H2 as [|x' y' r' ys' Hx' Hr']; subst. simpl. f_equal.
    + apply (encodeURIComponent_inj _ _ y); assumption.
    + apply IH, Hr'.
Qed.

Lemma makeAccordionId_parts (p1 p2 : list (option jsstring)) (id : jsstring) :
  p1 <> [] -> p2 <> [] ->
  makeAccordionId p1 = Ok id -> makeAccordionId p2 = Ok id ->
  map (fun x => or_str x []) p1 = map (fun x => or_str x []) p2.
Proof.
  intros N1 N2 H1 H2.
  destruct (makeAccordionId_inv _ _ H1) as (e1 & F1 & E1).
  destruct (makeAccordionId_inv _ _ H2) as (e2 & F2 & E2).
  assert (Hbar : forall p l,
             Forall2 (fun x y => encodeURIComponent (or_str x []) = Ok y) p l ->
             forall y, In y l -> ~ In 124%N y).
  { intros p l F. induction F as [|x y r ys Hx Hr IH]; intros z Hz.
    - destruct Hz.
    - destruct Hz as [<- | Hz].
      + eapply encode_no_bar; [apply le_n | exact Hx].
      + apply IH; assumption. }
  assert (e1 = e2).
  { apply (join_inj 124%N).
    - apply (Hbar _ _ F1).
    - apply (Hbar _ _ F2).
    - intros ->. inversion F1. congruence.
    - intros ->. inversion F2. congruence.
    - rewrite E1 in E2. exact E2. }
  subst e2. apply (encoded_parts_same _ _ e1); assumption.
Qed.

Lemma Map_get_set_same {V} (k : jsstring) (v : V) (m : list (jsstring * V)) :
  Map_get str_eqb k (Map_set str_eqb k v m) = Some v.
Proof.
  induction m as [|[k' v'] r IH]; simpl.
  - rewrite str_eqb_refl. reflexivity.
  - destruct (str_eqb k k') eqn:E; simpl; rewrite E; [reflexivity | exact IH].
Qed.

(** C10, as stated, fails in its second part: [makeAccordionId] sends the
    empty list of parts and the list holding one empty part to the same id,
    and a missing part to the same id as an empty one. *)
Lemma makeAccordionId_collisions :
  makeAccordionId [] = makeAccordionId [Some (js "")]
  /\ makeAccordionId [Some (js "site"); None]
     = makeAccordionId [Some (js "site"); Some (js "")]
  /\ makeAccordionId [Some (js "site"); None] = Ok (js "site|").
Proof. repeat split. Qed.

(** C10, amended. When the accordion state in memory is a plain object,
    JSON.stringify writes it and the store accepts the text, and JSON.parse
    gives back the map that was written (the empty text never parsing),
    then after the toggle listener has recorded [b] for an id (other than
    the reserved name [__proto__]) a later [readAccordionState], on any page
    whose store is the one just written, returns a map whose value at the
    id is [b].  [makeAccordionId] is injective on non-empty lists of parts,
    a missing part counting as the empty string: so ids of string parts are
    equal only when the parts are, a site-level id never equals a
    source-level id, and no id of two or more parts is the reserved name. *)
Theorem accordion_roundtrip_and_ids {engine : Engine} :
  (forall (JSON_parse : jsstring -> result jsval)
          (JSON_stringify : jsval -> result jsstring)
          (e : Env) (id text : jsstring) (b : bool)
          (props : list (jsstring * jsval)),
      let written := JObject (Map_set str_eqb id (JBool b) props) in
      accordionState (st e) = JObject props ->
      id <> PROTO ->
      JSON_stringify written = Ok text ->
      blocked (storage e) = false ->
      (length text <= quota (storage e))%nat ->
      JSON_parse text = Ok written ->
      (forall v, JSON_parse [] <> Ok v) ->
      exists e1,
        onToggle JSON_stringify id b e = (Ok tt, e1)
        /\ forall e2, storage e2 = storage e1 ->
             exists v,
               readAccordionState JSON_parse e2 = (Ok v, e2)
               /\ getProp v id = Ok (Some (JBool b))
               /\ forall s d,
                    bindAccordionState (set_accordionState v s) id d = Ok b)
  /\ (forall (p1 p2 : list (option jsstring)) (id : jsstring),
        p1 <> [] -> p2 <> [] ->
        makeAccordionId p1 = Ok id -> makeAccordionId p2 = Ok id ->
        map (fun x => or_str x []) p1 = map (fun x => or_str x []) p2)
  /\ (forall (l1 l2 : list jsstring) (id : jsstring),
        l1 <> [] -> l2 <> [] ->
        makeAccordionId (map Some l1) = Ok id ->
        makeAccordionId (map Some l2) = Ok id -> l1 = l2)
  /\ (forall (siteId ctx name id : jsstring),
        makeAccordionId [Some (js "site"); Some siteId] = Ok id ->
        makeAccordionId [Some (js "source"); Some ctx; Some name] <> Ok id)
  /\ (forall (p q : option jsstring) (rest : list (option jsstring))
             (id : jsstring),
        makeAccordionId (p :: q :: rest) = Ok id -> id <> PROTO).
Proof.
  split; [|split; [|split; [|split]]].
  - intros JSON_parse JSON_stringify e id text b props written Hobj Hid Htext
           Hopen Hquota Hjson Hempty.
    assert (Htruthy : truthy text = true).
    { apply truthy_true. intros E. rewrite E in Hjson.
      apply (Hempty _ Hjson). }
    set (s1 := mkStorage false (quota (storage e))
                         (Map_set str_eqb ACCORDION_STORAGE_KEY text
                                  (slots (storage e)))).
    exists (with_storage s1 (with_st (set_accordionState written) e)).
    split.
    + unfold onToggle, bindM, gets, liftR, modify. rewrite Hobj.
      unfold setFlag. apply str_eqb_neq in Hid. rewrite Hid. simpl andb.
      cbv iota beta. unfold writeAccordionState, tryM. cbv zeta.
      simpl accordionState. fold written. simpl jv_truthy. cbv iota.
      rewrite Htext. simpl bind.
      unfold setItem. simpl storage. rewrite Hopen.
      apply Nat.ltb_ge in Hquota. rewrite Hquota. reflexivity.
    + intros e2 He2. exists written.
      rewrite readAccordionState_eq. unfold storedAccordion.
      rewrite He2. simpl storage. unfold getItem. simpl blocked. cbv iota.
      simpl slots. rewrite Map_get_set_same, Htruthy, Hjson. simpl.
      split; [reflexivity|]. rewrite Map_get_set_same.
      split; [reflexivity|]. intros s d. unfold bindAccordionState. simpl.
      rewrite Map_get_set_same. reflexivity.
  - apply makeAccordionId_parts.
  - intros l1 l2 id N1 N2 H1 H2.
    assert (H : map (fun x => or_str x []) (map Some l1)
                = map (fun x => or_str x []) (map Some l2)).
    { apply (makeAccordionId_parts _ _ id); try assumption.
      - destruct l1; [congruence | discriminate].
      - destruct l2; [congruence | discriminate]. }
    rewrite !map_map in H.
    rewrite (map_ext _ (fun s => s) or_str_some_nil) in H.
    rewrite (map_ext _ (fun s => s) or_str_some_nil l2) in H.
    rewrite !map_id in H. exact H.
  - intros siteId ctx name id H1 H2.
    assert (H : map (fun x => or_str x []) [Some (js "site"); Some siteId]
                = map (fun x => or_str x [])
                      [Some (js "source"); Some ctx; Some name])
      by (apply (makeAccordionId_parts _ _ id); try assumption; discriminate).
    discriminate H.
  - intros p q rest id H Hid. rewrite Hid in H.
    assert (Hp : makeAccordionId [Some PROTO] = Ok PROTO) by reflexivity.
    assert (E : map (fun x => or_str x []) (p :: q :: rest)
                = map (fun x => or_str x []) [Some PROTO])
      by (apply (makeAccordionId_parts _ _ PROTO); try assumption;
          discriminate).
    discriminate E.
Qed.

Section PersistenceExamples.
#[local] Existing Instance Sample.engine.

Lemma accordion_roundtrip_and_ids_witness :
  exists e1,
    onToggle JSONLite.JSON_stringify panelId true freshEnv = (Ok tt, e1)
    /\ exists v,
         readAccordionState JSONLite.parse
                            (mkEnv state0 blankDom (storage e1) idleNet)
         = (Ok v, mkEnv state0 blankDom (storage e1) idleNet)
         /\ getProp v panelId = Ok (Some (JBool true)).
Proof.
  destruct accordion_roundtrip_and_ids as [H _].
  destruct (H JSONLite.parse JSONLite.JSON_stringify freshEnv panelId
              (JSONLite.stringify (JObject [(panelId, JBool true)])) true [])
    as (e1 & Ht & Hr).
  - reflexivity.
  - discriminate.
  - reflexivity.
  - reflexivity.
  - vm_compute. lia.
  - reflexivity.
  - intros v. discriminate.
  - exists e1. split; [exact Ht|].
    destruct (Hr (mkEnv state0 blankDom (storage e1) idleNet) eq_refl)
      as (v & Hv & Hg & _).
    exists v. split; assumption.
Defined.

(** Why the state must be a plain object: an array that came from the
    store takes the flag as a named property, which is not written. *)
Example array_state_is_not_saved :
  let e := mkEnv (set_accordionState (JArray [] []) state0) blankDom
                 emptyStorage idleNet in
  let e1 := snd (onToggle JSONLite.JSON_stringify panelId true e) in
  accordionState (st e1) = JArray [] [(panelId, JBool true)]
  /\ getItem ACCORDION_STORAGE_KEY (storage e1) = Ok (Some (js "[]"))
  /\ fst (readAccordionState JSONLite.parse e1) = Ok (JArray [] []).
Proof. repeat split. Qed.

End PersistenceExamples.

End PersistenceSpec.

(* ================================================================= *)
(** ** The scenarios of the specification, run on the model *)
(* ================================================================= *)

Module Scenarios.
Import JS Feed Sample.

Section Examples.
#[local] Existing Instance Sample.engine.

(** Items A (site X) and B (site Y), no filter, empty query: two site
    groups, and the count text of two items. *)
Example two_sites_no_filter :
  Radar.getFilteredItems (Radar.st loaded) = [itemA; itemB]
  /\ Radar.resultCount (Radar.dom loaded) = js "2 条"
  /\ headings (Radar.newsList (Radar.dom loaded))
     = [(Radar.siteGroupMarkup (js "Site X") (js "1"), js "site|X");
        (Radar.siteGroupMarkup (js "Site Y") (js "1"), js "site|Y")].
Proof. vm_compute. repeat split. Qed.

(** The same snapshot with the site filter set to X: one item, grouped by
    source only. *)
Example two_sites_filter_X :
  let e := snd (Radar.onSiteChange collationKey formatNumber formatDateTime
                                   (js "X") loaded) in
  Radar.getFilteredItems (Radar.st e) = [itemA]
  /\ Radar.resultCount (Radar.dom e) = js "1 条"
  /\ headings (Radar.newsList (Radar.dom e))
     = [(Radar.sourceGroupMarkup (js "news") (js "1"),
         js "source|site%3AX|news")].
Proof. vm_compute. repeat split. Qed.

(** Switching to the other mode shows the other array, untouched. *)
Example mode_all_shows_all_items :
  let e := snd (Radar.onModeClick collationKey formatNumber formatDateTime
                                  Radar.ModeAll
                                  (Radar.with_st (fun _ => stateBlankQuery)
                                                 loaded)) in
  Radar.getFilteredItems (Radar.st e) = [itemC]
  /\ Radar.itemsAi (Radar.st e) = [itemA; itemB].
Proof. vm_compute. repeat split. Qed.

End Examples.

End Scenarios.

(* ================================================================= *)
(** ** Decimal numerals *)
(* ================================================================= *)

(** The digits [decimal] writes: the ten digit characters, at least one,
    and a different text for each number. *)
Module TextFacts.
Import JS Feed Spec JSFacts UriFacts.
Open Scope N_scope.

(** The text of a decimal numeral. *)
Lemma digits_text (d : Decimal.uint) :
  js (NilEmpty.string_of_uint d)
  = map N_of_ascii (list_ascii_of_string (NilEmpty.string_of_uint d))
  /\ forall c, In c (js (NilEmpty.string_of_uint d)) -> 48 <= c <= 57.
Proof.
  unfold js.
  induction d as [|d [IH1 IH2]|d [IH1 IH2]|d [IH1 IH2]|d [IH1 IH2]
                  |d [IH1 IH2]|d [IH1 IH2]|d [IH1 IH2]|d [IH1 IH2]
                  |d [IH1 IH2]|d [IH1 IH2]];
    cbn [NilEmpty.string_of_uint list_ascii_of_string map];
    [split; [reflexivity | intros c []] | ..];
    (rewrite utf16_1 by (vm_compute; reflexivity);
     split;
     [ f_equal; exact IH1
     | intros c [<- | Hc];
       [vm_compute; split; discriminate | apply IH2, Hc] ]).
Qed.

Lemma decimal_digits (n c : N) : In c (decimal n) -> 48 <= c <= 57.
Proof. apply digits_text. Qed.

Lemma digits_inj (d1 d2 : Decimal.uint) :
  js (NilEmpty.string_of_uint d1) = js (NilEmpty.string_of_uint d2) -> d1 = d2.
Proof.
  rewrite (proj1 (digits_text d1)), (proj1 (digits_text d2)).
  revert d2; induction d1; intros d2; destruct d2;
    cbn [NilEmpty.string_of_uint list_ascii_of_string map]; intros H;
    try reflexivity; try discriminate H;
    inversion H; f_equal; auto.
Qed.

Lemma decimal_inj (a b : N) : decimal a = decimal b -> a = b.
Proof. intros H. apply Unsigned.to_uint_inj, digits_inj, H. Qed.

Lemma decimal_nonempty (n : N) : decimal n <> [].
Proof.
  unfold decimal. intros H.
  assert (E : N.to_uint n = Decimal.Nil).
  { apply digits_inj. rewrite H. reflexivity. }
  destruct n as [|p]; [discriminate|].
  exact (DecimalPos.Unsigned.to_uint_nonnil p E).
Qed.

End TextFacts.

(* ================================================================= *)
(** ** Well-formed strings and accordion ids *)
(* ================================================================= *)

(** [encodeURIComponent] is defined exactly on the well-formed strings,
    and so is [makeAccordionId] on its parts. *)
Module IdFacts.
Import JS Feed Radar Spec Views JSFacts UriFacts.
Open Scope N_scope.

Lemma unreserved_not_surrogate (c : N) :
  unreserved c = true ->
  isHighSurrogate c = false /\ isLowSurrogate c = false /\ (c <? 0x10000) = true.
Proof.
  intros H. destruct (unreserved_facts c H) as (_ & _ & Hc).
  unfold isHighSurrogate, isLowSurrogate.
  repeat split; [apply andb_false_iff; left; apply N.leb_gt; lia
                | apply andb_false_iff; left; apply N.leb_gt; lia
                | apply N.ltb_lt; lia].
Qed.

Lemma wellFormed_cons (c : N) (rest : jsstring) :
  wellFormed (c :: rest)
  = if isHighSurrogate c then
      match rest with
      | d :: rest' => isLowSurrogate d && wellFormed rest'
      | [] => false
      end
    else negb (isLowSurrogate c) && (c <? 0x10000) && wellFormed rest.
Proof. reflexivity. Qed.

(** [encodeURIComponent] returns exactly on the well-formed strings, and
    raises URIError on the others. *)
Lemma encode_defined : forall (n : nat) (s : jsstring),
  (length s <= n)%nat ->
  if wellFormed s then exists e, encodeURIComponent s = Ok e
  else encodeURIComponent s = Throw uriMalformed.
Proof.
  induction n as [|n IH]; intros s Hlen.
  - destruct s; [|simpl in Hlen; lia]. simpl. eauto.
  - destruct s as [|c rest]; [simpl; eauto|].
    rewrite encode_cons, wellFormed_cons. simpl in Hlen.
    destruct (unreserved c) eqn:Eu.
    { destruct (unreserved_not_surrogate c Eu) as (-> & -> & ->). simpl.
      specialize (IH rest ltac:(lia)).
      destruct (wellFormed rest).
      - destruct IH as [e ->]. simpl. eauto.
      - rewrite IH. reflexivity. }
    destruct (isHighSurrogate c).
    { destruct rest as [|d rest']; [reflexivity|].
      destruct (isLowSurrogate d); simpl; [|reflexivity].
      specialize (IH rest' ltac:(simpl in Hlen; lia)).
      destruct (wellFormed rest').
      - destruct IH as [e ->]. simpl. eauto.
      - rewrite IH. reflexivity. }
    destruct (isLowSurrogate c); simpl; [reflexivity|].
    destruct (c <? 0x10000); simpl; [|reflexivity].
    specialize (IH rest ltac:(lia)).
    destruct (wellFormed rest).
    + destruct IH as [e ->]. simpl. eauto.
    + rewrite IH. reflexivity.
Qed.

Lemma encode_wellFormed (s : jsstring) :
  wellFormed s = true -> exists e, encodeURIComponent s = Ok e.
Proof.
  intros H. pose proof (encode_defined _ s (le_n _)) as D.
  rewrite H in D. exact D.
Qed.

Lemma encode_malformed (s : jsstring) :
  wellFormed s = false -> encodeURIComponent s = Throw uriMalformed.
Proof.
  intros H. pose proof (encode_defined _ s (le_n _)) as D.
  rewrite H in D. exact D.
Qed.

Lemma encode_unreserved (s : jsstring) :
  forallb unreserved s = true -> encodeURIComponent s = Ok s.
Proof.
  induction s as [|c r IH]; [reflexivity|].
  cbn [forallb]. rewrite andb_true_iff. intros [Hc Hr].
  rewrite encode_cons, Hc, (IH Hr). reflexivity.
Qed.

(** An encoded string is made of ASCII characters. *)
Lemma encode_ascii : forall (n : nat) (s e : jsstring),
  (length s <= n)%nat -> encodeURIComponent s = Ok e ->
  Forall (fun c => c < 128) e.
Proof.
  induction n as [|n IH]; intros s e Hlen H.
  - destruct s; [|simpl in Hlen; lia]. simpl in H. inversion H. constructor.
  - destruct s as [|c rest]; [simpl in H; inversion H; constructor|].
    rewrite encode_cons in H. simpl in Hlen.
    assert (Hpct : forall cp, cp < 0x110000 ->
                     Forall (fun c => c < 128) (pctEncode cp)).
    { intros cp Hcp. apply Forall_forall. intros x Hx.
      apply pctEncode_chars in Hx; [lia | exact Hcp]. }
    destruct (unreserved c) eqn:Eu.
    { apply bind_Ok in H. destruct H as (e' & He' & H). inversion H; subst.
      destruct (unreserved_facts c Eu) as (_ & _ & H128).
      constructor; [exact H128 | apply (IH rest); [lia | assumption]]. }
    destruct (isHighSurrogate c) eqn:Eh.
    { destruct rest as [|d rest']; [discriminate|].
      destruct (isLowSurrogate d) eqn:El; [|discriminate].
      apply bind_Ok in H. destruct H as (e' & He' & H). inversion H; subst.
      unfold isHighSurrogate, isLowSurrogate in Eh, El.
      rewrite !andb_true_iff, !N.leb_le in Eh, El.
      apply Forall_app. split.
      - apply Hpct. unfold pairCodePoint. lia.
      - apply (IH rest'); [simpl in Hlen; lia | assumption]. }
    destruct (isLowSurrogate c) eqn:El; [discriminate|].
    destruct (c <? 0x10000) eqn:Ec; [|discriminate].
    apply N.ltb_lt in Ec.
    apply bind_Ok in H. destruct H as (e' & He' & H). inversion H; subst.
    apply Forall_app. split; [apply Hpct; lia|].
    apply (IH rest); [lia | assumption].
Qed.

Lemma join_ascii (l : list jsstring) :
  Forall (Forall (fun c => c < 128)) l ->
  Forall (fun c => c < 128) (join (js "|") l).
Proof.
  induction 1 as [|p r Hp Hr IH]; [constructor|].
  destruct r as [|q r]; [exact Hp|].
  change (join (js "|") (p :: q :: r))
    with (p ++ js "|" ++ join (js "|") (q :: r)).
  apply Forall_app. split; [exact Hp|].
  apply Forall_app. split; [|exact IH].
  constructor; [reflexivity | constructor].
Qed.

(** *** mapM *)

Lemma mapM_all_Ok {A B} (f : A -> result B) (l : list A) :
  (forall x, In x l -> exists y, f x = Ok y) -> exists ys, mapM f l = Ok ys.
Proof.
  induction l as [|x r IH]; intros H; simpl; [eauto|].
  destruct (H x (or_introl eq_refl)) as [y ->].
  destruct IH as [ys ->]; [intros; apply H; right; assumption|].
  simpl. eauto.
Qed.

Lemma mapM_first_Throw {A B} (f : A -> result B) (l : list A) (e : exn) :
  mapM f l = Throw e -> exists x, In x l /\ f x = Throw e.
Proof.
  induction l as [|x r IH]; simpl; [discriminate|].
  destruct (f x) as [y|e'] eqn:E; simpl.
  - destruct (mapM f r) as [ys|e''] eqn:Er; simpl; [discriminate|].
    intros H. inversion H; subst. destruct (IH eq_refl) as (x' & Hin & Hx').
    exists x'. auto.
  - intros H. inversion H; subst. exists x. auto.
Qed.

Lemma Forall2_length_eq {A B} (R : A -> B -> Prop) (l : list A) (l' : list B) :
  Forall2 R l l' -> length l = length l'.
Proof. induction 1; simpl; congruence. Qed.

Lemma Forall2_map_eq {A B C} (R : A -> B -> Prop) (f : A -> C) (g : B -> C)
      (l : list A) (l' : list B) :
  Forall2 R l l' -> (forall a b, R a b -> g b = f a) -> map g l' = map f l.
Proof. induction 1; simpl; intros E; [reflexivity|]. f_equal; auto. Qed.

(** *** makeAccordionId *)

Lemma makeAccordionId_defined (parts : list (option jsstring)) :
  if forallb (fun x => wellFormed (or_str x [])) parts
  then exists id, makeAccordionId parts = Ok id
  else makeAccordionId parts = Throw uriMalformed.
Proof.
  unfold makeAccordionId.
  induction parts as [|x r IH]; [simpl; eauto|].
  cbn [forallb mapM].
  destruct (wellFormed (or_str x [])) eqn:Ex.
  - destruct (encode_wellFormed _ Ex) as [y ->]. simpl.
    destruct (forallb _ r).
    + destruct IH as [id IH]. apply bind_Ok in IH. destruct IH as (ys & -> & _).
      simpl. eauto.
    + destruct (mapM _ r); simpl in *; [discriminate | exact IH].
  - rewrite (encode_malformed _ Ex). reflexivity.
Qed.

Lemma makeAccordionId_Some (l : list jsstring) :
  forallb wellFormed l = true -> exists id, makeAccordionId (map Some l) = Ok id.
Proof.
  intros H. pose proof (makeAccordionId_defined (map Some l)) as D.
  replace (forallb (fun x => wellFormed (or_str x [])) (map Some l))
    with (forallb wellFormed l) in D.
  - rewrite H in D. exact D.
  - clear. induction l as [|s r IH]; simpl; [reflexivity|].
    rewrite IH. destruct s; reflexivity.
Qed.

Lemma makeAccordionId_Some_inj (l1 l2 : list jsstring) (id : jsstring) :
  l1 <> [] -> l2 <> [] ->
  makeAccordionId (map Some l1) = Ok id ->
  makeAccordionId (map Some l2) = Ok id -> l1 = l2.
Proof.
  intros N1 N2 H1 H2.
  assert (H : map (fun x => or_str x []) (map Some l1)
              = map (fun x => or_str x []) (map Some l2)).
  { apply (PersistenceSpec.makeAccordionId_parts _ _ id); try assumption.
    - destruct l1; [congruence | discriminate].
    - destruct l2; [congruence | discriminate]. }
  rewrite !map_map in H.
  rewrite (map_ext _ (fun s => s) PersistenceSpec.or_str_some_nil) in H.
  rewrite (map_ext _ (fun s => s) PersistenceSpec.or_str_some_nil l2) in H.
  rewrite !map_id in H. exact H.
Qed.

(** *** The accordion map *)

Lemma Map_get_set_other {V} (k k' : jsstring) (v : V) (m : list (jsstring * V)) :
  k' <> k -> Map_get str_eqb k' (Map_set str_eqb k v m) = Map_get str_eqb k' m.
Proof.
  intros Hne. induction m as [|[k0 v0] r IH]; simpl.
  - apply str_eqb_neq in Hne. rewrite Hne. reflexivity.
  - destruct (str_eqb k k0) eqn:E; simpl.
    + apply str_eqb_eq in E. subst k0. apply str_eqb_neq in Hne.
      rewrite Hne. reflexivity.
    + destruct (str_eqb k' k0); [reflexivity | exact IH].
Qed.

Lemma mapM_unreserved (l : list jsstring) :
  forallb (forallb unreserved) l = true ->
  mapM (fun x => encodeURIComponent (or_str x [])) (map Some l) = Ok l.
Proof.
  induction l as [|s r IH]; [reflexivity|].
  cbn [forallb map mapM]. rewrite andb_true_iff. intros [Hs Hr].
  rewrite PersistenceSpec.or_str_some_nil, (encode_unreserved s Hs), (IH Hr).
  reflexivity.
Qed.


End IdFacts.

(* ================================================================= *)
(** ** The outcomes of [renderList] *)
(* ================================================================= *)

(** What [renderList] computes when it returns, and when it throws. *)
Module RenderFacts.
Import JS Feed Radar Spec Views JSFacts UriFacts IdFacts.

Section Platform.
Context {engine : Engine}.
Variable collationKey : jsstring -> list N.
Variable formatNumber : N -> jsstring.
Variable formatDateTime : jsstring -> option jsstring.

(** [renderList], step by step. *)
Lemma renderList_unfold (e : Env) :
  Radar.renderList collationKey formatNumber formatDateTime e
  = let s := st e in
    let filtered := getFilteredItems s in
    let shown nodes :=
      with_dom
        (fun d =>
           set_newsList nodes
             (set_resultCount
                (Radar.countText formatNumber (length filtered)) d)) e in
    match filtered with
    | [] => (Ok tt, shown [EmptyNote (js "当前筛选条件下没有结果。")])
    | _ :: _ =>
      if truthy (siteFilter s) then
        match mapM (fun g : jsstring * list Item =>
                      bind (makeAccordionId
                              [Some (js "source");
                               Some (js "site:" ++ siteFilter s);
                               Some (fst g)])
                           (fun accordionId =>
                              Radar.buildSourceGroupNode
                                formatNumber formatDateTime s (fst g) (snd g)
                                accordionId))
                   (Radar.groupBySource collationKey filtered) with
        | Ok secs => (Ok tt, shown (map SourceNode secs))
        | Throw x => (Throw x, shown [])
        end
      else
        match mapM (Radar.renderSiteSection collationKey formatNumber
                                            formatDateTime s)
                   (renderGroupedBySiteAndSource_sites collationKey filtered)
        with
        | Ok secs => (Ok tt, shown (map SiteNode secs))
        | Throw x => (Throw x, shown [])
        end
    end.
Proof.
  destruct e as [s d sto n]. cbv zeta. cbn [st].
  unfold Radar.renderList, bindM, gets, modify. cbn [st with_dom].
  destruct (getFilteredItems s) as [|it0 flt]; [reflexivity|].
  cbn [length Nat.eqb st with_dom]. cbv beta iota.
  destruct (truthy (siteFilter s)) eqn:Et.
  - unfold renderGroupedBySource, bindM, gets, liftR. cbn [st with_dom].
    rewrite Et.
    match goal with
    | |- context [mapM ?F ?L] => destruct (mapM F L)
    end; reflexivity.
  - unfold renderGroupedBySiteAndSource, bindM, gets, liftR. cbn [st with_dom].
    match goal with
    | |- context [mapM ?F ?L] => destruct (mapM F L)
    end; reflexivity.
Qed.

(** The outcome of [renderList] and the nodes it leaves depend on the state
    only; it writes the count and the list. *)
Lemma renderList_sem (s : State) :
  exists (r : result unit) (nodes : list NewsNode),
    forall e, st e = s ->
      Radar.renderList collationKey formatNumber formatDateTime e
      = (r, with_dom
              (fun d =>
                 set_newsList nodes
                   (set_resultCount
                      (Radar.countText formatNumber
                                       (length (getFilteredItems s))) d)) e).
Proof.
  destruct (getFilteredItems s) as [|it0 flt] eqn:Ef.
  - eexists _, _. intros e <-. rewrite renderList_unfold. cbv zeta.
    rewrite Ef. reflexivity.
  - destruct (truthy (siteFilter s)) eqn:Et.
    + destruct (mapM (fun g : jsstring * list Item =>
                        bind (makeAccordionId
                                [Some (js "source");
                                 Some (js "site:" ++ siteFilter s);
                                 Some (fst g)])
                             (fun accordionId =>
                                Radar.buildSourceGroupNode
                                  formatNumber formatDateTime s (fst g) (snd g)
                                  accordionId))
                     (Radar.groupBySource collationKey (it0 :: flt)))
        as [secs|x] eqn:Em.
      * exists (Ok tt), (map SourceNode secs). intros e <-.
        rewrite renderList_unfold. cbv zeta. rewrite Ef, Et, Em. reflexivity.
      * exists (Throw x), []. intros e <-.
        rewrite renderList_unfold. cbv zeta. rewrite Ef, Et, Em. reflexivity.
    + destruct (mapM (Radar.renderSiteSection collationKey formatNumber
                                              formatDateTime s)
                     (renderGroupedBySiteAndSource_sites collationKey
                                                         (it0 :: flt)))
        as [secs|x] eqn:Em.
      * exists (Ok tt), (map SiteNode secs). intros e <-.
        rewrite renderList_unfold. cbv zeta. rewrite Ef, Et, Em. reflexivity.
      * exists (Throw x), []. intros e <-.
        rewrite renderList_unfold. cbv zeta. rewrite Ef, Et, Em. reflexivity.
Qed.

Lemma renderList_after (e : Env) :
  exists r W,
    Radar.renderList collationKey formatNumber formatDateTime e
    = (r, with_dom W e).
Proof.
  destruct (renderList_sem (st e)) as (r & nodes & H).
  eexists r, _. apply H. reflexivity.
Qed.

(** *** One panel *)

Lemma getProp_nonnull (a : jsval) (id : jsstring) :
  a <> JNull -> exists saved, getProp a id = Ok saved.
Proof.
  destruct a as [| | | |elems own|props]; simpl; intros H; eauto.
  - congruence.
  - destruct (str_eqb id LENGTH); [eauto|].
    destruct (arrayIndex id); eauto.
Qed.

Lemma bindAccordionState_savedOpen (s : State) (id : jsstring) (b : bool) :
  bindAccordionState s id false = Ok b -> b = savedOpen (accordionState s) id.
Proof.
  unfold bindAccordionState, savedOpen. intros H. apply bind_Ok in H.
  destruct H as (saved & -> & H). inversion H. reflexivity.
Qed.

Lemma bindAccordionState_nonnull (s : State) (id : jsstring) (d : bool) :
  accordionState s <> JNull -> exists b, bindAccordionState s id d = Ok b.
Proof.
  intros H. unfold bindAccordionState.
  destruct (getProp_nonnull _ id H) as [saved ->]. simpl. eauto.
Qed.

Lemma bindAccordionState_throw (s : State) (id : jsstring) (d : bool)
      (x : exn) :
  bindAccordionState s id d = Throw x ->
  accordionState s = JNull
  /\ x = nullAccess Reading (js "state.accordionState") id.
Proof.
  unfold bindAccordionState, getProp.
  destruct (accordionState s) as [| | | |elems own|props]; cbn [bind];
    try discriminate.
  - intros H. inversion H. auto.
  - destruct (str_eqb id LENGTH); [discriminate|].
    destruct (arrayIndex id); discriminate.
Qed.

(** Appending the rows of a list to its container. *)
Lemma appendRows_Ok {A B} (f : A -> B) (found : bool) (base : jsstring)
      (l : list A) :
  l = [] \/ found = true ->
  mapM (fun a => bind (appendChildOf found base) (fun _ => Ok (f a))) l
  = Ok (map f l).
Proof.
  intros [-> | ->]; [reflexivity|].
  induction l as [|a r IH]; [reflexivity|].
  cbn [mapM map]. unfold appendChildOf at 1. cbn [bind].
  rewrite IH. reflexivity.
Qed.

Lemma appendRows_inv {A B} (f : A -> B) (found : bool) (base : jsstring)
      (l : list A) (l' : list B) :
  mapM (fun a => bind (appendChildOf found base) (fun _ => Ok (f a))) l
  = Ok l' ->
  l' = map f l /\ (l = [] \/ found = true).
Proof.
  destruct found.
  - rewrite appendRows_Ok by auto. intros H. inversion H. auto.
  - destruct l as [|a r]; [|discriminate].
    intros H. inversion H. auto.
Qed.

Lemma appendRows_throw {A B} (f : A -> B) (found : bool) (base : jsstring)
      (l : list A) (x : exn) :
  mapM (fun a => bind (appendChildOf found base) (fun _ => Ok (f a))) l
  = Throw x ->
  found = false /\ x = nullAccess Reading base (js "appendChild").
Proof.
  destruct found.
  - rewrite appendRows_Ok by auto. discriminate.
  - destruct l as [|a r]; [discriminate|].
    intros H. inversion H. auto.
Qed.

Lemma makeAccordionId_throw (parts : list (option jsstring)) (x : exn) :
  makeAccordionId parts = Throw x -> x = uriMalformed.
Proof.
  intros H. pose proof (makeAccordionId_defined parts) as D.
  destruct (forallb _ parts).
  - destruct D as [id D]. congruence.
  - congruence.
Qed.

Lemma sourceNode_inv (s : State) (ctx : jsstring) (g : jsstring * list Item)
      (sec : SourceSection) :
  bind (makeAccordionId [Some (js "source"); Some ctx; Some (fst g)])
       (fun accordionId =>
          Radar.buildSourceGroupNode formatNumber formatDateTime s
                                     (fst g) (snd g) accordionId)
  = Ok sec ->
  showsSource formatNumber formatDateTime s ctx g sec.
Proof.
  intros H. apply bind_Ok in H. destruct H as (id & Hid & H).
  unfold Radar.buildSourceGroupNode in H. apply bind_Ok in H.
  destruct H as (b & Hb & H). apply bind_Ok in H.
  destruct H as (rows & Hrows & H). inversion H; subst sec. clear H.
  apply appendRows_inv in Hrows. destruct Hrows as [-> _].
  unfold showsSource. cbn [src_id src_markup src_open src_items].
  repeat split; try assumption.
  apply bindAccordionState_savedOpen, Hb.
Qed.

Lemma sourceNode_ok (s : State) (ctx : jsstring) (g : jsstring * list Item) :
  accordionState s <> JNull ->
  wellFormed ctx = true -> wellFormed (fst g) = true ->
  snd g = [] \/ sourceListFound formatNumber g = true ->
  exists sec,
    bind (makeAccordionId [Some (js "source"); Some ctx; Some (fst g)])
         (fun accordionId =>
            Radar.buildSourceGroupNode formatNumber formatDateTime s
                                       (fst g) (snd g) accordionId)
    = Ok sec.
Proof.
  intros Ha Hc Hg Hl.
  destruct (makeAccordionId_Some [js "source"; ctx; fst g]) as [id Hid].
  { cbn [forallb]. rewrite Hc, Hg. reflexivity. }
  cbn [map] in Hid. rewrite Hid. cbn [bind].
  unfold Radar.buildSourceGroupNode. cbv zeta.
  destruct (bindAccordionState_nonnull s id false Ha) as [b ->].
  cbn [bind]. rewrite appendRows_Ok by exact Hl. cbn [bind]. eauto.
Qed.

Lemma sourceNode_throw (s : State) (ctx : jsstring) (g : jsstring * list Item)
      (x : exn) :
  bind (makeAccordionId [Some (js "source"); Some ctx; Some (fst g)])
       (fun accordionId =>
          Radar.buildSourceGroupNode formatNumber formatDateTime s
                                     (fst g) (snd g) accordionId)
  = Throw x ->
  panelError s x.
Proof.
  unfold panelError.
  destruct (makeAccordionId _) as [id|x'] eqn:Hid; cbn [bind].
  - unfold Radar.buildSourceGroupNode. cbv zeta.
    destruct (bindAccordionState s id false) as [b|x'] eqn:Hb; cbn [bind].
    + match goal with
      | |- context [mapM ?F ?L] => destruct (mapM F L) as [rows|x'] eqn:Hm
      end; cbn [bind]; [discriminate|].
      intros H. inversion H; subst. right. right.
      apply appendRows_throw in Hm. destruct Hm as [_ ->]. eauto.
    + intros H. inversion H; subst. right. left.
      destruct (bindAccordionState_throw _ _ _ _ Hb) as [Hn ->]. eauto.
  - intros H. inversion H; subst. left.
    apply (makeAccordionId_throw _ _ Hid).
Qed.

Lemma Forall2_impl {A B} (R R' : A -> B -> Prop) (l : list A) (l' : list B) :
  (forall a b, R a b -> R' a b) -> Forall2 R l l' -> Forall2 R' l l'.
Proof. intros H. induction 1; constructor; auto. Qed.

(** A source panel inside a site panel: the container of the site panel
    is looked up between the making of the id and the building of the
    panel. *)
Lemma inSiteList {A} (found : bool) (base : jsstring) (m : result jsstring)
      (F : jsstring -> result A) :
  bind m (fun id => bind (appendChildOf found base) (fun _ => F id))
  = if found then bind m F
    else bind m (fun _ => Throw (nullAccess Reading base (js "appendChild"))).
Proof. destruct found, m; reflexivity. Qed.

Lemma inSiteList_Ok {A} (found : bool) (base : jsstring) (m : result jsstring)
      (F : jsstring -> result A) (y : A) :
  bind m (fun id => bind (appendChildOf found base) (fun _ => F id)) = Ok y ->
  found = true /\ bind m F = Ok y.
Proof.
  rewrite inSiteList. destruct found; [auto|].
  destruct m; discriminate.
Qed.

Lemma siteSection_inv (s : State) (g : jsstring * SiteEntry)
      (sec : SiteSection) :
  Radar.renderSiteSection collationKey formatNumber formatDateTime s g = Ok sec ->
  showsSite collationKey formatNumber formatDateTime s g sec.
Proof.
  unfold Radar.renderSiteSection. cbv zeta. intros H.
  apply bind_Ok in H. destruct H as (id & Hid & H).
  apply bind_Ok in H. destruct H as (b & Hb & H).
  apply bind_Ok in H. destruct H as (sources & Hs & H).
  inversion H; subst sec. clear H.
  unfold showsSite.
  cbn [site_acc_id site_markup site_open site_sources].
  repeat split; try assumption.
  - apply bindAccordionState_savedOpen, Hb.
  - apply mapM_Ok_inv in Hs.
    eapply Forall2_impl; [|exact Hs].
    intros sg sec Hsec. apply inSiteList_Ok in Hsec.
    apply sourceNode_inv, Hsec.
Qed.

Lemma wellFormed_site_ctx (k : jsstring) :
  wellFormed (js "site:" ++ k) = wellFormed k.
Proof. reflexivity. Qed.

Lemma siteSection_ok (s : State) (g : jsstring * SiteEntry) :
  accordionState s <> JNull ->
  wellFormed (fst g) = true ->
  (forall sg, In sg (Radar.groupBySource collationKey (siteItems (snd g))) ->
              wellFormed (fst sg) = true
              /\ siteListFound formatNumber g = true
              /\ (snd sg = [] \/ sourceListFound formatNumber sg = true)) ->
  exists sec,
    Radar.renderSiteSection collationKey formatNumber formatDateTime s g
    = Ok sec.
Proof.
  intros Ha Hg Hs. unfold Radar.renderSiteSection. cbv zeta.
  destruct (makeAccordionId_Some [js "site"; fst g]) as [id Hid].
  { cbn [forallb]. rewrite Hg. reflexivity. }
  cbn [map] in Hid. rewrite Hid. cbn [bind].
  destruct (bindAccordionState_nonnull s id false Ha) as [b ->]. cbn [bind].
  match goal with
  | |- context [mapM ?F ?L] => destruct (mapM_all_Ok F L) as [secs ->]
  end.
  - intros sg Hin. destruct (Hs sg Hin) as (Hw & Hsite & Hsrc).
    rewrite inSiteList. unfold siteListFound, Radar.fmtNumber in *.
    rewrite Hsite. apply sourceNode_ok; auto.
  - cbn [bind]. eauto.
Qed.

Lemma siteSection_throw (s : State) (g : jsstring * SiteEntry) (x : exn) :
  Radar.renderSiteSection collationKey formatNumber formatDateTime s g
  = Throw x ->
  panelError s x.
Proof.
  unfold Radar.renderSiteSection. cbv zeta.
  destruct (makeAccordionId _) as [id|x'] eqn:Hid; cbn [bind].
  - destruct (bindAccordionState s id false) as [b|x'] eqn:Hb; cbn [bind].
    + match goal with
      | |- context [mapM ?F ?L] => destruct (mapM F L) as [secs|x'] eqn:Hm
      end; cbn [bind]; [discriminate|].
      intros H. inversion H; subst.
      apply mapM_first_Throw in Hm. destruct Hm as (sg & _ & Hsg).
      rewrite inSiteList in Hsg.
      destruct (querySelectorFinds _ _ _).
      * apply (sourceNode_throw _ _ _ _ Hsg).
      * match type of Hsg with
        | bind ?M _ = _ => destruct M as [id'|x''] eqn:Hid'
        end; cbn [bind] in Hsg; inversion Hsg; subst.
        -- right. right. eauto.
        -- left. apply (makeAccordionId_throw _ _ Hid').
    + intros H. inversion H; subst. right. left.
      destruct (bindAccordionState_throw _ _ _ _ Hb) as [Hn ->]. eauto.
  - intros H. inversion H; subst. left.
    apply (makeAccordionId_throw _ _ Hid).
Qed.


(** *** The groups behind the panels *)

Lemma filter_witness {A} (p : A -> bool) (l : list A) :
  filter p l <> [] -> exists x, In x l /\ p x = true.
Proof.
  destruct (filter p l) as [|x r] eqn:E; [congruence|]. intros _.
  exists x. apply filter_In. rewrite E. left. reflexivity.
Qed.

Lemma source_group_keys (items : list Item) :
  NoDup (map fst (Radar.groupBySource collationKey items))
  /\ forall g, In g (Radar.groupBySource collationKey items) ->
       snd g = filter (hasKey sourceKey (fst g)) items
       /\ exists it, In it items /\ sourceKey it = fst g.
Proof.
  destruct (GroupingSpec.source_entries_grouped items) as (Hnd & Hent & _).
  assert (Hperm : Permutation (Radar.groupBySource collationKey items)
                              (groupBySource_groupMap items))
    by apply Array_sort_perm.
  split.
  - eapply Permutation_NoDup; [|exact Hnd].
    apply Permutation_map, Permutation_sym, Hperm.
  - intros [k l] Hg. apply (Permutation_in _ Hperm) in Hg.
    destruct (Hent k l Hg) as [Hl Hne]. unfold sourceEntry in Hl. subst l.
    split; [reflexivity|].
    destruct (filter_witness _ _ Hne) as (it & Hin & Hk).
    exists it. split; [exact Hin | apply str_eqb_eq, Hk].
Qed.

Lemma site_group_keys (items : list Item) :
  NoDup (map fst (renderGroupedBySiteAndSource_sites collationKey items))
  /\ forall g, In g (renderGroupedBySiteAndSource_sites collationKey items) ->
       siteItems (snd g) = filter (hasKey site_id (fst g)) items
       /\ exists it, In it items /\ site_id it = fst g.
Proof.
  destruct (GroupingSpec.site_entries_grouped items) as (Hnd & Hent & _).
  assert (Hperm : Permutation
                    (renderGroupedBySiteAndSource_sites collationKey items)
                    (renderGroupedBySiteAndSource_siteMap items))
    by apply Array_sort_perm.
  split.
  - eapply Permutation_NoDup; [|exact Hnd].
    apply Permutation_map, Permutation_sym, Hperm.
  - intros [k v] Hg. apply (Permutation_in _ Hperm) in Hg.
    destruct (Hent k v Hg) as [[Hl _] Hne]. cbn [fst snd].
    split; [exact Hl|].
    destruct (filter_witness _ _ Hne) as (it & Hin & Hk).
    exists it. split; [exact Hin | apply str_eqb_eq, Hk].
Qed.

Lemma filtered_site (s : State) (it : Item) :
  In it (getFilteredItems s) -> siteFilter s <> [] ->
  site_id it = siteFilter s.
Proof.
  unfold getFilteredItems. intros Hin Hf. apply filter_In in Hin.
  destruct Hin as [_ Hkeep]. apply truthy_true in Hf. rewrite Hf in Hkeep.
  cbn [andb] in Hkeep.
  destruct (str_eqb (site_id it) (siteFilter s)) eqn:E;
    [apply str_eqb_eq, E | discriminate].
Qed.

(** *** When the list is rendered *)

Lemma renderList_total (e : Env) :
  accordionState (st e) <> JNull ->
  (forall it, In it (getFilteredItems (st e)) ->
     wellFormed (site_id it) = true /\ wellFormed (sourceKey it) = true) ->
  containersFound collationKey formatNumber (siteFilter (st e))
                  (getFilteredItems (st e)) ->
  exists e', Radar.renderList collationKey formatNumber formatDateTime e
             = (Ok tt, e').
Proof.
  intros Ha Hwf Hc. rewrite renderList_unfold. cbv zeta.
  unfold containersFound in Hc.
  destruct (getFilteredItems (st e)) as [|it0 flt] eqn:Ef; [eauto|].
  destruct (truthy (siteFilter (st e))) eqn:Et.
  - match goal with
    | |- context [mapM ?F ?L] => destruct (mapM_all_Ok F L) as [secs ->]
    end; [|eauto].
    intros g Hg. destruct (source_group_keys (it0 :: flt)) as [_ Hkeys].
    destruct (Hkeys g Hg) as (_ & it & Hin & Hk).
    apply sourceNode_ok;
      [exact Ha | | rewrite <- Hk; apply Hwf, Hin | right; apply Hc, Hg].
    rewrite wellFormed_site_ctx.
    rewrite <- (filtered_site (st e) it0).
    + apply Hwf. left. reflexivity.
    + rewrite Ef. left. reflexivity.
    + apply truthy_true, Et.
  - match goal with
    | |- context [mapM ?F ?L] => destruct (mapM_all_Ok F L) as [secs ->]
    end; [|eauto].
    intros g Hg. destruct (site_group_keys (it0 :: flt)) as [_ Hkeys].
    destruct (Hkeys g Hg) as (Hitems & it & Hin & Hk).
    destruct (Hc g Hg) as [Hsite Hsrc].
    apply siteSection_ok; [exact Ha | rewrite <- Hk; apply Hwf, Hin |].
    intros sg Hsg. destruct (source_group_keys (siteItems (snd g))) as [_ Hk2].
    destruct (Hk2 sg Hsg) as (_ & it2 & Hin2 & Hk2').
    split; [|split; [exact Hsite | right; apply Hsrc, Hsg]].
    rewrite <- Hk2'. apply Hwf. rewrite Hitems in Hin2.
    apply filter_In in Hin2. tauto.
Qed.

(** It throws only the URIError of a malformed string, the TypeError of
    an accordion state that is [null], or the TypeError of a list container
    that was not found. *)
Lemma renderList_throw (e e' : Env) (x : exn) :
  Radar.renderList collationKey formatNumber formatDateTime e = (Throw x, e') ->
  panelError (st e) x.
Proof.
  rewrite renderList_unfold. cbv zeta.
  destruct (getFilteredItems (st e)) as [|it0 flt]; [discriminate|].
  destruct (truthy (siteFilter (st e))).
  - match goal with
    | |- context [mapM ?F ?L] => destruct (mapM F L) as [secs|x'] eqn:Hm
    end; [discriminate|].
    intros H. inversion H; subst.
    apply mapM_first_Throw in Hm. destruct Hm as (g & _ & Hg).
    apply (sourceNode_throw _ _ _ _ Hg).
  - match goal with
    | |- context [mapM ?F ?L] => destruct (mapM F L) as [secs|x'] eqn:Hm
    end; [discriminate|].
    intros H. inversion H; subst.
    apply mapM_first_Throw in Hm. destruct Hm as (g & _ & Hg).
    apply (siteSection_throw _ _ _ Hg).
Qed.

Lemma makeAccordionId_Ok_wf (parts : list (option jsstring)) (id : jsstring) :
  makeAccordionId parts = Ok id ->
  forall p, In p parts -> wellFormed (or_str p []) = true.
Proof.
  intros H. pose proof (makeAccordionId_defined parts) as D.
  destruct (forallb _ parts) eqn:E; [|congruence].
  rewrite forallb_forall in E. exact E.
Qed.

Lemma bindAccordionState_Ok_nonnull (s : State) (id : jsstring) (d b : bool) :
  bindAccordionState s id d = Ok b -> accordionState s <> JNull.
Proof.
  unfold bindAccordionState. intros H E. rewrite E in H. discriminate H.
Qed.

Lemma mapM_Ok_each {A B} (f : A -> result B) (l : list A) (ys : list B) (x : A) :
  mapM f l = Ok ys -> In x l -> exists y, f x = Ok y.
Proof.
  intros H. apply mapM_Ok_inv in H.
  induction H as [|a b r r' Hab Hr IH]; intros Hin; [destruct Hin|].
  destruct Hin as [<- | Hin]; [eauto | apply IH, Hin].
Qed.

Lemma sourceNode_Ok_pre (s : State) (ctx : jsstring)
      (g : jsstring * list Item) (sec : SourceSection) :
  bind (makeAccordionId [Some (js "source"); Some ctx; Some (fst g)])
       (fun accordionId =>
          Radar.buildSourceGroupNode formatNumber formatDateTime s
                                     (fst g) (snd g) accordionId)
  = Ok sec ->
  accordionState s <> JNull
  /\ wellFormed ctx = true /\ wellFormed (fst g) = true
  /\ (snd g = [] \/ sourceListFound formatNumber g = true).
Proof.
  intros H. apply bind_Ok in H. destruct H as (id & Hid & H).
  unfold Radar.buildSourceGroupNode in H. cbv zeta in H. apply bind_Ok in H.
  destruct H as (b & Hb & H). apply bind_Ok in H.
  destruct H as (rows & Hrows & _). apply appendRows_inv in Hrows.
  pose proof (makeAccordionId_Ok_wf _ _ Hid) as Hwf.
  split; [apply (bindAccordionState_Ok_nonnull _ _ _ _ Hb)|].
  split; [|split; [|exact (proj2 Hrows)]].
  - rewrite <- (PersistenceSpec.or_str_some_nil ctx). apply Hwf.
    right. left. reflexivity.
  - rewrite <- (PersistenceSpec.or_str_some_nil (fst g)). apply Hwf.
    right. right. left. reflexivity.
Qed.

Lemma siteSection_Ok_pre (s : State) (g : jsstring * SiteEntry)
      (sec : SiteSection) :
  Radar.renderSiteSection collationKey formatNumber formatDateTime s g = Ok sec ->
  accordionState s <> JNull
  /\ wellFormed (fst g) = true
  /\ forall sg, In sg (Radar.groupBySource collationKey (siteItems (snd g))) ->
                wellFormed (fst sg) = true
                /\ siteListFound formatNumber g = true
                /\ (snd sg = [] \/ sourceListFound formatNumber sg = true).
Proof.
  unfold Radar.renderSiteSection. cbv zeta. intros H.
  apply bind_Ok in H. destruct H as (id & Hid & H).
  apply bind_Ok in H. destruct H as (b & Hb & H).
  apply bind_Ok in H. destruct H as (sources & Hs & _).
  pose proof (makeAccordionId_Ok_wf _ _ Hid) as Hwf.
  split; [apply (bindAccordionState_Ok_nonnull _ _ _ _ Hb)|]. split.
  - rewrite <- (PersistenceSpec.or_str_some_nil (fst g)). apply Hwf.
    right. left. reflexivity.
  - intros sg Hsg.
    destruct (mapM_Ok_each _ _ _ sg Hs Hsg) as [y Hy].
    apply inSiteList_Ok in Hy. destruct Hy as [Hfound Hy].
    destruct (sourceNode_Ok_pre _ _ _ _ Hy) as (_ & _ & Hw & Hl).
    split; [exact Hw|]. split; [exact Hfound | exact Hl].
Qed.

Lemma group_of_item (items : list Item) (it : Item) :
  In it items ->
  exists g, In g (Radar.groupBySource collationKey items)
            /\ fst g = sourceKey it.
Proof.
  intros Hin.
  destruct (GroupingSpec.source_groups_facts collationKey items)
    as (_ & _ & Hmem & Hhome).
  destruct (Hhome it Hin) as ([k l] & Hg & Hit & _).
  exists (k, l). split; [exact Hg|]. cbn [fst snd] in *.
  rewrite (Hmem k l Hg) in Hit. apply filter_In in Hit.
  symmetry. apply str_eqb_eq, Hit.
Qed.

Lemma site_of_item (items : list Item) (it : Item) :
  In it items ->
  exists g, In g (renderGroupedBySiteAndSource_sites collationKey items)
            /\ fst g = site_id it /\ In it (siteItems (snd g)).
Proof.
  intros Hin.
  destruct (GroupingSpec.site_groups_facts collationKey items)
    as (_ & _ & Hmem & Hhome).
  destruct (Hhome it Hin) as ([k v] & Hg & Hit & _).
  exists (k, v). split; [exact Hg|]. cbn [fst snd] in *.
  split; [|exact Hit].
  rewrite (Hmem k v Hg) in Hit. apply filter_In in Hit.
  symmetry. apply str_eqb_eq, Hit.
Qed.

Lemma source_group_nonempty (items : list Item) (g : jsstring * list Item) :
  In g (Radar.groupBySource collationKey items) -> snd g <> [].
Proof.
  intros Hg. destruct (source_group_keys items) as [_ Hkeys].
  destruct (Hkeys g Hg) as (Hl & it & Hin & Hk). rewrite Hl. intros E.
  assert (Hi : In it (filter (hasKey sourceKey (fst g)) items)).
  { apply filter_In. split; [exact Hin | apply str_eqb_eq, Hk]. }
  rewrite E in Hi. destruct Hi.
Qed.

Lemma site_group_nonempty (items : list Item) (g : jsstring * SiteEntry) :
  In g (renderGroupedBySiteAndSource_sites collationKey items) ->
  exists sg, In sg (Radar.groupBySource collationKey (siteItems (snd g))).
Proof.
  intros Hg. destruct (site_group_keys items) as [_ Hkeys].
  destruct (Hkeys g Hg) as (Hl & it & Hin & Hk).
  assert (Hi : In it (siteItems (snd g))).
  { rewrite Hl. apply filter_In. split; [exact Hin | apply str_eqb_eq, Hk]. }
  destruct (group_of_item _ it Hi) as (sg & Hsg & _). eauto.
Qed.

Lemma found_of_nonempty (items : list Item) (g : jsstring * list Item) :
  In g (Radar.groupBySource collationKey items) ->
  snd g = [] \/ sourceListFound formatNumber g = true ->
  sourceListFound formatNumber g = true.
Proof.
  intros Hg [E | H]; [|exact H].
  destruct (source_group_nonempty _ _ Hg E).
Qed.

Lemma renderList_Ok_pre (e e' : Env) :
  Radar.renderList collationKey formatNumber formatDateTime e = (Ok tt, e') ->
  getFilteredItems (st e) = []
  \/ (accordionState (st e) <> JNull
      /\ (forall it, In it (getFilteredItems (st e)) ->
            wellFormed (site_id it) = true
            /\ wellFormed (sourceKey it) = true)
      /\ containersFound collationKey formatNumber (siteFilter (st e))
                         (getFilteredItems (st e))).
Proof.
  rewrite renderList_unfold. cbv zeta. unfold containersFound.
  destruct (getFilteredItems (st e)) as [|it0 flt] eqn:Ef; [auto|].
  intros H. right.
  destruct (truthy (siteFilter (st e))) eqn:Et.
  - match type of H with
    | context [mapM ?F ?L] => destruct (mapM F L) as [secs|x'] eqn:Hm
    end; [|discriminate].
    assert (Hall : forall it, In it (it0 :: flt) ->
              accordionState (st e) <> JNull
              /\ wellFormed (site_id it) = true
              /\ wellFormed (sourceKey it) = true).
    { intros it Hin. destruct (group_of_item _ it Hin) as (g & Hg & Hk).
      destruct (mapM_Ok_each _ _ _ g Hm Hg) as [sec Hsec].
      destruct (sourceNode_Ok_pre _ _ _ _ Hsec) as (Ha & Hc & Hs & _).
      split; [exact Ha|]. split; [|rewrite <- Hk; exact Hs].
      rewrite (filtered_site (st e) it).
      - exact Hc.
      - rewrite Ef. exact Hin.
      - apply truthy_true, Et. }
    split; [apply (Hall it0); left; reflexivity|].
    split; [intros it Hin; apply (Hall it Hin)|].
    intros g Hg. destruct (mapM_Ok_each _ _ _ g Hm Hg) as [sec Hsec].
    destruct (sourceNode_Ok_pre _ _ _ _ Hsec) as (_ & _ & _ & Hl).
    apply (found_of_nonempty _ _ Hg Hl).
  - match type of H with
    | context [mapM ?F ?L] => destruct (mapM F L) as [secs|x'] eqn:Hm
    end; [|discriminate].
    assert (Hall : forall it, In it (it0 :: flt) ->
              accordionState (st e) <> JNull
              /\ wellFormed (site_id it) = true
              /\ wellFormed (sourceKey it) = true).
    { intros it Hin. destruct (site_of_item _ it Hin) as (g & Hg & Hk & Hit).
      destruct (mapM_Ok_each _ _ _ g Hm Hg) as [sec Hsec].
      destruct (siteSection_Ok_pre _ _ _ Hsec) as (Ha & Hs & Hsrc).
      split; [exact Ha|]. split; [rewrite <- Hk; exact Hs|].
      destruct (group_of_item _ it Hit) as (sg & Hsg & Hk2).
      rewrite <- Hk2. apply Hsrc, Hsg. }
    split; [apply (Hall it0); left; reflexivity|].
    split; [intros it Hin; apply (Hall it Hin)|].
    intros g Hg. destruct (mapM_Ok_each _ _ _ g Hm Hg) as [sec Hsec].
    destruct (siteSection_Ok_pre _ _ _ Hsec) as (_ & _ & Hsrc).
    split.
    + destruct (site_group_nonempty _ _ Hg) as [sg Hsg].
      apply (Hsrc sg Hsg).
    + intros sg Hsg. apply (found_of_nonempty _ _ Hsg).
      apply (Hsrc sg Hsg).
Qed.

(** What a rendered list holds. *)
Lemma renderList_Ok_inv (e e' : Env) :
  Radar.renderList collationKey formatNumber formatDateTime e = (Ok tt, e') ->
  let s := st e in
  let filtered := getFilteredItems s in
  exists nodes,
    e' = with_dom
           (fun d =>
              set_newsList nodes
                (set_resultCount
                   (Radar.countText formatNumber (length filtered)) d)) e
    /\ (filtered = []
        /\ nodes = [EmptyNote (js "当前筛选条件下没有结果。")]
        \/ filtered <> [] /\ siteFilter s <> []
           /\ (exists secs,
                 nodes = map SourceNode secs
                 /\ Forall2 (showsSource formatNumber formatDateTime s
                                         (js "site:" ++ siteFilter s))
                            (Radar.groupBySource collationKey filtered) secs)
        \/ filtered <> [] /\ siteFilter s = []
           /\ (exists secs,
                 nodes = map SiteNode secs
                 /\ Forall2 (showsSite collationKey formatNumber
                                       formatDateTime s)
                            (renderGroupedBySiteAndSource_sites collationKey
                                                                filtered)
                            secs)).
Proof.
  rewrite renderList_unfold. cbv zeta.
  destruct (getFilteredItems (st e)) as [|it0 flt] eqn:Ef.
  - intros H. inversion H. eexists. split; [reflexivity|]. left. auto.
  - destruct (truthy (siteFilter (st e))) eqn:Et.
    + match goal with
      | |- context [mapM ?F ?L] => destruct (mapM F L) as [secs|x'] eqn:Hm
      end; [|discriminate].
      intros H. inversion H. eexists. split; [reflexivity|].
      right. left. split; [discriminate|]. split; [apply truthy_true, Et|].
      exists secs. split; [reflexivity|].
      apply mapM_Ok_inv in Hm. eapply Forall2_impl; [|exact Hm].
      intros g sec Hsec. apply sourceNode_inv, Hsec.
    + match goal with
      | |- context [mapM ?F ?L] => destruct (mapM F L) as [secs|x'] eqn:Hm
      end; [|discriminate].
      intros H. inversion H. eexists. split; [reflexivity|].
      right. right. split; [discriminate|]. split; [apply truthy_false, Et|].
      exists secs. split; [reflexivity|].
      apply mapM_Ok_inv in Hm. eapply Forall2_impl; [|exact Hm].
      intros g sec Hsec. apply siteSection_inv, Hsec.
Qed.


End Platform.
End RenderFacts.

(* ================================================================= *)
(** ** The panels of a rendered list *)
(* ================================================================= *)

(** Rows, ids and flags of the panels built from the groups. *)
Module PanelFacts.
Import JS Feed Radar Spec Views JSFacts UriFacts IdFacts RenderFacts.

Section WithEngine.
Context {engine : Engine}.

Lemma NoDup_map_on {A B} (f : A -> B) (l : list A) :
  (forall x y, In x l -> In y l -> f x = f y -> x = y) ->
  NoDup l -> NoDup (map f l).
Proof.
  intros Hinj Hnd. induction Hnd as [|x r Hx Hr IH]; simpl; constructor.
  - intros Hin. apply in_map_iff in Hin. destruct Hin as (y & Hy & Hin).
    apply Hx. rewrite (Hinj x y); auto; [left; reflexivity | right; exact Hin].
  - apply IH. intros a b Ha Hb. apply Hinj; right; assumption.
Qed.

Lemma Forall2_In_r {A B} (R : A -> B -> Prop) (l : list A) (l' : list B) (b : B) :
  Forall2 R l l' -> In b l' -> exists a, In a l /\ R a b.
Proof.
  induction 1 as [|x y r r' Hxy Hr IH]; simpl; [tauto|].
  intros [<- | Hin]; [eauto|].
  destruct (IH Hin) as (a & Ha & HR). eauto.
Qed.

Lemma Forall2_In_l {A B} (R : A -> B -> Prop) (l : list A) (l' : list B) (a : A) :
  Forall2 R l l' -> In a l -> exists b, In b l' /\ R a b.
Proof.
  induction 1 as [|x y r r' Hxy Hr IH]; simpl; [tauto|].
  intros [<- | Hin]; [eauto|].
  destruct (IH Hin) as (b & Hb & HR). eauto.
Qed.

Lemma Forall2_maps {A B C D} (R : C -> D -> Prop) (f : A -> C) (g : B -> D)
      (l : list A) (l' : list B) :
  Forall2 (fun a b => R (f a) (g b)) l l' -> Forall2 R (map f l) (map g l').
Proof. induction 1; simpl; constructor; auto. Qed.

(** Ids made from distinct lists of parts are distinct. *)
Lemma ids_distinct (P : list (list jsstring)) (ids : list jsstring) :
  Forall2 (fun parts id =>
             parts <> [] /\ makeAccordionId (map Some parts) = Ok id) P ids ->
  NoDup P -> NoDup ids.
Proof.
  induction 1 as [|parts id P' ids' [Hne Hid] HF IH]; intros Hnd;
    constructor; inversion Hnd as [|? ? Hnot Hnd']; subst.
  - intros Hin. destruct (Forall2_In_r _ _ _ _ HF Hin) as (parts' & Hp & Hne' & Hid').
    apply Hnot. rewrite (makeAccordionId_Some_inj parts parts' id); assumption.
  - apply IH, Hnd'.
Qed.

Lemma NoDup_flat_map_owner {A B} (key : A -> jsstring) (owner : B -> jsstring)
      (F : A -> list B) (l : list A) :
  NoDup (map key l) ->
  (forall a, In a l -> NoDup (F a)) ->
  (forall a b, In a l -> In b (F a) -> owner b = key a) ->
  NoDup (flat_map F l).
Proof.
  induction l as [|a r IH]; simpl; intros Hnd HF Hown; [constructor|].
  inversion Hnd as [|? ? Hnot Hnd']; subst.
  apply NoDup_app.
  - apply HF. left. reflexivity.
  - apply IH; auto.
  - intros b Hb Hin. apply in_flat_map in Hin. destruct Hin as (a' & Ha' & Hb').
    apply Hnot. rewrite <- (Hown a b (or_introl eq_refl) Hb).
    rewrite (Hown a' b (or_intror Ha') Hb'). apply in_map, Ha'.
Qed.

Section Platform.
Variable collationKey : jsstring -> list N.
Variable formatNumber : N -> jsstring.
Variable formatDateTime : jsstring -> option jsstring.

Lemma panels_sources (secs : list SourceSection) :
  panels (map SourceNode secs) = map sourcePanel secs.
Proof.
  unfold panels. induction secs as [|x r IH]; [reflexivity|].
  cbn [map flat_map panelsOf app]. rewrite IH. reflexivity.
Qed.

Lemma rows_sources (secs : list SourceSection) :
  rows (map SourceNode secs) = flat_map src_items secs.
Proof.
  unfold rows. induction secs as [|x r IH]; [reflexivity|].
  cbn [map flat_map rowsOf]. rewrite IH. reflexivity.
Qed.

Lemma source_rows (s : State) (ctx : jsstring)
      (groups : list (jsstring * list Item)) (secs : list SourceSection) :
  Forall2 (showsSource formatNumber formatDateTime s ctx) groups secs ->
  flat_map src_items secs
  = map (Radar.renderItemNode formatDateTime) (concat (map snd groups)).
Proof.
  induction 1 as [|g sec gs secs' (_ & _ & _ & Hitems) HF IH]; simpl;
    [reflexivity|].
  rewrite map_app, Hitems, IH. reflexivity.
Qed.

Lemma source_ids (s : State) (ctx : jsstring)
      (groups : list (jsstring * list Item)) (secs : list SourceSection) :
  Forall2 (showsSource formatNumber formatDateTime s ctx) groups secs ->
  Forall2 (fun parts id =>
             parts <> [] /\ makeAccordionId (map Some parts) = Ok id)
          (map (sourceParts ctx) groups) (map src_id secs).
Proof.
  intros H. apply Forall2_maps. eapply Forall2_impl; [|exact H].
  intros g sec (Hid & _). split; [discriminate | exact Hid].
Qed.

Lemma sourceParts_distinct (ctx : jsstring)
      (groups : list (jsstring * list Item)) :
  NoDup (map fst groups) -> NoDup (map (sourceParts ctx) groups).
Proof.
  intros H.
  replace (map (sourceParts ctx) groups)
    with (map (fun k => [js "source"; ctx; k]) (map fst groups))
    by (rewrite map_map; reflexivity).
  apply NoDup_map_on; [|exact H].
  intros x y _ _ E. inversion E. reflexivity.
Qed.

Lemma source_flags (s : State) (ctx : jsstring)
      (groups : list (jsstring * list Item)) (secs : list SourceSection) :
  Forall2 (showsSource formatNumber formatDateTime s ctx) groups secs ->
  forall p, In p (map sourcePanel secs) ->
            snd p = savedOpen (accordionState s) (fst p).
Proof.
  intros H p Hp. apply in_map_iff in Hp. destruct Hp as (sec & <- & Hsec).
  destruct (Forall2_In_r _ _ _ _ H Hsec) as (g & _ & _ & _ & Hopen & _).
  exact Hopen.
Qed.

Lemma site_rows (s : State) (sites : list (jsstring * SiteEntry))
      (secs : list SiteSection) :
  Forall2 (showsSite collationKey formatNumber formatDateTime s) sites secs ->
  Permutation (rows (map SiteNode secs))
              (map (Radar.renderItemNode formatDateTime)
                   (concat (map (fun g => siteItems (snd g)) sites))).
Proof.
  induction 1 as [|g sec gs secs' (_ & _ & _ & Hsrc) HF IH];
    [constructor|].
  cbn [map concat]. unfold rows. cbn [flat_map rowsOf]. rewrite map_app.
  apply Permutation_app; [|exact IH].
  rewrite (source_rows _ _ _ _ Hsrc). apply Permutation_map.
  apply (GroupingSpec.source_groups_facts collationKey (siteItems (snd g))).
Qed.

Lemma site_ids (s : State) (sites : list (jsstring * SiteEntry))
      (secs : list SiteSection) :
  Forall2 (showsSite collationKey formatNumber formatDateTime s) sites secs ->
  Forall2 (fun parts id =>
             parts <> [] /\ makeAccordionId (map Some parts) = Ok id)
          (flat_map (siteParts collationKey) sites)
          (map fst (panels (map SiteNode secs))).
Proof.
  induction 1 as [|g sec gs secs' (Hid & _ & _ & Hsrc) HF IH];
    [constructor|].
  cbn [map flat_map]. unfold panels. cbn [flat_map panelsOf].
  rewrite map_app. apply Forall2_app; [|exact IH].
  unfold siteParts. cbn [map fst]. constructor.
  - split; [discriminate | exact Hid].
  - rewrite map_map. apply (source_ids _ _ _ _ Hsrc).
Qed.

Lemma siteParts_distinct (items : list Item) :
  NoDup (flat_map (siteParts collationKey)
                  (renderGroupedBySiteAndSource_sites collationKey items)).
Proof.
  destruct (site_group_keys collationKey items) as [Hnd _].
  apply (NoDup_flat_map_owner fst partsSite); [exact Hnd | |].
  - intros g _. unfold siteParts. constructor.
    + intros Hin. apply in_map_iff in Hin. destruct Hin as (sg & E & _).
      discriminate E.
    + apply sourceParts_distinct.
      apply (source_group_keys collationKey (siteItems (snd g))).
  - intros g parts _ [<- | Hin]; [reflexivity|].
    apply in_map_iff in Hin. destruct Hin as (sg & <- & _). reflexivity.
Qed.

Lemma site_flags (s : State) (sites : list (jsstring * SiteEntry))
      (secs : list SiteSection) :
  Forall2 (showsSite collationKey formatNumber formatDateTime s) sites secs ->
  forall p, In p (panels (map SiteNode secs)) ->
            snd p = savedOpen (accordionState s) (fst p).
Proof.
  induction 1 as [|g sec gs secs' (_ & _ & Hopen & Hsrc) HF IH];
    intros p Hp; [destruct Hp|].
  cbn [map] in Hp. unfold panels in Hp. cbn [flat_map panelsOf] in Hp.
  apply in_app_or in Hp. destruct Hp as [[<- | Hp] | Hp].
  - exact Hopen.
  - apply (source_flags _ _ _ _ Hsrc), Hp.
  - apply IH, Hp.
Qed.

End Platform.

End WithEngine.

End PanelFacts.

(* ================================================================= *)
(** ** Accordion ids *)
(* ================================================================= *)

Module IdSpec.
Import JS Feed Radar Spec Views Sample Cases.
Import JSFacts UriFacts IdFacts.

(** X1. [makeAccordionId] returns exactly when every part (a missing one
    counting as the empty string) is a well-formed string, and raises the
    URIError of [encodeURIComponent] otherwise.  The id it returns is made
    of ASCII characters only; parts made of unreserved characters (letters,
    digits and [- _ . ! ~ * ' ( )]) appear in it as they are, separated by
    bars. *)
Theorem makeAccordionId_outcome (parts : list (option jsstring)) :
  match makeAccordionId parts with
  | Ok id =>
      forallb (fun x => wellFormed (or_str x [])) parts = true
      /\ Forall (fun c => (c < 128)%N) id
  | Throw x =>
      forallb (fun x => wellFormed (or_str x [])) parts = false
      /\ x = uriMalformed
  end
  /\ forall l : list jsstring, forallb (forallb unreserved) l = true ->
               makeAccordionId (map Some l) = Ok (join (js "|") l).
Proof.
  split.
  - pose proof (makeAccordionId_defined parts) as D.
    destruct (forallb _ parts) eqn:E.
    + destruct D as [id Hid]. rewrite Hid. split; [reflexivity|].
      destruct (PersistenceSpec.makeAccordionId_inv _ _ Hid) as (enc & HF & ->).
      apply join_ascii. clear Hid E.
      induction HF as [|x y r ys Hx Hr IH]; constructor; [|exact IH].
      apply (encode_ascii _ _ _ (le_n _) Hx).
    + rewrite D. split; reflexivity.
  - intros l Hl. unfold makeAccordionId. rewrite (mapM_unreserved l Hl).
    reflexivity.
Qed.

(** Ids as the page makes them. *)
Example ids_of_panels :
  makeAccordionId [Some (js "site"); Some (js "hn")] = Ok (js "site|hn")
  /\ makeAccordionId [Some (js "source"); Some (js "site:hn"); Some (js "未分区")]
     = Ok (js "source|site%3Ahn|%E6%9C%AA%E5%88%86%E5%8C%BA")
  /\ makeAccordionId [Some (js "source"); Some (js "all"); Some [0xDC00%N]]
     = Throw uriMalformed.
Proof. vm_compute. repeat split. Qed.

End IdSpec.

(* ================================================================= *)
(** ** The rendered list *)
(* ================================================================= *)

Module RenderSpec.
Import JS Feed Radar Spec Views Sample Cases.
Import JSFacts UriFacts IdFacts RenderFacts PanelFacts.

Section Platform.
Context {engine : Engine}.
Variable collationKey : jsstring -> list N.
Variable formatNumber : N -> jsstring.
Variable formatDateTime : jsstring -> option jsstring.

(** X2. [renderList] returns normally exactly when there is nothing to show,
    or all of this holds: the accordion state is not [null]; the site id
    and the source name of every item to show are well-formed strings (no
    unpaired surrogate); and in the markup of every panel, with the name of
    the group interpolated, the parser leaves the list container to be
    found. *)
Theorem renderList_returns_iff (e : Env) :
  (exists e', Radar.renderList collationKey formatNumber formatDateTime e
              = (Ok tt, e'))
  <-> getFilteredItems (st e) = []
      \/ (accordionState (st e) <> JNull
          /\ (forall it, In it (getFilteredItems (st e)) ->
                wellFormed (site_id it) = true
                /\ wellFormed (sourceKey it) = true)
          /\ containersFound collationKey formatNumber (siteFilter (st e))
                             (getFilteredItems (st e))).
Proof.
  split.
  - intros [e' H]. apply (renderList_Ok_pre _ _ _ _ _ H).
  - intros [Hnil | (Ha & Hwf & Hc)].
    + rewrite renderList_unfold. cbv zeta. rewrite Hnil. eauto.
    + apply renderList_total; assumption.
Qed.

(** X3. Whatever its outcome, [renderList] leaves the state, the store and
    the network as they were and writes only the result count and the
    list; the count is that of the filtered items.  When it throws, the
    list is left empty, and the exception is the URIError of a malformed
    string, or a TypeError: that of reading a flag of a [null] accordion
    state, or that of appending to a list container that was not found
    (the message is the engine's). *)
Theorem renderList_leaves_state (e : Env) :
  let out := Radar.renderList collationKey formatNumber formatDateTime e in
  st (snd out) = st e
  /\ storage (snd out) = storage e
  /\ net (snd out) = net e
  /\ resultCount (dom (snd out))
     = Radar.countText formatNumber (length (getFilteredItems (st e)))
  /\ updatedAt (dom (snd out)) = updatedAt (dom e)
  /\ followOpml (dom (snd out)) = followOpml (dom e)
  /\ modeSwitch (dom (snd out)) = modeSwitch (dom e)
  /\ siteFilters (dom (snd out)) = siteFilters (dom e)
  /\ forall x, fst out = Throw x ->
       newsList (dom (snd out)) = []
       /\ (x = uriMalformed
           \/ (accordionState (st e) = JNull
               /\ exists id,
                    x = nullAccess Reading (js "state.accordionState") id)
           \/ (exists base,
                 x = nullAccess Reading base (js "appendChild")))
       /\ (exn_kind x = URIError \/ exn_kind x = TypeError).
Proof.
  cbv zeta.
  assert (Hthrow : forall x,
             fst (Radar.renderList collationKey formatNumber formatDateTime e)
             = Throw x ->
             panelError (st e) x
             /\ (exn_kind x = URIError \/ exn_kind x = TypeError)).
  { intros x Hx.
    assert (Hp : panelError (st e) x).
    { apply (renderList_throw collationKey formatNumber formatDateTime e
               (snd (Radar.renderList collationKey formatNumber
                                      formatDateTime e))).
      rewrite <- Hx. apply surjective_pairing. }
    split; [exact Hp|].
    destruct Hp as [-> | [(_ & id & ->) | (base & ->)]];
      [left | right | right]; reflexivity. }
  revert Hthrow. rewrite renderList_unfold. cbv zeta.
  destruct (getFilteredItems (st e)) as [|it0 flt].
  - intros _. do 8 (split; [reflexivity|]). intros x Hx. discriminate Hx.
  - destruct (truthy (siteFilter (st e)));
      match goal with
      | |- context [mapM ?F ?L] => destruct (mapM F L) as [secs|x']
      end; intros Hthrow; do 8 (split; [reflexivity|]); intros x Hx;
      try discriminate Hx; (split; [reflexivity | apply Hthrow, Hx]).
Qed.

(** X4. What the list holds after [renderList] has returned: the
    placeholder when nothing passes the filter; with a site filter, one
    source panel for each source group of the filtered items, in the order
    of [groupBySource]; without one, one site panel for each site, in the
    order of the site grouping, holding the source panels of the site's
    items.  The markup of a panel is the template with the name of its
    group and the formatted count of its items interpolated as they are
    (what it shows is what the parser makes of that); its rows are the
    rendered items of the group. *)
Theorem renderList_panels (e e' : Env) :
  Radar.renderList collationKey formatNumber formatDateTime e = (Ok tt, e') ->
  let s := st e in
  let filtered := getFilteredItems s in
  let nodes := newsList (dom e') in
  (filtered = [] -> nodes = [EmptyNote (js "当前筛选条件下没有结果。")])
  /\ (filtered <> [] -> siteFilter s <> [] ->
      exists secs,
        nodes = map SourceNode secs
        /\ Forall2 (showsSource formatNumber formatDateTime s
                                (js "site:" ++ siteFilter s))
                   (Radar.groupBySource collationKey filtered) secs)
  /\ (filtered <> [] -> siteFilter s = [] ->
      exists secs,
        nodes = map SiteNode secs
        /\ Forall2 (showsSite collationKey formatNumber formatDateTime s)
                   (renderGroupedBySiteAndSource_sites collationKey filtered)
                   secs).
Proof.
  intros H. cbv zeta.
  destruct (renderList_Ok_inv _ _ _ _ _ H) as (nodes & -> & Hcases).
  cbn [dom with_dom newsList set_newsList].
  destruct Hcases as [(Hnil & ->) | [(Hne & Hsf & secs & -> & HF)
                                    | (Hne & Hsf & secs & -> & HF)]].
  - repeat split; intros; congruence.
  - repeat split; intros; try congruence. exists secs. auto.
  - repeat split; intros; try congruence. exists secs. auto.
Qed.

(** X5. After [renderList] has returned, every item that passes the filter
    is displayed exactly once: the item rows of the list are a
    rearrangement of the rendered filtered items. *)
Theorem each_filtered_item_shown_once (e e' : Env) :
  Radar.renderList collationKey formatNumber formatDateTime e = (Ok tt, e') ->
  Permutation (rows (newsList (dom e')))
              (map (Radar.renderItemNode formatDateTime)
                   (getFilteredItems (st e))).
Proof.
  intros H.
  destruct (renderList_Ok_inv _ _ _ _ _ H) as (nodes & -> & Hcases).
  cbn [dom with_dom newsList set_newsList]. cbv zeta in Hcases.
  destruct Hcases as [(Hnil & ->) | [(Hne & Hsf & secs & -> & HF)
                                    | (Hne & Hsf & secs & -> & HF)]].
  - rewrite Hnil. constructor.
  - rewrite rows_sources, (source_rows _ _ _ _ _ _ HF).
    apply Permutation_map.
    apply (GroupingSpec.source_groups_facts collationKey).
  - eapply Permutation_trans; [apply (site_rows _ _ _ _ _ _ HF)|].
    apply Permutation_map.
    apply (GroupingSpec.site_groups_facts collationKey).
Qed.

(** X6. No two panels of a rendered list share an accordion id: not two
    sites, not two sources of a site, not a site and a source, not the
    sources of different sites. *)
Theorem rendered_ids_distinct (e e' : Env) :
  Radar.renderList collationKey formatNumber formatDateTime e = (Ok tt, e') ->
  NoDup (map fst (panels (newsList (dom e')))).
Proof.
  intros H.
  destruct (renderList_Ok_inv _ _ _ _ _ H) as (nodes & -> & Hcases).
  cbn [dom with_dom newsList set_newsList]. cbv zeta in Hcases.
  destruct Hcases as [(Hnil & ->) | [(Hne & Hsf & secs & -> & HF)
                                    | (Hne & Hsf & secs & -> & HF)]].
  - constructor.
  - rewrite panels_sources, map_map.
    apply (ids_distinct _ _ (source_ids _ _ _ _ _ _ HF)).
    apply sourceParts_distinct, source_group_keys.
  - apply (ids_distinct _ _ (site_ids _ _ _ _ _ _ HF)).
    apply siteParts_distinct.
Qed.

(** X7. A rendered panel is open exactly when the accordion state holds the
    boolean [true] under its id; with nothing saved every panel is
    closed. *)
Theorem panels_open_as_saved (e e' : Env) :
  Radar.renderList collationKey formatNumber formatDateTime e = (Ok tt, e') ->
  (forall p, In p (panels (newsList (dom e'))) ->
             snd p = savedOpen (accordionState (st e)) (fst p))
  /\ (accordionState (st e) = JObject [] ->
      forall p, In p (panels (newsList (dom e'))) -> snd p = false).
Proof.
  intros H.
  assert (Hall : forall p, In p (panels (newsList (dom e'))) ->
                   snd p = savedOpen (accordionState (st e)) (fst p)).
  { destruct (renderList_Ok_inv _ _ _ _ _ H) as (nodes & -> & Hcases).
    cbn [dom with_dom newsList set_newsList]. cbv zeta in Hcases.
    destruct Hcases as [(Hnil & ->) | [(Hne & Hsf & secs & -> & HF)
                                      | (Hne & Hsf & secs & -> & HF)]].
    - intros p [].
    - rewrite panels_sources. apply (source_flags _ _ _ _ _ _ HF).
    - apply (site_flags _ _ _ _ _ _ HF). }
  split; [exact Hall|].
  intros Hfresh p Hp. rewrite (Hall p Hp), Hfresh. reflexivity.
Qed.

End Platform.

Section Examples.
#[local] Existing Instance Sample.engine.

Lemma renderList_panels_witness :
  exists secs,
    newsList (dom loaded) = map SiteNode secs
    /\ map site_markup secs
       = [siteGroupMarkup (js "Site X") (js "1");
          siteGroupMarkup (js "Site Y") (js "1")].
Proof.
  assert (H : Radar.renderList collationKey formatNumber formatDateTime loaded
              = (Ok tt, loaded)) by (vm_compute; reflexivity).
  destruct (renderList_panels _ _ _ _ _ H) as (_ & _ & Hsites).
  destruct Hsites as (secs & Hnodes & HF);
    [vm_compute; discriminate | reflexivity |].
  exists secs. split; [exact Hnodes|].
  assert (E : map SiteNode secs = newsList (dom loaded)) by (symmetry; exact Hnodes).
  clear - E. vm_compute in E.
  destruct secs as [|a [|b [|c r]]]; try discriminate E.
  inversion E. reflexivity.
Defined.

Lemma each_filtered_item_shown_once_witness :
  Permutation (rows (newsList (dom loaded)))
              (map (Radar.renderItemNode formatDateTime) [itemA; itemB]).
Proof.
  assert (H : Radar.renderList collationKey formatNumber formatDateTime loaded
              = (Ok tt, loaded)) by (vm_compute; reflexivity).
  apply (each_filtered_item_shown_once _ _ _ _ _ H).
Defined.

Lemma rendered_ids_distinct_witness :
  NoDup (map fst (panels (newsList (dom loaded)))).
Proof.
  assert (H : Radar.renderList collationKey formatNumber formatDateTime loaded
              = (Ok tt, loaded)) by (vm_compute; reflexivity).
  apply (rendered_ids_distinct _ _ _ _ _ H).
Defined.

Lemma panels_open_as_saved_witness :
  Forall (fun p => snd p = false) (panels (newsList (dom loaded))).
Proof.
  assert (H : Radar.renderList collationKey formatNumber formatDateTime loaded
              = (Ok tt, loaded)) by (vm_compute; reflexivity).
  apply Forall_forall.
  apply (panels_open_as_saved _ _ _ _ _ H). reflexivity.
Defined.

(** A source name with an unpaired surrogate: the list is cleared, the
    count is written, and the URIError comes out. *)
Example renderList_malformed_source :
  let out := Radar.renderList collationKey formatNumber formatDateTime
                              (dataEnv stateLone) in
  fst out = Throw uriMalformed
  /\ newsList (dom (snd out)) = []
  /\ resultCount (dom (snd out)) = js "2 条".
Proof. vm_compute. repeat split. Qed.

(** A source name that opens a [textarea] is a well-formed string, but it
    takes the list container of its panel as its text: the first item
    cannot be appended, and the TypeError of the engine comes out. *)
Example renderList_swallowed_container :
  let it := Sample.item (Some (js "Delta")) None None (js "X") (js "Site X")
                        (Some (js "<textarea>")) in
  let s := Radar.mkState [it] [] [] 1 0 0 [] true (js "X") [] Radar.ModeAi
                         None (JObject []) in
  let out := Radar.renderList collationKey formatNumber formatDateTime
                              (dataEnv s) in
  wellFormed (js "<textarea>") = true
  /\ fst out
     = Throw (mkExn TypeError
                (js "Cannot read properties of null (reading 'appendChild')"))
  /\ newsList (dom (snd out)) = []
  /\ resultCount (dom (snd out)) = js "1 条".
Proof. vm_compute. repeat split. Qed.

(** The panel of site X is open when the saved flags say so. *)
Example saved_flag_opens_panel :
  map (fun p => (fst p, snd p))
      (panels (newsList (dom (snd (Radar.renderList collationKey formatNumber
                                     formatDateTime (dataEnv stateOpenX))))))
  = [(js "site|X", true); (js "source|site%3AX|blog", false);
     (js "source|site%3AX|news", false);
     (js "site|Y", false); (js "source|site%3AY|blog", false)].
Proof. vm_compute. reflexivity. Qed.

End Examples.

End RenderSpec.

(* ================================================================= *)
(** ** Searching and site statistics *)
(* ================================================================= *)

Module SiteSpec.
Import JS Feed Radar Spec Views Sample Cases.
Import JSFacts UriFacts IdFacts RenderFacts PanelFacts.

Section WithEngine.
Context {engine : Engine}.

Lemma Substring_trans (a b c : jsstring) :
  Substring a b -> Substring b c -> Substring a c.
Proof.
  intros (p1 & q1 & ->) (p2 & q2 & ->).
  exists (p2 ++ p1), (q1 ++ q2). rewrite <- !app_assoc. reflexivity.
Qed.

Lemma Substring_nonempty (a b : jsstring) :
  Substring a b -> a <> [] -> b <> [].
Proof.
  intros (p & q & ->) Ha Hb. apply app_eq_nil in Hb. destruct Hb as [_ Hb].
  apply app_eq_nil in Hb. tauto.
Qed.

(** X8. Typing more never adds results: when the normalised query (trimmed,
    then lower-cased by the engine) occurs in the normalised form of a new
    query, every item the new query retains was retained before. *)
Theorem longer_query_narrows (s : State) (q' : jsstring) (item : Item) :
  Substring (toLowerCase (trim (query s))) (toLowerCase (trim q')) ->
  In item (getFilteredItems (set_query q' s)) ->
  In item (getFilteredItems s).
Proof.
  intros Hsub. unfold getFilteredItems. rewrite !filter_In.
  cbn [query siteFilter set_query].
  replace (modeItems (set_query q' s)) with (modeItems s)
    by (unfold modeItems, effectiveAllItems; destruct s; reflexivity).
  intros [Hin Hkeep]. split; [exact Hin|].
  destruct (truthy (siteFilter s) && negb (str_eqb (site_id item) (siteFilter s)));
    [discriminate|].
  destruct (truthy (toLowerCase (trim (query s)))) eqn:Eq; [|reflexivity].
  cbn [negb]. apply truthy_true in Eq.
  pose proof (Substring_nonempty _ _ Hsub Eq) as Eq'.
  apply truthy_true in Eq'. rewrite Eq' in Hkeep. cbn [negb] in Hkeep.
  apply includes_spec. apply includes_spec in Hkeep.
  apply (Substring_trans _ _ _ Hsub Hkeep).
Qed.

(** *** Site statistics *)

Lemma currentSiteStats_modeItems (collationKey : jsstring -> list N) (s : State) :
  currentSiteStats collationKey s = computeSiteStats collationKey (modeItems s).
Proof.
  unfold currentSiteStats, modeItems, effectiveAllItems.
  destruct (mode s); reflexivity.
Qed.

Lemma list_sum_perm (l l' : list nat) :
  Permutation l l' -> list_sum l = list_sum l'.
Proof. induction 1; simpl; lia. Qed.

Lemma stat_rows_keys (items : list Item) :
  map stat_site_id (computeSiteStats_rows items)
  = map fst (fold_left computeSiteStats_step items []).
Proof.
  unfold computeSiteStats_rows, Map_values.
  destruct (GroupingSpec.stat_rows_grouped items) as (_ & Hent & _).
  rewrite map_map. apply map_ext_in. intros [k row] H. cbn [fst snd].
  apply (Hent k row H).
Qed.

Lemma stat_row_entry (items : list Item) (r : SiteStat) :
  In r (computeSiteStats_rows items) ->
  statEntry (stat_site_id r) r (filter (hasKey site_id (stat_site_id r)) items).
Proof.
  unfold computeSiteStats_rows, Map_values. intros Hr.
  apply in_map_iff in Hr. destruct Hr as ([k row] & <- & H). cbn [snd].
  destruct (GroupingSpec.stat_rows_grouped items) as (_ & Hent & _).
  destruct (Hent k row H) as [Hentry _].
  pose proof Hentry as (Hid & _). rewrite Hid. exact Hentry.
Qed.

Section Stats.
Variable collationKey : jsstring -> list N.

Lemma stat_ids_perm (items : list Item) :
  Permutation (map stat_site_id (computeSiteStats collationKey items))
              (map fst (fold_left computeSiteStats_step items [])).
Proof.
  rewrite <- stat_rows_keys. apply Permutation_map, Array_sort_perm.
Qed.

Lemma stat_ids_distinct (items : list Item) :
  NoDup (map stat_site_id (computeSiteStats collationKey items)).
Proof.
  destruct (GroupingSpec.stat_rows_grouped items) as (Hnd & _ & _).
  eapply Permutation_NoDup; [apply Permutation_sym, stat_ids_perm | exact Hnd].
Qed.

Lemma stat_ids_cover (items : list Item) (k : jsstring) :
  In k (map stat_site_id (computeSiteStats collationKey items))
  <-> exists it, In it items /\ site_id it = k.
Proof.
  destruct (GroupingSpec.stat_rows_grouped items) as (_ & Hent & Hcov).
  split.
  - intros Hk. apply (Permutation_in _ (stat_ids_perm items)) in Hk.
    apply in_map_iff in Hk. destruct Hk as ([k' row] & <- & H).
    destruct (Hent k' row H) as [_ Hne].
    destruct (filter_witness _ _ Hne) as (it & Hin & Hk).
    exists it. split; [exact Hin | apply str_eqb_eq, Hk].
  - intros (it & Hin & <-).
    apply (Permutation_in _ (Permutation_sym (stat_ids_perm items))), Hcov, Hin.
Qed.

(** X9. [computeSiteStats] returns one row for each site id that occurs
    among the items and no other row: the ids of the rows are distinct; a
    row carries the name of the first item of its site, a positive count,
    and a raw count equal to the count; the counts add up to the number of
    items. *)
Theorem site_stats_rows (items : list Item) :
  let stats := computeSiteStats collationKey items in
  NoDup (map stat_site_id stats)
  /\ (forall k, In k (map stat_site_id stats)
                <-> exists it, In it items /\ site_id it = k)
  /\ (forall r, In r stats ->
        stat_raw_count r = stat_count r
        /\ (0 < stat_count r)%N
        /\ exists first rest,
             filter (hasKey site_id (stat_site_id r)) items = first :: rest
             /\ stat_site_name r = site_name first)
  /\ list_sum (map (fun r => N.to_nat (stat_count r)) stats) = length items.
Proof.
  cbv zeta.
  split; [apply stat_ids_distinct | split; [apply stat_ids_cover | split]].
  - intros r Hr. apply Array_sort_In in Hr.
    destruct (stat_row_entry items r Hr)
      as (_ & Hc & Hraw & first & rest & Hl & Hname).
    split; [congruence|]. split.
    + rewrite Hc, Hl. cbn [length]. lia.
    + exists first, rest. auto.
  - unfold computeSiteStats.
    rewrite (list_sum_perm _ _
               (Permutation_map _ (Array_sort_perm (siteStat_cmp collationKey)
                                                   (computeSiteStats_rows items)))).
    destruct (GroupingSpec.stat_rows_grouped items) as (Hnd & _ & Hcov).
    transitivity
      (list_sum (map (fun k => length (filter (hasKey site_id k) items))
                     (map fst (fold_left computeSiteStats_step items [])))).
    + rewrite <- stat_rows_keys, !map_map. f_equal.
      apply map_ext_in. intros r Hr.
      destruct (stat_row_entry items r Hr) as (_ & Hc & _).
      rewrite Hc. apply Nat2N.id.
    + rewrite <- (Permutation_length
                    (partition_perm site_id _ items Hnd Hcov)).
      rewrite length_concat, !map_map. reflexivity.
Qed.

(** X10. The count on the pill of a site is the number of results its
    click gives: with a blank query, the filter set to the id of a row of
    [currentSiteStats] retains exactly the items of that site in the
    mode-selected array, as many as the row counts. *)
Theorem pill_count_is_result_count (s : State) (r : SiteStat) :
  In r (currentSiteStats collationKey s) ->
  stat_site_id r <> [] ->
  (forall c, In c (query s) -> isWhiteSpace c = true) ->
  getFilteredItems (set_siteFilter (stat_site_id r) s)
  = filter (hasKey site_id (stat_site_id r)) (modeItems s)
  /\ N.of_nat (length (getFilteredItems (set_siteFilter (stat_site_id r) s)))
     = stat_count r.
Proof.
  intros Hr Hid Hq.
  assert (E : getFilteredItems (set_siteFilter (stat_site_id r) s)
              = filter (hasKey site_id (stat_site_id r)) (modeItems s)).
  { unfold getFilteredItems. cbn [query siteFilter set_siteFilter].
    rewrite (FilterSpec.blank_query s Hq). cbn [truthy negb].
    apply truthy_true in Hid. rewrite Hid. cbn [andb].
    replace (modeItems (set_siteFilter (stat_site_id r) s)) with (modeItems s)
      by (unfold modeItems, effectiveAllItems; destruct s; reflexivity).
    apply filter_ext. intros it. unfold hasKey.
    destruct (str_eqb (site_id it) (stat_site_id r)); reflexivity. }
  split; [exact E|]. rewrite E.
  rewrite currentSiteStats_modeItems in Hr. unfold computeSiteStats in Hr.
  apply Array_sort_In in Hr.
  destruct (stat_row_entry _ r Hr) as (_ & Hc & _). congruence.
Qed.

(** *** The site filter controls *)

Lemma count_in_distinct (k : jsstring) (l : list jsstring) :
  NoDup l ->
  length (filter (str_eqb k) l) = (if existsb (str_eqb k) l then 1 else 0)%nat.
Proof.
  induction 1 as [|x r Hx Hr IH]; [reflexivity|].
  cbn [filter existsb]. destruct (str_eqb k x) eqn:E; cbn [orb length].
  - apply str_eqb_eq in E. subst x.
    assert (En : existsb (str_eqb k) r = false).
    { apply not_true_is_false. intros Hex. apply existsb_exists in Hex.
      destruct Hex as (y & Hy & Ey). apply str_eqb_eq in Ey. subst y. tauto. }
    rewrite En in IH. rewrite IH. reflexivity.
  - exact IH.
Qed.

Lemma existsb_str_eqb (k : jsstring) (l : list jsstring) :
  existsb (str_eqb k) l = true <-> In k l.
Proof.
  rewrite existsb_exists. split.
  - intros (y & Hy & E). apply str_eqb_eq in E. subst. exact Hy.
  - intros H. exists k. split; [exact H | apply str_eqb_refl].
Qed.

Lemma str_eqb_sym (a b : jsstring) : str_eqb a b = str_eqb b a.
Proof.
  destruct (str_eqb a b) eqn:E.
  - apply str_eqb_eq in E. subst. symmetry. apply str_eqb_refl.
  - apply str_eqb_neq in E. symmetry. apply str_eqb_neq. congruence.
Qed.

Lemma filter_map_length {A B} (p : B -> bool) (g : A -> B) (l : list A) :
  length (filter p (map g l)) = length (filter (fun x => p (g x)) l).
Proof.
  induction l as [|x r IH]; [reflexivity|]. cbn [map filter].
  destruct (p (g x)); cbn [length]; rewrite IH; reflexivity.
Qed.

Lemma existsb_options {A} (f : jsstring) (key label : A -> jsstring)
      (l : list A) :
  existsb (fun o : jsstring * jsstring => str_eqb (fst o) f)
          (map (fun r => (key r, label r)) l)
  = existsb (str_eqb f) (map key l).
Proof.
  induction l as [|r l IH]; [reflexivity|].
  cbn [map existsb fst]. rewrite IH, (str_eqb_sym (key r)). reflexivity.
Qed.

(** What [renderSiteFilters] writes, in terms of the ids of the rows. *)
Lemma renderSiteFilters_view (e : Env) :
  let f := siteFilter (st e) in
  let ids := map stat_site_id (currentSiteStats collationKey (st e)) in
  exists v,
    renderSiteFilters collationKey e = (Ok tt, with_dom (set_siteFilters v) e)
    /\ map fst (siteOptions v) = [] :: ids
    /\ map pill_target (sitePills v) = [] :: ids
    /\ map pill_active (sitePills v) = map (str_eqb f) ([] :: ids)
    /\ siteSelectValue v = if str_eqb f [] || existsb (str_eqb f) ids
                           then f else [].
Proof.
  cbv zeta. unfold renderSiteFilters, modify. eexists. split; [reflexivity|].
  cbn [siteOptions sitePills siteSelectValue map fst pill_target pill_active].
  rewrite !map_map. cbn [fst pill_target pill_active].
  repeat split.
  unfold selectValue. cbn [existsb fst].
  rewrite (str_eqb_sym (js "") (siteFilter (st e))).
  rewrite (existsb_options (siteFilter (st e)) stat_site_id).
  reflexivity.
Qed.

Lemma active_pills (f : jsstring) (pills : list Pill) (ids : list jsstring) :
  map pill_active pills = map (str_eqb f) ids ->
  length (filter pill_active pills) = length (filter (str_eqb f) ids).
Proof.
  revert ids. induction pills as [|p r IH]; intros [|k ids] H;
    try discriminate H; [reflexivity|].
  cbn [map] in H. inversion H as [[Hp Hr]]. cbn [filter].
  rewrite Hp. destruct (str_eqb f k); cbn [length]; rewrite (IH ids Hr);
    reflexivity.
Qed.

Lemma listed_iff (s : State) (f : jsstring) :
  existsb (str_eqb f) (map stat_site_id (currentSiteStats collationKey s))
  = true
  <-> exists it, In it (modeItems s) /\ site_id it = f.
Proof.
  rewrite existsb_str_eqb, currentSiteStats_modeItems. apply stat_ids_cover.
Qed.

Lemma stale_not_listed (s : State) (f : jsstring) :
  (forall it, In it (modeItems s) -> site_id it <> f) ->
  existsb (str_eqb f) (map stat_site_id (currentSiteStats collationKey s))
  = false.
Proof.
  intros Hno. apply not_true_is_false. intros Ex.
  apply listed_iff in Ex. destruct Ex as (it & Hin & Hid).
  apply (Hno it Hin Hid).
Qed.

Lemma stale_filter_empty (s : State) :
  siteFilter s <> [] ->
  (forall it, In it (modeItems s) -> site_id it <> siteFilter s) ->
  getFilteredItems s = [].
Proof.
  intros Hf Hno. unfold getFilteredItems.
  apply truthy_true in Hf. rewrite Hf. cbn [andb].
  induction (modeItems s) as [|it r IH]; [reflexivity|].
  cbn [filter].
  assert (E : str_eqb (site_id it) (siteFilter s) = false)
    by (apply str_eqb_neq, Hno; left; reflexivity).
  rewrite E. cbn [negb]. apply IH. intros x Hx. apply Hno. right. exact Hx.
Qed.

(** X11. What [renderSiteFilters] has written when it returns: nothing but
    the site filter controls; the option and the pill of "all sites"
    followed by one option and one pill for each row of [currentSiteStats],
    in their order; a pill is active exactly when its target is the site
    filter.  When the filter is empty, or is the id of a site of the
    mode-selected array, the select shows the filter and exactly one pill
    is active; when it names no such site, the select shows nothing
    selected and no pill is active. *)
Theorem site_filter_view (e e' : Env) :
  renderSiteFilters collationKey e = (Ok tt, e') ->
  let f := siteFilter (st e) in
  let ids := map stat_site_id (currentSiteStats collationKey (st e)) in
  let v := siteFilters (dom e') in
    e' = with_dom (set_siteFilters v) e
    /\ map fst (siteOptions v) = [] :: ids
    /\ map pill_target (sitePills v) = [] :: ids
    /\ map pill_active (sitePills v) = map (str_eqb f) ([] :: ids)
    /\ (f = [] ->
        siteSelectValue v = []
        /\ ((forall it, In it (modeItems (st e)) -> site_id it <> []) ->
            length (filter pill_active (sitePills v)) = 1%nat))
    /\ (f <> [] ->
        (exists it, In it (modeItems (st e)) /\ site_id it = f) ->
        siteSelectValue v = f
        /\ length (filter pill_active (sitePills v)) = 1%nat)
    /\ (f <> [] ->
        (forall it, In it (modeItems (st e)) -> site_id it <> f) ->
        siteSelectValue v = []
        /\ length (filter pill_active (sitePills v)) = 0%nat).
Proof.
  intros Hret. cbv zeta.
  destruct (renderSiteFilters_view e) as (v & Hr & Ho & Ht & Ha & Hs).
  rewrite Hr in Hret. inversion Hret as [He']. clear Hret.
  cbn [dom with_dom siteFilters set_siteFilters].
  do 4 (split; [assumption || reflexivity|]).
  pose proof (active_pills _ _ _ Ha) as Hcount. cbn [filter] in Hcount.
  assert (Hnd : NoDup (map stat_site_id
                           (currentSiteStats collationKey (st e))))
    by (rewrite currentSiteStats_modeItems; apply stat_ids_distinct).
  pose proof (count_in_distinct (siteFilter (st e)) _ Hnd) as Hone.
  split; [|split].
  - intros Hf. rewrite Hf in *.
    change (str_eqb [] []) with true in Hs, Hcount.
    cbn [orb] in Hs. cbv iota in Hcount. cbn [length] in Hcount.
    split; [exact Hs|].
    intros Hno. rewrite Hcount, Hone, (stale_not_listed _ _ Hno). reflexivity.
  - intros Hf Hsite. apply listed_iff in Hsite.
    rewrite Hsite, orb_true_r in Hs. split; [exact Hs|].
    apply str_eqb_neq in Hf. rewrite Hf in Hcount.
    rewrite Hcount, Hone, Hsite. reflexivity.
  - intros Hf Hno. pose proof (stale_not_listed _ _ Hno) as Ex.
    apply str_eqb_neq in Hf. rewrite Hf, Ex in Hs. split; [exact Hs|].
    rewrite Hf in Hcount. rewrite Hcount, Hone, Ex. reflexivity.
Qed.

Variable formatNumber : N -> jsstring.
Variable formatDateTime : jsstring -> option jsstring.

(** X12. A switch of mode keeps the site filter.  When the items of the new
    mode include none of the filtered site, then once the listener has
    returned the filter is still in the state, the select shows no site
    selected, and the list shows the placeholder under a count of zero. *)
Theorem mode_switch_keeps_site_filter (m : Mode) (e e' : Env) :
  siteFilter (st e) <> [] ->
  (forall it, In it (modeItems (set_mode m (st e))) ->
              site_id it <> siteFilter (st e)) ->
  onModeClick collationKey formatNumber formatDateTime m e = (Ok tt, e') ->
  siteFilter (st e') = siteFilter (st e)
  /\ siteSelectValue (siteFilters (dom e')) = []
  /\ resultCount (dom e') = Radar.countText formatNumber 0
  /\ newsList (dom e') = [EmptyNote (js "当前筛选条件下没有结果。")].
Proof.
  intros Hf Hno.
  unfold onModeClick, bindM. unfold modify at 1. unfold renderModeSwitch, modify.
  match goal with
  | |- context [renderSiteFilters collationKey ?E] =>
      destruct (renderSiteFilters_view E) as (v & -> & _ & _ & _ & Hs)
  end.
  cbn [st with_st with_dom siteFilter set_mode] in Hs.
  rewrite (stale_not_listed (set_mode m (st e)) _ Hno) in Hs.
  apply str_eqb_neq in Hf. rewrite Hf in Hs. cbn [orb] in Hs.
  apply str_eqb_neq in Hf.
  rewrite renderList_unfold. cbv zeta. cbn [st with_st with_dom].
  rewrite (stale_filter_empty (set_mode m (st e)) Hf Hno).
  intros Hret. inversion Hret as [He']. clear Hret.
  cbn [st dom with_dom with_st siteFilter set_mode siteFilters set_siteFilters
       set_newsList set_resultCount resultCount newsList set_modeSwitch length].
  auto.
Qed.

End Stats.

End WithEngine.

Section Examples.
#[local] Existing Instance Sample.engine.

Lemma longer_query_narrows_witness :
  In itemA (getFilteredItems (set_query (js " alp ") stateThree)).
Proof.
  apply (longer_query_narrows (set_query (js " alp ") stateThree)
                              (js "Alpha") itemA).
  - exists [], (js "ha"). reflexivity.
  - vm_compute. left. reflexivity.
Defined.

Lemma site_filter_view_witness :
  let e := dataEnv (set_siteFilter (js "gone") stateThree) in
  let v := siteFilters (dom (snd (renderSiteFilters collationKey e))) in
  map fst (siteOptions v) = [js ""; js "X"; js "Y"]
  /\ siteSelectValue v = js ""
  /\ length (filter pill_active (sitePills v)) = 0%nat.
Proof.
  cbv zeta.
  assert (Hret : renderSiteFilters
                   collationKey
                   (dataEnv (set_siteFilter (js "gone") stateThree))
                 = (Ok tt,
                    snd (renderSiteFilters
                           collationKey
                           (dataEnv (set_siteFilter (js "gone") stateThree)))))
    by reflexivity.
  destruct (site_filter_view collationKey _ _ Hret)
    as (_ & Hopts & _ & _ & _ & _ & Hstale).
  split; [exact Hopts|].
  apply Hstale.
  - discriminate.
  - intros it [<- | [<- | [<- | []]]]; discriminate.
Defined.

Lemma mode_switch_keeps_site_filter_witness :
  let e' := snd (onModeClick collationKey formatNumber formatDateTime ModeAll
                             (dataEnv (set_siteFilter (js "Y") stateThree))) in
  siteFilter (st e') = js "Y"
  /\ siteSelectValue (siteFilters (dom e')) = []
  /\ resultCount (dom e') = js "0 条"
  /\ newsList (dom e') = [EmptyNote (js "当前筛选条件下没有结果。")].
Proof.
  cbv zeta.
  apply (mode_switch_keeps_site_filter collationKey formatNumber formatDateTime
           ModeAll (dataEnv (set_siteFilter (js "Y") stateThree))).
  - discriminate.
  - intros it [<- | []]. discriminate.
  - reflexivity.
Defined.

Lemma pill_count_is_result_count_witness :
  getFilteredItems (set_siteFilter (js "X") stateThree) = [itemA; itemC]
  /\ N.of_nat (length (getFilteredItems (set_siteFilter (js "X") stateThree)))
     = 2%N.
Proof.
  apply (pill_count_is_result_count collationKey stateThree
           (mkSiteStat (js "X") (js "Site X") 2 2)).
  - vm_compute. left. reflexivity.
  - discriminate.
  - intros c [].
Defined.

End Examples.

End SiteSpec.

(* ================================================================= *)
(** ** The event listeners *)
(* ================================================================= *)

Module HandlerSpec.
Import JS Feed Radar Spec Views Sample Cases.
Import JSFacts IdFacts RenderFacts PanelFacts.

Section Platform.
Context {engine : Engine}.
Variable collationKey : jsstring -> list N.
Variable formatNumber : N -> jsstring.
Variable formatDateTime : jsstring -> option jsstring.

(** X13. The listeners change one field of the state each, and nothing
    else of it, whether or not the rendering that follows returns: the
    search box the query, the select and the pills the site filter, the
    mode buttons the mode, the toggle the deduplication flag.  The item
    arrays, the totals and the accordion state are as before; nothing is
    written to the store and nothing is fetched. *)
Theorem listeners_change_one_field (e : Env) :
  (forall value,
      let e' := snd (onSearchInput collationKey formatNumber formatDateTime
                                   value e) in
      st e' = set_query value (st e)
      /\ storage e' = storage e /\ net e' = net e)
  /\ (forall value,
        let e' := snd (onSiteChange collationKey formatNumber formatDateTime
                                    value e) in
        st e' = set_siteFilter value (st e)
        /\ storage e' = storage e /\ net e' = net e)
  /\ (forall p,
        let e' := snd (onPillClick collationKey formatNumber formatDateTime
                                   p e) in
        st e' = set_siteFilter (pill_target p) (st e)
        /\ storage e' = storage e /\ net e' = net e)
  /\ (forall m,
        let e' := snd (onModeClick collationKey formatNumber formatDateTime
                                   m e) in
        st e' = set_mode m (st e)
        /\ storage e' = storage e /\ net e' = net e)
  /\ (forall checked,
        let e' := snd (onDedupeChange collationKey formatNumber formatDateTime
                                      checked e) in
        st e' = set_allDedup checked (st e)
        /\ storage e' = storage e /\ net e' = net e).
Proof.
  assert (Hsite : forall value,
             let e' := snd (onSiteChange collationKey formatNumber
                                         formatDateTime value e) in
             st e' = set_siteFilter value (st e)
             /\ storage e' = storage e /\ net e' = net e).
  { intros value. cbv zeta.
    unfold onSiteChange, bindM, renderSiteFilters, modify.
    match goal with
    | |- context [Radar.renderList _ _ _ ?E] =>
        destruct (renderList_after collationKey formatNumber formatDateTime E)
          as (r & W & ->)
    end.
    destruct r as [[]|x]; repeat split. }
  split; [|split; [exact Hsite | split; [intros p; apply Hsite | split]]].
  - intros value. cbv zeta. unfold onSearchInput, bindM, modify.
    match goal with
    | |- context [Radar.renderList _ _ _ ?E] =>
        destruct (renderList_after collationKey formatNumber formatDateTime E)
          as (r & W & ->)
    end.
    destruct r as [[]|x]; repeat split.
  - intros m. cbv zeta.
    unfold onModeClick, bindM, renderModeSwitch, renderSiteFilters, modify.
    match goal with
    | |- context [Radar.renderList _ _ _ ?E] =>
        destruct (renderList_after collationKey formatNumber formatDateTime E)
          as (r & W & ->)
    end.
    destruct r as [[]|x]; repeat split.
  - intros checked. cbv zeta.
    unfold onDedupeChange, bindM, renderModeSwitch, renderSiteFilters, modify.
    match goal with
    | |- context [Radar.renderList _ _ _ ?E] =>
        destruct (renderList_after collationKey formatNumber formatDateTime E)
          as (r & W & ->)
    end.
    destruct r as [[]|x]; repeat split.
Qed.

(** *** The views follow the state *)

Lemma modeSwitchCurrent_iff (e : Env) :
  modeSwitchCurrent formatNumber e
  <-> modeSwitch (dom e)
      = modeSwitch (dom (snd (renderModeSwitch formatNumber e))).
Proof.
  unfold modeSwitchCurrent, renderModeSwitch, modify, with_dom, set_modeSwitch.
  destruct e as [s d sto n]. destruct d as [a b c fo ms sf].
  cbn [snd dom st storage net modeSwitch updatedAt resultCount newsList
       followOpml siteFilters].
  split.
  - intros H. injection H as E. symmetry. exact E.
  - intros <-. reflexivity.
Qed.

Lemma siteFiltersCurrent_iff (e : Env) :
  siteFiltersCurrent collationKey e
  <-> siteFilters (dom e)
      = siteFilters (dom (snd (renderSiteFilters collationKey e))).
Proof.
  unfold siteFiltersCurrent, renderSiteFilters, modify, with_dom,
    set_siteFilters.
  destruct e as [s d sto n]. destruct d as [a b c fo ms sf].
  cbn [snd dom st storage net modeSwitch updatedAt resultCount newsList
       followOpml siteFilters].
  split.
  - intros H. injection H as E. symmetry. exact E.
  - intros <-. reflexivity.
Qed.

(** What the two controls read of the state. *)
Lemma renderModeSwitch_reads (e e' : Env) :
  mode (st e') = mode (st e) ->
  allDedup (st e') = allDedup (st e) ->
  totalAi (st e') = totalAi (st e) ->
  totalAllMode (st e') = totalAllMode (st e) ->
  totalRaw (st e') = totalRaw (st e) ->
  itemsAll (st e') = itemsAll (st e) ->
  itemsAllRaw (st e') = itemsAllRaw (st e) ->
  modeSwitch (dom (snd (renderModeSwitch formatNumber e')))
  = modeSwitch (dom (snd (renderModeSwitch formatNumber e))).
Proof.
  intros H1 H2 H3 H4 H5 H6 H7. unfold renderModeSwitch, modify.
  cbn [snd dom with_dom set_modeSwitch modeSwitch].
  rewrite H1, H2, H3, H4, H5, H6, H7. reflexivity.
Qed.

Lemma renderSiteFilters_reads (e e' : Env) :
  siteFilter (st e') = siteFilter (st e) ->
  mode (st e') = mode (st e) ->
  allDedup (st e') = allDedup (st e) ->
  itemsAi (st e') = itemsAi (st e) ->
  itemsAll (st e') = itemsAll (st e) ->
  itemsAllRaw (st e') = itemsAllRaw (st e) ->
  siteFilters (dom (snd (renderSiteFilters collationKey e')))
  = siteFilters (dom (snd (renderSiteFilters collationKey e))).
Proof.
  intros H1 H2 H3 H4 H5 H6. unfold renderSiteFilters, modify.
  cbn [snd dom with_dom set_siteFilters siteFilters].
  unfold currentSiteStats. rewrite H1, H2, H3, H4, H5, H6. reflexivity.
Qed.

(** After [renderList] has returned, the list is that of the state, and
    the two controls are as they were. *)
Lemma renderList_current (e e' : Env) :
  Radar.renderList collationKey formatNumber formatDateTime e = (Ok tt, e') ->
  listCurrent collationKey formatNumber formatDateTime e'
  /\ st e' = st e
  /\ modeSwitch (dom e') = modeSwitch (dom e)
  /\ siteFilters (dom e') = siteFilters (dom e).
Proof.
  destruct (renderList_sem collationKey formatNumber formatDateTime (st e))
    as (r & nodes & H).
  rewrite (H e eq_refl). intros E. inversion E; subst r e'. clear E.
  unfold listCurrent. split; [|repeat split].
  rewrite (H (with_dom _ e) eq_refl). reflexivity.
Qed.

(** X14. The views are those of the state, and the listeners keep it so:
    when the mode switch and the site filter controls show what their
    render functions would write, then after a listener has returned the
    mode switch, the site filter controls and the list all show what their
    render functions would write for the new state (rendering again would
    change nothing). *)
Theorem listeners_keep_views_current (e e' : Env) :
  modeSwitchCurrent formatNumber e ->
  siteFiltersCurrent collationKey e ->
  (exists value,
      onSearchInput collationKey formatNumber formatDateTime value e
      = (Ok tt, e'))
  \/ (exists value,
         onSiteChange collationKey formatNumber formatDateTime value e
         = (Ok tt, e'))
  \/ (exists m,
         onModeClick collationKey formatNumber formatDateTime m e
         = (Ok tt, e'))
  \/ (exists checked,
         onDedupeChange collationKey formatNumber formatDateTime checked e
         = (Ok tt, e')) ->
  modeSwitchCurrent formatNumber e'
  /\ siteFiltersCurrent collationKey e'
  /\ listCurrent collationKey formatNumber formatDateTime e'.
Proof.
  intros Hms Hsf Hcase.
  apply modeSwitchCurrent_iff in Hms. apply siteFiltersCurrent_iff in Hsf.
  rewrite modeSwitchCurrent_iff, siteFiltersCurrent_iff.
  destruct Hcase as [[v H] | [[v H] | [[m H] | [c H]]]].
  - unfold onSearchInput, bindM, modify in H.
    apply renderList_current in H. destruct H as (Hl & Hst & Hm & Hf).
    split; [|split; [|exact Hl]].
    + rewrite Hm. cbn [dom with_st]. rewrite Hms.
      symmetry. apply renderModeSwitch_reads; rewrite Hst; reflexivity.
    + rewrite Hf. cbn [dom with_st]. rewrite Hsf.
      symmetry. apply renderSiteFilters_reads; rewrite Hst; reflexivity.
  - unfold onSiteChange, bindM in H. unfold modify at 1 in H.
    unfold renderSiteFilters at 1 in H. unfold modify at 1 in H.
    apply renderList_current in H. destruct H as (Hl & Hst & Hm & Hf).
    split; [|split; [|exact Hl]].
    + rewrite Hm. cbn [dom with_st with_dom set_siteFilters modeSwitch].
      rewrite Hms.
      symmetry. apply renderModeSwitch_reads; rewrite Hst; reflexivity.
    + rewrite Hf. cbn [dom with_st with_dom set_siteFilters siteFilters].
      unfold renderSiteFilters, modify.
      cbn [snd dom with_dom set_siteFilters siteFilters]. rewrite Hst.
      reflexivity.
  - unfold onModeClick, bindM in H. unfold modify at 1 in H.
    unfold renderModeSwitch at 1 in H. unfold modify at 1 in H.
    unfold renderSiteFilters at 1 in H. unfold modify at 1 in H.
    apply renderList_current in H. destruct H as (Hl & Hst & Hm & Hf).
    split; [|split; [|exact Hl]].
    + rewrite Hm. unfold renderModeSwitch, modify.
      cbn [snd dom with_dom set_siteFilters set_modeSwitch modeSwitch].
      rewrite Hst. reflexivity.
    + rewrite Hf. unfold renderSiteFilters, modify.
      cbn [snd dom with_dom set_siteFilters siteFilters]. rewrite Hst.
      reflexivity.
  - unfold onDedupeChange, bindM in H. unfold modify at 1 in H.
    unfold renderModeSwitch at 1 in H. unfold modify at 1 in H.
    unfold renderSiteFilters at 1 in H. unfold modify at 1 in H.
    apply renderList_current in H. destruct H as (Hl & Hst & Hm & Hf).
    split; [|split; [|exact Hl]].
    + rewrite Hm. unfold renderModeSwitch, modify.
      cbn [snd dom with_dom set_siteFilters set_modeSwitch modeSwitch].
      rewrite Hst. reflexivity.
    + rewrite Hf. unfold renderSiteFilters, modify.
      cbn [snd dom with_dom set_siteFilters siteFilters]. rewrite Hst.
      reflexivity.
Qed.


Lemma blank_shows_mode_items (s : State) :
  siteFilter s = [] ->
  (forall c, In c (query s) -> isWhiteSpace c = true) ->
  getFilteredItems s = modeItems s.
Proof.
  intros Hf Hq. unfold getFilteredItems.
  rewrite Hf, (FilterSpec.blank_query s Hq). cbn [truthy andb negb].
  apply FilterSpec.filter_all.
Qed.

(** X15. When the payload gives no totals (absent or zero), the number in
    the mode hint is the size of the array the mode shows, whatever the
    mode and the deduplication flag chosen afterwards; with no site filter
    and a blank query it is the number the result count shows. *)
Theorem mode_hint_counts_shown_array (p : Snapshot) (s0 : State) (m : Mode)
        (b : bool) (e : Env) :
  or_num (total_items p) 0 = 0%N ->
  or_num (total_items_raw p) 0 = 0%N ->
  or_num (total_items_all_mode p) 0 = 0%N ->
  st e = set_allDedup b (set_mode m (applyPayload p s0)) ->
  let shown := formatNumber (N.of_nat (length (modeItems (st e)))) in
  modeHint (modeSwitch (dom (snd (renderModeSwitch formatNumber e))))
  = (match m with
     | ModeAi => js "当前视图：AI强相关（"
     | ModeAll =>
         js "当前视图：全量（"
           ++ (if b then js "去重开" else js "去重关") ++ js "，"
     end) ++ shown ++ js " 条）"
  /\ (siteFilter (st e) = [] ->
      (forall c, In c (query (st e)) -> isWhiteSpace c = true) ->
      resultCount
        (dom (snd (Radar.renderList collationKey formatNumber formatDateTime
                                    e)))
      = shown ++ js " 条").
Proof.
  intros H1 H2 H3 Hst. cbv zeta. split.
  - unfold renderModeSwitch, modify.
    cbn [snd dom with_dom set_modeSwitch modeSwitch modeHint].
    rewrite Hst. unfold modeItems, effectiveAllItems, Radar.fmtNumber.
    cbn [mode allDedup totalAi totalRaw totalAllMode itemsAi itemsAll
         itemsAllRaw set_allDedup set_mode applyPayload].
    assert (Hnum : forall o d, or_num o 0 = 0%N ->
                     or_num (Some (or_num o d)) d = d).
    { intros [n|] d; cbn [or_num]; [|destruct (d =? 0)%N eqn:E;
                                      [apply N.eqb_eq in E; congruence
                                      | reflexivity]].
      destruct (n =? 0)%N eqn:En; [intros _ | intros Hn; rewrite Hn in En;
                                             discriminate En].
      destruct (d =? 0)%N eqn:E; [apply N.eqb_eq in E; congruence
                                 | reflexivity]. }
    assert (Hai : forall o d, or_num o 0 = 0%N -> or_num o d = d).
    { intros [n|] d; cbn [or_num]; [|reflexivity].
      destruct (n =? 0)%N eqn:En; [reflexivity|].
      intros Hn. rewrite Hn in En. discriminate En. }
    destruct m; cbn [is_all negb].
    + rewrite (Hai _ _ H1). reflexivity.
    + destruct b; [rewrite (Hnum _ _ H3) | rewrite (Hnum _ _ H2)];
        rewrite <- ?app_assoc; reflexivity.
  - intros Hf Hq.
    destruct (renderList_sem collationKey formatNumber formatDateTime (st e))
      as (r & nodes & Hsem).
    rewrite (Hsem e eq_refl). cbn [snd dom with_dom resultCount
                                   set_newsList set_resultCount].
    unfold Radar.countText, Radar.fmtNumber.
    rewrite (blank_shows_mode_items (st e) Hf Hq). reflexivity.
Qed.


(** *** What the events leave alone *)

Section Events.
Variable JSON_parse : jsstring -> result jsval.
Variable JSON_stringify : jsval -> result jsstring.

Lemma sameData_refl (s : State) : sameData s s.
Proof. repeat split. Qed.

Lemma sameData_trans (s1 s2 s3 : State) :
  sameData s1 s2 -> sameData s2 s3 -> sameData s1 s3.
Proof.
  unfold sameData.
  intros (A1 & A2 & A3 & A4 & A5 & A6 & A7 & A8)
         (B1 & B2 & B3 & B4 & B5 & B6 & B7 & B8).
  repeat split; congruence.
Qed.

Lemma writeAccordionState_frame (e : Env) :
  exists sto,
    writeAccordionState JSON_stringify e = (Ok tt, with_storage sto e).
Proof.
  unfold writeAccordionState, tryM. cbv zeta.
  destruct (bind _ _) as [sto|x].
  - exists sto. reflexivity.
  - exists (storage e). destruct e; reflexivity.
Qed.

Lemma onToggle_frame (id : jsstring) (b : bool) (e : Env) :
  let e' := snd (onToggle JSON_stringify id b e) in
  sameData (st e) (st e') /\ dom e' = dom e /\ net e' = net e.
Proof.
  cbv zeta. unfold onToggle, bindM, gets, liftR.
  destruct (setFlag (accordionState (st e)) id b) as [a'|x].
  - unfold modify.
    destruct (writeAccordionState_frame
                (with_st (set_accordionState a') e)) as [sto ->].
    repeat split.
  - repeat split.
Qed.

(** A listener leaves the data of the snapshot and the network alone. *)
Lemma listener_frame (ev : Event) (e : Env) :
  let e' := snd (listener collationKey formatNumber formatDateTime
                          JSON_stringify ev e) in
  sameData (st e) (st e') /\ net e' = net e.
Proof.
  cbv zeta.
  assert (Hsite : forall value,
             let e' := snd (onSiteChange collationKey formatNumber
                                         formatDateTime value e) in
             sameData (st e) (st e') /\ net e' = net e).
  { intros value. cbv zeta.
    unfold onSiteChange, bindM, renderSiteFilters, modify.
    match goal with
    | |- context [Radar.renderList _ _ _ ?E] =>
        destruct (renderList_after collationKey formatNumber formatDateTime E)
          as (r & W & ->)
    end.
    destruct r as [[]|x]; repeat split. }
  destruct ev as [value|value|p|m|checked|id open]; cbn [listener].
  - unfold onSearchInput, bindM, modify.
    match goal with
    | |- context [Radar.renderList _ _ _ ?E] =>
        destruct (renderList_after collationKey formatNumber formatDateTime E)
          as (r & W & ->)
    end.
    destruct r as [[]|x]; repeat split.
  - apply Hsite.
  - apply Hsite.
  - unfold onModeClick, bindM, renderModeSwitch, renderSiteFilters, modify.
    match goal with
    | |- context [Radar.renderList _ _ _ ?E] =>
        destruct (renderList_after collationKey formatNumber formatDateTime E)
          as (r & W & ->)
    end.
    destruct r as [[]|x]; repeat split.
  - unfold onDedupeChange, bindM, renderModeSwitch, renderSiteFilters, modify.
    match goal with
    | |- context [Radar.renderList _ _ _ ?E] =>
        destruct (renderList_after collationKey formatNumber formatDateTime E)
          as (r & W & ->)
    end.
    destruct r as [[]|x]; repeat split.
  - destruct (onToggle_frame id open e) as (H1 & _ & H2). auto.
Qed.

(** The events that arrive before the load settles are all handled; the
    data of the snapshot and the network are as they were. *)
Lemma dispatchAll_frame (evs : list Event) (e : Env) :
  exists e',
    dispatchAll collationKey formatNumber formatDateTime JSON_stringify evs e
    = (Ok tt, e')
    /\ sameData (st e) (st e') /\ net e' = net e.
Proof.
  revert e. induction evs as [|ev rest IH]; intros e.
  - exists e. split; [reflexivity|]. split; [apply sameData_refl | reflexivity].
  - cbn [dispatchAll]. unfold bindM at 1. unfold dispatch, tryM.
    pose proof (listener_frame ev e) as Hf. cbv zeta in Hf.
    destruct (listener collationKey formatNumber formatDateTime
                       JSON_stringify ev e) as [[[]|x] e1];
      cbn [snd] in Hf; destruct Hf as [Hd Hn]; unfold ret;
      destruct (IH e1) as (e' & -> & Hd' & Hn');
      exists e'; (split; [reflexivity|]);
      (split; [apply (sameData_trans _ _ _ Hd Hd') | congruence]).
Qed.

End Events.

End Platform.

Section Examples.
#[local] Existing Instance Sample.engine.

Lemma listeners_keep_views_current_witness :
  let e' := snd (onSiteChange collationKey formatNumber formatDateTime
                              (js "X") loaded) in
  modeSwitchCurrent formatNumber e'
  /\ siteFiltersCurrent collationKey e'
  /\ listCurrent collationKey formatNumber formatDateTime e'.
Proof.
  assert (Hms : modeSwitchCurrent formatNumber loaded)
    by (vm_compute; reflexivity).
  assert (Hsf : siteFiltersCurrent collationKey loaded)
    by (vm_compute; reflexivity).
  assert (Hrun : onSiteChange collationKey formatNumber formatDateTime
                              (js "X") loaded
                 = (Ok tt, snd (onSiteChange collationKey formatNumber
                                             formatDateTime (js "X") loaded)))
    by (vm_compute; reflexivity).
  apply (listeners_keep_views_current collationKey formatNumber formatDateTime
           loaded _ Hms Hsf).
  right. left. exists (js "X"). exact Hrun.
Defined.

Lemma mode_hint_counts_shown_array_witness :
  modeHint
    (modeSwitch
       (dom (snd (renderModeSwitch formatNumber
                    (dataEnv (set_allDedup false
                                (set_mode ModeAll
                                   (applyPayload itemsOnlySnapshot state0))))))))
  = js "当前视图：全量（去重关，3 条）".
Proof.
  apply (mode_hint_counts_shown_array collationKey formatNumber formatDateTime
           itemsOnlySnapshot state0 ModeAll false
           (dataEnv (set_allDedup false
                       (set_mode ModeAll
                          (applyPayload itemsOnlySnapshot state0)))));
    reflexivity.
Defined.

End Examples.

End HandlerSpec.

(* ================================================================= *)
(** ** The accordion state in memory, and start-up *)
(* ================================================================= *)

Module StartSpec.
Import JS Feed Radar Spec Views Sample Cases.
Import JSFacts IdFacts RenderFacts PanelFacts.
Local Open Scope nat_scope.

Lemma writeAccordionState_eq (JSON_stringify : jsval -> result jsstring)
      (e : Env) :
  exists s',
    writeAccordionState JSON_stringify e = (Ok tt, with_storage s' e)
    /\ (s' = storage e
        \/ exists text,
             JSON_stringify
               (if jv_truthy (accordionState (st e))
                then accordionState (st e) else JObject [])
             = Ok text
             /\ setItem ACCORDION_STORAGE_KEY text (storage e) = Ok s').
Proof.
  unfold writeAccordionState, tryM. cbv zeta.
  destruct (JSON_stringify _) as [text|err] eqn:Et; cbn [bind].
  - destruct (setItem ACCORDION_STORAGE_KEY text (storage e))
      as [s'|err] eqn:E.
    + exists s'. split; [reflexivity|]. right. exists text. auto.
    + exists (storage e). split; [|left; reflexivity].
      destruct e; reflexivity.
  - exists (storage e). split; [|left; reflexivity].
    destruct e; reflexivity.
Qed.

(** *** Flags kept in an array *)

Lemma arrayIndex_text (k : jsstring) (i : nat) :
  arrayIndex k = Some i -> k = decimal (N.of_nat i).
Proof.
  unfold arrayIndex. destruct (digitsValue 0 k) as [n|]; [|discriminate].
  destruct (str_eqb (decimal n) k) eqn:E; [|discriminate].
  destruct (n <? 4294967295)%N; [|discriminate].
  cbn [andb]. intros H. inversion H. rewrite N2Nat.id.
  symmetry. apply str_eqb_eq, E.
Qed.

Lemma arrayIndex_inj (k k' : jsstring) (i : nat) :
  arrayIndex k = Some i -> arrayIndex k' = Some i -> k = k'.
Proof.
  intros H H'. rewrite (arrayIndex_text _ _ H), (arrayIndex_text _ _ H').
  reflexivity.
Qed.

Lemma setElement_prefix (i : nat) (elems : list (option jsval)) :
  length (firstn i elems ++ repeat None (i - length elems)) = i.
Proof. rewrite length_app, length_firstn, repeat_length. lia. Qed.

Lemma nth_setElement_same (i : nat) (v : jsval)
      (elems : list (option jsval)) :
  nth_error (setElement i v elems) i = Some (Some v).
Proof.
  unfold setElement. rewrite app_assoc.
  rewrite nth_error_app2 by (rewrite setElement_prefix; lia).
  rewrite setElement_prefix, Nat.sub_diag. reflexivity.
Qed.

Lemma nth_setElement_other (i j : nat) (v : jsval)
      (elems : list (option jsval)) :
  j <> i ->
  match nth_error (setElement i v elems) j with
  | Some (Some x) => Some x
  | _ => None
  end
  = match nth_error elems j with
    | Some (Some x) => Some x
    | _ => None
    end.
Proof.
  intros Hne. unfold setElement.
  destruct (Nat.lt_ge_cases j i) as [Hlt | Hge].
  - rewrite app_assoc, nth_error_app1 by (rewrite setElement_prefix; lia).
    destruct (Nat.lt_ge_cases j (length elems)) as [Hin | Hout].
    + rewrite nth_error_app1 by (rewrite length_firstn; lia).
      rewrite nth_error_firstn.
      destruct (Nat.ltb_spec j i); [reflexivity | lia].
    + rewrite nth_error_app2 by (rewrite length_firstn; lia).
      rewrite nth_error_repeat by (rewrite length_firstn; lia).
      rewrite (proj2 (nth_error_None elems j) Hout). reflexivity.
  - rewrite app_assoc, nth_error_app2 by (rewrite setElement_prefix; lia).
    rewrite setElement_prefix.
    destruct (j - i) as [|m] eqn:E; [lia|]. cbn [app nth_error].
    rewrite nth_error_skipn. replace (S i + m) with j by lia. reflexivity.
Qed.

Section Toggle.
Context {engine : Engine}.

(** Writing a flag: on a plain object under any name but [__proto__]; on
    an array under an index, which stores an element, or under any other
    name but [length] and [__proto__]. *)
Lemma setFlag_records (a : jsval) (id : jsstring) (b : bool) :
  jv_truthy a = true -> typeof_object a = true -> id <> PROTO ->
  isPlainObject a = true \/ id <> LENGTH ->
  exists a',
    setFlag a id b = Ok a'
    /\ jv_truthy a' = true /\ typeof_object a' = true
    /\ getProp a' id = Ok (Some (JBool b))
    /\ forall id' s d,
         id' <> id ->
         bindAccordionState (set_accordionState a' s) id' d
         = bindAccordionState (set_accordionState a s) id' d.
Proof.
  intros Ht Ho Hid Hlen. pose proof Hid as Hid'. apply str_eqb_neq in Hid.
  destruct a as [| | | |elems own|props]; try discriminate.
  - destruct Hlen as [Hlen | Hlen]; [discriminate|].
    apply str_eqb_neq in Hlen.
    unfold setFlag. rewrite Hlen.
    destruct (arrayIndex id) as [i|] eqn:Ei.
    + eexists. split; [reflexivity|].
      split; [reflexivity|]. split; [reflexivity|]. split.
      * unfold getProp. rewrite Hlen, Ei, nth_setElement_same. reflexivity.
      * intros id' s d Hne. unfold bindAccordionState, getProp.
        cbn [accordionState set_accordionState].
        destruct (str_eqb id' LENGTH); [reflexivity|].
        destruct (arrayIndex id') as [j|] eqn:Ej; [|reflexivity].
        cbn [bind]. rewrite nth_setElement_other; [reflexivity|].
        intros ->. apply Hne. apply (arrayIndex_inj _ _ _ Ej Ei).
    + rewrite Hid. cbn [andb]. eexists. split; [reflexivity|].
      split; [reflexivity|]. split; [reflexivity|]. split.
      * unfold getProp. rewrite Hlen, Ei.
        rewrite PersistenceSpec.Map_get_set_same. reflexivity.
      * intros id' s d Hne. unfold bindAccordionState, getProp.
        cbn [accordionState set_accordionState].
        destruct (str_eqb id' LENGTH); [reflexivity|].
        destruct (arrayIndex id') as [j|]; [reflexivity|].
        rewrite (Map_get_set_other _ _ _ _ Hne). reflexivity.
  - unfold setFlag. rewrite Hid. cbn [andb]. eexists.
    split; [reflexivity|]. split; [reflexivity|]. split; [reflexivity|].
    split.
    + unfold getProp. rewrite PersistenceSpec.Map_get_set_same. reflexivity.
    + intros id' s d Hne. unfold bindAccordionState, getProp.
      cbn [accordionState set_accordionState].
      rewrite (Map_get_set_other _ _ _ _ Hne). reflexivity.
Qed.

(** X16. The toggle listener records the flag in memory whatever the store
    does.  When the accordion state is a plain object, or an array and the
    id is not [length] (a name under which an array keeps its size, not a
    flag), and the id is not the reserved name [__proto__], the listener
    returns normally; afterwards a panel bound to the id is given the new
    flag, panels bound to other ids are given what they were given before,
    the page and the network are untouched, and the store either is as it
    was or holds the text of the whole new state. *)
Theorem toggle_is_recorded (JSON_stringify : jsval -> result jsstring)
        (e : Env) (id : jsstring) (b : bool) :
  jv_truthy (accordionState (st e)) = true ->
  typeof_object (accordionState (st e)) = true ->
  id <> PROTO ->
  isPlainObject (accordionState (st e)) = true \/ id <> LENGTH ->
  exists e',
    onToggle JSON_stringify id b e = (Ok tt, e')
    /\ (forall d, bindAccordionState (st e') id d = Ok b)
    /\ (forall id' d, id' <> id ->
          bindAccordionState (st e') id' d = bindAccordionState (st e) id' d)
    /\ st e' = set_accordionState (accordionState (st e')) (st e)
    /\ dom e' = dom e /\ net e' = net e
    /\ (storage e' = storage e
        \/ exists text,
             JSON_stringify (accordionState (st e')) = Ok text
             /\ setItem ACCORDION_STORAGE_KEY text (storage e)
                = Ok (storage e')).
Proof.
  intros Ht Ho Hid Hlen.
  destruct (setFlag_records _ id b Ht Ho Hid Hlen)
    as (a' & Hset & Ht' & Ho' & Hget & Hother).
  unfold onToggle, bindM, gets, liftR, modify. rewrite Hset.
  destruct (writeAccordionState_eq JSON_stringify
              (with_st (set_accordionState a') e)) as (s' & -> & Hs').
  eexists. split; [reflexivity|].
  unfold with_storage, with_st in *.
  cbn [st dom net storage] in *.
  split; [|split; [|split; [reflexivity | split; [reflexivity | split;
                                                   [reflexivity|]]]]].
  - intros d. unfold bindAccordionState, set_accordionState.
    cbn [accordionState]. rewrite Hget. reflexivity.
  - intros id' d Hne. rewrite (Hother id' (st e) d Hne).
    destruct (st e); reflexivity.
  - unfold set_accordionState in *. cbn [accordionState] in *.
    rewrite Ht' in Hs'. destruct Hs' as [-> | (text & Hx & Hy)];
      [left; reflexivity | right; exists text; auto].
Qed.

End Toggle.

(** *** Start-up *)

Lemma storedAccordion_object (JSON_parse : jsstring -> result jsval)
      (s : Storage) :
  jv_truthy (storedAccordion JSON_parse s) = true
  /\ typeof_object (storedAccordion JSON_parse s) = true.
Proof.
  unfold storedAccordion.
  destruct (getItem ACCORDION_STORAGE_KEY s) as [[raw|]|err]; auto.
  destruct (truthy raw); auto.
  destruct (JSON_parse raw) as [parsed|err]; auto.
  destruct (jv_truthy parsed && typeof_object parsed) eqn:E; auto.
  apply andb_true_iff, E.
Qed.

Lemma initBegin_eq (JSON_parse : jsstring -> result jsval) (e : Env) :
  initBegin JSON_parse e
  = (Ok (fst (loadNewsData (net e))),
     with_net (snd (loadNewsData (net e)))
              (with_st (set_accordionState
                          (storedAccordion JSON_parse (storage e))) e)).
Proof.
  unfold initBegin, bindM. rewrite PersistenceSpec.readAccordionState_eq.
  unfold modify at 1. unfold settleLoad. cbn [net with_st].
  destruct (loadNewsData (net e)) as [r n]. reflexivity.
Qed.

Section Platform.
Context {engine : Engine}.
Variable collationKey : jsstring -> list N.
Variable formatNumber : N -> jsstring.
Variable formatDateTime : jsstring -> option jsstring.
Variable JSON_parse : jsstring -> result jsval.
Variable JSON_stringify : jsval -> result jsstring.

(** [init] once the load has settled. *)
Lemma initEnd_Ok (payload : Snapshot) (e : Env) :
  initEnd collationKey formatNumber formatDateTime (Ok payload) e
  = let e2 := snd (renderSiteFilters collationKey
                (snd (renderModeSwitch formatNumber
                  (snd (renderFollowOpml formatNumber formatDateTime
                     (with_st (applyPayload payload) e)))))) in
    match Radar.renderList collationKey formatNumber formatDateTime e2 with
    | (Ok _, e3) =>
        (Ok tt,
         with_dom (set_updatedAt
                     (js "更新时间：" ++ Radar.fmtTime
                         formatDateTime (generatedAt (st e3)))) e3)
    | (Throw x, e3) => (Throw x, e3)
    end.
Proof.
  cbv zeta. unfold initEnd, bindM.
  unfold renderFollowOpml, renderModeSwitch, renderSiteFilters, modify.
  cbn [snd].
  match goal with
  | |- context [Radar.renderList _ _ _ ?E] =>
      destruct (Radar.renderList collationKey formatNumber formatDateTime E)
        as [[[]|x] e3]
  end; reflexivity.
Qed.

Lemma initEnd_Throw (reason : exn) (e : Env) :
  initEnd collationKey formatNumber formatDateTime (Throw reason) e
  = (Ok tt,
     with_dom (set_newsList [Markup (emptyMarkup (message reason))])
              (with_dom (set_updatedAt (js "新闻数据加载失败")) e)).
Proof. reflexivity. Qed.

(** [init], step by step. *)
Lemma init_unfold (e : Env) :
  Radar.init collationKey formatNumber formatDateTime JSON_parse e
  = let a := storedAccordion JSON_parse (storage e) in
    let e1 := with_net (snd (loadNewsData (net e)))
                       (with_st (set_accordionState a) e) in
    match fst (loadNewsData (net e)) with
    | Ok payload =>
        let e2 := snd (renderSiteFilters collationKey
                   (snd (renderModeSwitch formatNumber
                     (snd (renderFollowOpml formatNumber formatDateTime
                        (with_st (applyPayload payload) e1)))))) in
        match Radar.renderList collationKey formatNumber formatDateTime e2
        with
        | (Ok _, e3) =>
            (Ok tt,
             with_dom (set_updatedAt
                         (js "更新时间：" ++ Radar.fmtTime
                             formatDateTime (generatedAt (st e3)))) e3)
        | (Throw x, e3) => (Throw x, e3)
        end
    | Throw reason =>
        (Ok tt,
         with_dom (set_newsList [Markup (emptyMarkup (message reason))])
                  (with_dom (set_updatedAt (js "新闻数据加载失败")) e1))
    end.
Proof.
  unfold Radar.init, bindM. rewrite initBegin_eq. cbv zeta.
  destruct (fst (loadNewsData (net e))) as [payload|reason].
  - rewrite initEnd_Ok. reflexivity.
  - apply initEnd_Throw.
Qed.

(** The page from its load on, step by step. *)
Lemma start_unfold (during : list Event) (e : Env) :
  exists ready,
    dispatchAll collationKey formatNumber formatDateTime JSON_stringify
                during (snd (initBegin JSON_parse e))
    = (Ok tt, ready)
    /\ sameData (st e) (st ready)
    /\ net ready = snd (loadNewsData (net e))
    /\ Radar.start collationKey formatNumber formatDateTime JSON_parse
                   JSON_stringify during e
       = initEnd collationKey formatNumber formatDateTime
                 (fst (loadNewsData (net e))) ready.
Proof.
  unfold Radar.start, bindM. rewrite initBegin_eq. cbn [snd].
  match goal with
  | |- context [dispatchAll _ _ _ _ during ?E] =>
      destruct (HandlerSpec.dispatchAll_frame collationKey formatNumber
                  formatDateTime JSON_stringify during E)
        as (ready & Hd & Hsame & Hnet)
  end.
  exists ready. rewrite Hd. split; [reflexivity|].
  split; [|split; [exact Hnet | reflexivity]].
  destruct Hsame as (H1 & H2 & H3 & H4 & H5 & H6 & H7 & H8).
  unfold sameData. cbn [st with_net with_st] in *.
  unfold set_accordionState in *.
  cbn [itemsAi itemsAll itemsAllRaw followOpmlItems totalAi totalRaw
       totalAllMode generatedAt] in *.
  repeat split; assumption.
Qed.

(** X17. Start-up leaves in memory the accordion state that
    [readAccordionState] makes of the store, whatever happens afterwards
    (a failed load, or a list that cannot be rendered): an object or an
    array, never [null], so that binding a panel to its saved flag never
    throws.  Start-up writes nothing to the store. *)
Theorem start_reads_accordion_state (e : Env) :
  let e' := snd (Radar.init collationKey formatNumber formatDateTime
                            JSON_parse e) in
  accordionState (st e') = storedAccordion JSON_parse (storage e)
  /\ jv_truthy (accordionState (st e')) = true
  /\ typeof_object (accordionState (st e')) = true
  /\ storage e' = storage e
  /\ forall id d, exists b, bindAccordionState (st e') id d = Ok b.
Proof.
  cbv zeta.
  assert (H : accordionState
                (st (snd (Radar.init collationKey formatNumber formatDateTime
                                     JSON_parse e)))
              = storedAccordion JSON_parse (storage e)
              /\ storage (snd (Radar.init collationKey formatNumber
                                          formatDateTime JSON_parse e))
                 = storage e).
  { rewrite init_unfold. cbv zeta.
    destruct (fst (loadNewsData (net e))) as [payload|reason];
      [|split; reflexivity].
    unfold renderFollowOpml, renderModeSwitch, renderSiteFilters, modify.
    cbn [snd].
    match goal with
    | |- context [Radar.renderList _ _ _ ?E] =>
        destruct (renderList_after collationKey formatNumber
                                               formatDateTime E)
          as (r & W & ->)
    end.
    destruct r as [[]|x]; split; reflexivity. }
  destruct H as [Ha Hs]. rewrite Ha.
  destruct (storedAccordion_object JSON_parse (storage e)) as [Ht Ho].
  repeat split; try assumption.
  intros id d. apply bindAccordionState_nonnull. rewrite Ha.
  intros E. rewrite E in Ht. discriminate Ht.
Qed.

(** X18. The page from its first line on a snapshot.  The state literal is
    created, the accordion state is read and the request is issued; while
    the snapshot loads the listeners are live and handle the events
    [during]; then, the response having an ok status and a body that
    parses to [p], [init] goes on.  When it returns normally: the state
    holds the arrays and totals of [p] (with their fallbacks) beside the
    query, site filter, mode, flag and accordion state that the events
    left; the result count is the number of items [getFilteredItems]
    retains; the timestamp shows the formatted generation time; the mode
    switch, the site filter controls and the list show what their render
    functions write for that state; one request was issued; the store is
    as the events left it.  With no event in between, the state is the
    literal with the payload and the stored accordion state, the
    AI-relevant items are all retained, and the store is untouched. *)
Theorem start_shows_snapshot (d : Dom) (sto : Storage) (n : Network)
        (during : list Event) (r : Response)
        (rest : list (result Response)) (p : Snapshot) (e' : Env) :
  responses n = Ok r :: rest ->
  ok r = true ->
  json r = Ok p ->
  Radar.start collationKey formatNumber formatDateTime JSON_parse
              JSON_stringify during (boot d sto n)
  = (Ok tt, e') ->
  let ready :=
    snd (dispatchAll collationKey formatNumber formatDateTime JSON_stringify
                     during (snd (initBegin JSON_parse (boot d sto n)))) in
  st e' = applyPayload p (st ready)
  /\ resultCount (dom e')
     = Radar.countText formatNumber (length (getFilteredItems (st e')))
  /\ updatedAt (dom e')
     = js "更新时间：" ++ Radar.fmtTime formatDateTime (generated_at p)
  /\ modeSwitchCurrent formatNumber e'
  /\ siteFiltersCurrent collationKey e'
  /\ listCurrent collationKey formatNumber formatDateTime e'
  /\ requests (net e') = requests n ++ [snapshotUrl (clock n)]
  /\ storage e' = storage ready
  /\ (during = [] ->
      st e'
      = applyPayload p
          (set_accordionState (storedAccordion JSON_parse sto) state0)
      /\ getFilteredItems (st e')
         = arr_or_empty (or_arr (items_ai p) (items p))
      /\ storage e' = sto).
Proof.
  intros Hresp Hok Hjson Hrun. cbv zeta.
  destruct (start_unfold during (boot d sto n))
    as (ready & Hd & _ & Hnet & Hstart).
  rewrite Hd. cbn [snd].
  rewrite Hstart in Hrun. clear Hstart.
  cbn [net boot] in Hrun, Hnet.
  rewrite (LoaderSpec.loadNewsData_unfold _ _ _ Hresp) in Hrun, Hnet.
  cbn [fst snd] in Hrun, Hnet.
  rewrite Hok in Hrun. cbn [negb] in Hrun. rewrite Hjson in Hrun.
  rewrite initEnd_Ok in Hrun. cbv zeta in Hrun.
  set (e2 := snd (renderSiteFilters collationKey _)) in Hrun.
  assert (Hst2 : st e2 = applyPayload p (st ready))
    by (subst e2; unfold renderSiteFilters, renderModeSwitch,
                  renderFollowOpml, modify; reflexivity).
  assert (Hfr2 : net e2 = net ready /\ storage e2 = storage ready)
    by (subst e2; unfold renderSiteFilters, renderModeSwitch,
                  renderFollowOpml, modify; split; reflexivity).
  destruct (Radar.renderList collationKey formatNumber formatDateTime e2)
    as [[[]|x] e3] eqn:Hlist; [|discriminate Hrun].
  injection Hrun as <-.
  pose proof (HandlerSpec.renderList_current _ _ _ _ _ Hlist)
    as (Hcur & Hst3 & Hms & Hsf).
  pose proof (RenderFacts.renderList_Ok_inv _ _ _ _ _ Hlist)
    as (nodes & He3 & _).
  assert (Hst' : st e3 = applyPayload p (st ready)) by congruence.
  cbn [st with_dom].
  split; [exact Hst'|].
  split; [rewrite He3; reflexivity|].
  split; [cbn [dom with_dom updatedAt set_updatedAt]; rewrite Hst';
          reflexivity|].
  split; [|split; [|split; [|split; [|split]]]].
  - apply HandlerSpec.modeSwitchCurrent_iff.
    cbn [dom with_dom modeSwitch set_updatedAt]. rewrite Hms.
    subst e2. unfold renderSiteFilters at 1, modify at 1.
    cbn [snd dom with_dom modeSwitch set_siteFilters].
    unfold renderModeSwitch at 1, modify at 1.
    cbn [snd dom with_dom modeSwitch set_modeSwitch].
    symmetry. apply HandlerSpec.renderModeSwitch_reads;
      cbn [st with_dom]; rewrite Hst3;
      unfold renderSiteFilters, renderModeSwitch, renderFollowOpml, modify;
      reflexivity.
  - apply HandlerSpec.siteFiltersCurrent_iff.
    cbn [dom with_dom siteFilters set_updatedAt]. rewrite Hsf.
    subst e2. unfold renderSiteFilters at 1, modify at 1.
    cbn [snd dom with_dom siteFilters set_siteFilters].
    symmetry. apply HandlerSpec.renderSiteFilters_reads;
      cbn [st with_dom]; rewrite Hst3;
      unfold renderSiteFilters, renderModeSwitch, renderFollowOpml, modify;
      reflexivity.
  - unfold listCurrent in *.
    destruct (renderList_sem collationKey formatNumber formatDateTime (st e3))
      as (r' & nodes' & Hsem).
    rewrite (Hsem e3 eq_refl) in Hcur.
    rewrite (Hsem (with_dom _ e3) eq_refl).
    injection Hcur as Hr He. rewrite Hr. f_equal.
    match goal with
    | |- with_dom ?F (with_dom ?G e3) = _ =>
        transitivity (with_dom G (with_dom F e3));
          [reflexivity | rewrite He; reflexivity]
    end.
  - rewrite He3. cbn [net with_dom]. destruct Hfr2 as [-> _].
    rewrite Hnet. reflexivity.
  - rewrite He3. cbn [storage with_dom]. apply Hfr2.
  - intros ->. rewrite initBegin_eq in Hd. cbn [dispatchAll snd] in Hd.
    unfold ret in Hd. injection Hd as <-.
    cbn [st storage boot with_net with_st] in *.
    split; [exact Hst'|]. split.
    + rewrite Hst'. rewrite HandlerSpec.blank_shows_mode_items;
        [reflexivity | reflexivity | intros c []].
    + rewrite He3. cbn [storage with_dom]. destruct Hfr2 as [_ ->].
      reflexivity.
Qed.

End Platform.

Section Examples.
#[local] Existing Instance Sample.engine.

Lemma toggle_is_recorded_witness :
  exists e',
    onToggle JSONLite.JSON_stringify panelId true
             (mkEnv state0 blankDom (mkStorage true 0 []) idleNet)
    = (Ok tt, e')
    /\ bindAccordionState (st e') panelId false = Ok true
    /\ bindAccordionState (st e') (js "site|Y") false = Ok false
    /\ storage e' = mkStorage true 0 [].
Proof.
  destruct (toggle_is_recorded JSONLite.JSON_stringify
              (mkEnv state0 blankDom (mkStorage true 0 []) idleNet)
              panelId true)
    as (e' & Hrun & Hsame & Hother & _ & _ & _ & Hstore);
    [reflexivity | reflexivity | discriminate | left; reflexivity |].
  exists e'. split; [exact Hrun|]. split; [apply Hsame|].
  split; [rewrite Hother; [reflexivity | discriminate]|].
  destruct Hstore as [E | (text & _ & Hset)]; [exact E | discriminate Hset].
Defined.

(** On an array the name [length] is its size: a toggle under that name
    resizes the array and records no flag. *)
Example array_length_is_not_a_flag :
  let e := mkEnv (set_accordionState (JArray [] []) state0) blankDom
                 emptyStorage idleNet in
  let e' := snd (onToggle JSONLite.JSON_stringify LENGTH true e) in
  fst (onToggle JSONLite.JSON_stringify LENGTH true e) = Ok tt
  /\ accordionState (st e') = JArray [None] []
  /\ bindAccordionState (st e') LENGTH false = Ok false.
Proof. vm_compute. repeat split. Qed.

Lemma start_shows_snapshot_witness :
  let e' := snd (Radar.start collationKey formatNumber formatDateTime
                             JSONLite.parse JSONLite.JSON_stringify
                             [SiteChange (js "X")]
                             (boot blankDom emptyStorage netTwoSites)) in
  siteFilter (st e') = js "X"
  /\ itemsAi (st e') = [itemA; itemB]
  /\ listCurrent collationKey formatNumber formatDateTime e'.
Proof.
  cbv zeta.
  assert (Hrun : Radar.start collationKey formatNumber formatDateTime
                             JSONLite.parse JSONLite.JSON_stringify
                             [SiteChange (js "X")]
                             (boot blankDom emptyStorage netTwoSites)
                 = (Ok tt,
                    snd (Radar.start collationKey formatNumber formatDateTime
                           JSONLite.parse JSONLite.JSON_stringify
                           [SiteChange (js "X")]
                           (boot blankDom emptyStorage netTwoSites))))
    by (vm_compute; reflexivity).
  destruct (start_shows_snapshot collationKey formatNumber formatDateTime
              JSONLite.parse JSONLite.JSON_stringify
              blankDom emptyStorage netTwoSites [SiteChange (js "X")]
              (mkResponse 200 (Ok twoSiteSnapshot)) [] twoSiteSnapshot _
              eq_refl eq_refl eq_refl Hrun)
    as (Hst & _ & _ & _ & _ & Hlist & _).
  split; [rewrite Hst; reflexivity|].
  split; [rewrite Hst; reflexivity | exact Hlist].
Defined.

End Examples.

End StartSpec.

(* ================================================================= *)
(** ** Start-up when the snapshot cannot be loaded *)
(* ================================================================= *)

Module InitSpec.
Import JS Feed Spec Views Sample JSFacts.



Section Examples.
#[local] Existing Instance Sample.engine.


(** The scenario of the specification on the main page: status 500. *)
Example radar_init_status_500 :
  let e' := snd (Radar.init Sample.collationKey Sample.formatNumber
                            Sample.formatDateTime JSONLite.parse
                            (radarEnv netServerError)) in
  Radar.newsList (Radar.dom e')
  = [Radar.Markup (emptyMarkup (js "加载 latest-24h.json 失败: 500"))]
  /\ Radar.itemsAi (Radar.st e') = []
  /\ includes (js "加载 latest-24h.json 失败: 500") (js "500") = true.
Proof. vm_compute. repeat split. Qed.

End Examples.

End InitSpec.

(* ================================================================= *)
(** ** The subscription page and the declarative variant *)
(* ================================================================= *)

Module FollowSpec.
Import JS Feed Spec Views Sample Cases.
Import JSFacts UriFacts TextFacts RenderFacts.

(** X19. The request defeats caches: the URL is the path of the snapshot
    followed by the clock reading in decimal digits, and two clock
    readings give the same URL only when they are equal. *)
Theorem snapshotUrl_per_reading (a b : N) :
  (snapshotUrl a = snapshotUrl b <-> a = b)
  /\ exists digits,
       snapshotUrl a = js "./data/latest-24h.json?t=" ++ digits
       /\ digits = decimal a
       /\ Forall (fun c => 48 <= c <= 57)%N digits
       /\ (0 < length digits)%nat.
Proof.
  split.
  - split; [|intros ->; reflexivity].
    unfold snapshotUrl. intros H. apply app_inv_head in H.
    apply decimal_inj, H.
  - exists (decimal a). split; [reflexivity|]. split; [reflexivity|]. split.
    + apply Forall_forall. intros c. apply decimal_digits.
    + pose proof (decimal_nonempty a). destruct (decimal a);
        [congruence | simpl; lia].
Qed.

Ltac env_norm :=
  cbn [Follow.st Follow.dom Follow.net Follow.with_dom Follow.with_st
       Follow.with_net Follow.set_followOpml Follow.set_momoyu
       Follow.set_updatedAt Follow.set_list Follow.followOpml Follow.momoyu
       Follow.updatedAt Follow.panelList Follow.panelCount fst snd].

(** *** Appending to a panel *)

Lemma set_list_same (p : Follow.Panel) :
  Follow.set_list (Follow.panelList p ++ []) p = p.
Proof. destruct p. unfold Follow.set_list. simpl. rewrite app_nil_r. auto. Qed.

(** A loop that builds a node for each element and appends it: the nodes
    built before the first exception stay in the panel. *)
Lemma forEach_append {A B} (build : A -> result B) (mk : B -> Follow.Node)
      (l : list A) (p : Follow.Panel) :
  match mapM build l with
  | Ok ws =>
      forEach (fun a => (w <- liftR (build a) ;;
                         Follow.appendNode (mk w))%js) l p
      = (Ok tt,
         Follow.set_list (Follow.panelList p ++ map mk ws) p)
  | Throw x =>
      exists done,
        forEach (fun a => (w <- liftR (build a) ;;
                           Follow.appendNode (mk w))%js) l p
        = (Throw x, Follow.set_list (Follow.panelList p ++ done) p)
  end.
Proof.
  revert p. induction l as [|a r IH]; intros p.
  - cbn [mapM forEach map]. unfold ret. rewrite set_list_same. reflexivity.
  - cbn [mapM]. destruct (build a) as [w|x] eqn:Ea; cbn [bind].
    + specialize (IH (Follow.set_list (Follow.panelList p ++ [mk w]) p)).
      destruct (mapM build r) as [ws|x]; cbn [bind].
      * cbn [forEach]. unfold bindM at 1. unfold bindM at 1.
        unfold liftR at 1. rewrite Ea. cbv beta iota.
        unfold Follow.appendNode at 1. unfold modify at 1. rewrite IH.
        unfold Follow.set_list.
        cbn [Follow.panelList Follow.panelCount map].
        rewrite <- app_assoc. reflexivity.
      * destruct IH as [done IH]. exists (mk w :: done).
        cbn [forEach]. unfold bindM at 1. unfold bindM at 1.
        unfold liftR at 1. rewrite Ea. cbv beta iota.
        unfold Follow.appendNode at 1. unfold modify at 1. rewrite IH.
        unfold Follow.set_list. cbn [Follow.panelList Follow.panelCount].
        rewrite <- app_assoc. reflexivity.
    + exists []. cbn [forEach]. unfold bindM at 1. unfold bindM at 1.
      unfold liftR at 1. rewrite Ea. rewrite set_list_same. reflexivity.
Qed.

Lemma mapM_build {A B} (f : A -> result B) (g : A -> B) (l : list A) :
  Forall (fun a => f a = Ok (g a)) l -> mapM f l = Ok (map g l).
Proof.
  induction 1 as [|a r Ha Hr IH]; [reflexivity|].
  cbn [mapM map]. rewrite Ha. cbn [bind]. rewrite IH. reflexivity.
Qed.

Lemma mapM_Ok_all {A B} (f : A -> result B) (l : list A) (ys : list B) :
  mapM f l = Ok ys -> Forall (fun a => exists y, f a = Ok y) l.
Proof.
  intros H. apply Forall_forall. intros a Ha.
  apply (mapM_Ok_each f l ys a H Ha).
Qed.

Lemma mapM_Throw_some {A B} (f : A -> result B) (l : list A) (x : exn) :
  mapM f l = Throw x -> exists a, In a l /\ f a = Throw x.
Proof.
  induction l as [|a r IH]; [discriminate|].
  cbn [mapM]. destruct (f a) as [y|x'] eqn:E; cbn [bind].
  - destruct (mapM f r) as [ys|x'']; cbn [bind]; [discriminate|].
    intros H. inversion H; subst. destruct (IH eq_refl) as (a' & Hin & Ha').
    exists a'. split; [right; exact Hin | exact Ha'].
  - intros H. inversion H; subst. exists a. split; [left; reflexivity|exact E].
Qed.

Section Platform.
Context {engine : Engine}.
Variable formatNumber : N -> jsstring.
Variable formatDateTime : jsstring -> option jsstring.

Lemma followRows_items (items : list Item) :
  followRows (map (fun item =>
                     Follow.ItemRow (Follow.renderItemNode formatDateTime item))
                  items)
  = map (Follow.renderItemNode formatDateTime) items.
Proof.
  unfold followRows. induction items as [|x r IH]; [reflexivity|].
  cbn [map flat_map followRowsOf app]. rewrite IH. reflexivity.
Qed.

(** *** The section of a subscription *)

Lemma buildFeedNode_Ok (g : FollowGroup) :
  arr_or_empty (group_items g) = [] \/ feedListFound formatNumber g = true ->
  Follow.buildFeedNode formatNumber formatDateTime g
  = Ok (Follow.mkFeedSection
          (Follow.sectionMarkup
             (or_str (group_source g) (js "未命名订阅"))
             (Follow.fmtNumber formatNumber
                (or_num (shown_count g) (Follow.groupItemCount g))))
          (map (Follow.renderItemNode formatDateTime)
               (arr_or_empty (group_items g)))).
Proof.
  intros H. unfold Follow.buildFeedNode. cbv zeta.
  rewrite appendRows_Ok by exact H. reflexivity.
Qed.

Lemma buildFeedNode_Throw (g : FollowGroup) (x : exn) :
  Follow.buildFeedNode formatNumber formatDateTime g = Throw x ->
  x = nullAccess Reading (js "list") (js "appendChild")
  /\ feedListFound formatNumber g = false
  /\ arr_or_empty (group_items g) <> [].
Proof.
  unfold Follow.buildFeedNode. cbv zeta. intros H.
  destruct (mapM _ (arr_or_empty (group_items g))) as [rows|x'] eqn:E;
    [discriminate H|].
  cbn [bind] in H. inversion H; subst x'.
  destruct (appendRows_throw _ _ _ _ _ E) as [Hf ->].
  split; [reflexivity|]. split; [exact Hf|].
  intros Hnil. rewrite Hnil in E. discriminate E.
Qed.

Lemma buildFeedNode_Ok_inv (g : FollowGroup) (w : Follow.FeedSection) :
  Follow.buildFeedNode formatNumber formatDateTime g = Ok w ->
  arr_or_empty (group_items g) = [] \/ feedListFound formatNumber g = true.
Proof.
  unfold Follow.buildFeedNode. cbv zeta. intros H.
  apply bind_Ok in H. destruct H as (rows & Hrows & _).
  apply appendRows_inv in Hrows. apply Hrows.
Qed.

Lemma feeds_Ok (groups : list FollowGroup) :
  Forall (fun g => arr_or_empty (group_items g) = []
                   \/ feedListFound formatNumber g = true) groups ->
  mapM (Follow.buildFeedNode formatNumber formatDateTime) groups
  = Ok (map (fun g =>
               Follow.mkFeedSection
                 (Follow.sectionMarkup
                    (or_str (group_source g) (js "未命名订阅"))
                    (Follow.fmtNumber formatNumber
                       (or_num (shown_count g) (Follow.groupItemCount g))))
                 (map (Follow.renderItemNode formatDateTime)
                      (arr_or_empty (group_items g))))
            groups).
Proof.
  intros H. apply mapM_build. revert H. apply Forall_impl. intros g Hg.
  apply buildFeedNode_Ok, Hg.
Qed.

Lemma followRows_feeds (groups : list FollowGroup)
      (mk : FollowGroup -> jsstring) :
  followRows
    (map Follow.FeedNode
       (map (fun g =>
               Follow.mkFeedSection
                 (mk g)
                 (map (Follow.renderItemNode formatDateTime)
                      (arr_or_empty (group_items g))))
            groups))
  = flat_map (fun g => map (Follow.renderItemNode formatDateTime)
                           (arr_or_empty (group_items g))) groups.
Proof.
  unfold followRows. induction groups as [|g r IH]; [reflexivity|].
  cbn [map flat_map followRowsOf Follow.feed_items]. rewrite IH. reflexivity.
Qed.

Lemma shown_total (groups : list FollowGroup) (acc : N) :
  fold_left (fun acc g => (acc + Follow.groupItemCount g)%N) groups acc
  = (acc + N.of_nat
             (length (flat_map
                        (fun g => map (Follow.renderItemNode formatDateTime)
                                      (arr_or_empty (group_items g)))
                        groups)))%N.
Proof.
  revert acc. induction groups as [|g r IH]; intros acc; cbn [fold_left flat_map].
  - cbn [length]. lia.
  - rewrite IH, length_app, length_map. unfold Follow.groupItemCount. lia.
Qed.

(** The subscription panel with groups, step by step. *)
Lemma renderFollowOpmlGroups_unfold (s : Follow.State) (p : Follow.Panel) :
  Follow.followOpmlGroups s <> [] ->
  let groups := Follow.followOpmlGroups s in
  Follow.renderFollowOpmlGroups formatNumber formatDateTime s p
  = forEach (fun group =>
               (wrap <- liftR (Follow.buildFeedNode formatNumber
                                                    formatDateTime group) ;;
                Follow.appendNode (Follow.FeedNode wrap))%js)
            groups
            (Follow.set_count
               (formatNumber (N.of_nat (length groups)) ++ js " 个订阅 · "
                  ++ formatNumber
                       (N.of_nat
                          (length
                             (flat_map
                                (fun g =>
                                   map (Follow.renderItemNode formatDateTime)
                                       (arr_or_empty (group_items g)))
                                groups)))
                  ++ js " 条")
               (Follow.set_list [] p)).
Proof.
  intros Hne. cbv zeta. unfold Follow.renderFollowOpmlGroups. cbv zeta.
  destruct (Follow.followOpmlGroups s) as [|g groups] eqn:Eg; [congruence|].
  set (gs := g :: groups) in *.
  replace (length gs =? 0)%nat with false by reflexivity.
  unfold bindM at 1. unfold modify at 1. unfold bindM at 1.
  unfold modify at 1.
  rewrite shown_total. cbn [N.add]. reflexivity.
Qed.

Lemma renderFollowOpmlGroups_groups (s : Follow.State) (p : Follow.Panel) :
  Follow.followOpmlGroups s <> [] ->
  let groups := Follow.followOpmlGroups s in
  let header :=
    formatNumber (N.of_nat (length groups)) ++ js " 个订阅 · "
      ++ formatNumber
           (N.of_nat
              (length (flat_map
                         (fun g => map (Follow.renderItemNode formatDateTime)
                                       (arr_or_empty (group_items g)))
                         groups)))
      ++ js " 条" in
  match mapM (Follow.buildFeedNode formatNumber formatDateTime) groups with
  | Ok ws =>
      Follow.renderFollowOpmlGroups formatNumber formatDateTime s p
      = (Ok tt, Follow.mkPanel header (map Follow.FeedNode ws))
  | Throw x =>
      exists done,
        Follow.renderFollowOpmlGroups formatNumber formatDateTime s p
        = (Throw x, Follow.mkPanel header done)
  end.
Proof.
  intros Hne. cbv zeta.
  rewrite (renderFollowOpmlGroups_unfold s p Hne). cbv zeta.
  match goal with
  | |- context [forEach _ _ ?P] =>
      pose proof (forEach_append
                    (Follow.buildFeedNode formatNumber formatDateTime)
                    Follow.FeedNode (Follow.followOpmlGroups s) P) as Hrun
  end.
  destruct (mapM (Follow.buildFeedNode formatNumber formatDateTime)
                 (Follow.followOpmlGroups s)) as [ws|x].
  - rewrite Hrun. reflexivity.
  - destruct Hrun as [done Hrun]. exists done. rewrite Hrun. reflexivity.
Qed.

(** X20. The header of the subscription panel counts the items of the
    state.  Without subscription groups the function returns; the header
    gives the number of flat items, which are the rows; and with neither,
    the placeholder is shown.  With groups, the header gives the number of
    groups and the number of items in all the groups (the flat item list
    is not shown).  The function then returns exactly when the list
    container is found in the markup of every group that has items; when
    it does, the panel holds one section for each group, in their order,
    and its rows are the items the header counts; when it does not, the
    exception is the [TypeError] of the call to [appendChild] on [null]. *)
Theorem follow_header_counts_rows (s : Follow.State) (p : Follow.Panel) :
  let run := Follow.renderFollowOpmlGroups formatNumber formatDateTime s p in
  let p' := snd run in
  let groups := Follow.followOpmlGroups s in
  let rows :=
    flat_map (fun g => map (Follow.renderItemNode formatDateTime)
                           (arr_or_empty (group_items g))) groups in
  (groups = [] ->
     fst run = Ok tt
     /\ Follow.panelCount p'
        = formatNumber (N.of_nat (length (followRows (Follow.panelList p'))))
            ++ js " 条"
     /\ followRows (Follow.panelList p')
        = map (Follow.renderItemNode formatDateTime) (Follow.followOpmlItems s)
     /\ (Follow.followOpmlItems s = [] ->
         Follow.panelList p' = [Follow.EmptyNote (js "暂无 follow.opml 数据。")]))
  /\ (groups <> [] ->
      Follow.panelCount p'
      = formatNumber (N.of_nat (length groups)) ++ js " 个订阅 · "
          ++ formatNumber (N.of_nat (length rows)) ++ js " 条"
      /\ (fst run = Ok tt
          <-> Forall (fun g => arr_or_empty (group_items g) = []
                               \/ feedListFound formatNumber g = true)
                     groups)
      /\ (fst run = Ok tt ->
          length (Follow.panelList p') = length groups
          /\ followRows (Follow.panelList p') = rows)
      /\ (forall x, fst run = Throw x ->
            x = nullAccess Reading (js "list") (js "appendChild"))).
Proof.
  cbv zeta. split.
  - intros Eg. unfold Follow.renderFollowOpmlGroups. cbv zeta. rewrite Eg.
    cbn [length Nat.eqb]. unfold bindM, modify.
    unfold Follow.renderSection, Follow.fmtNumber.
    cbn [fst snd Follow.panelCount Follow.panelList].
    destruct (Follow.followOpmlItems s) as [|x items] eqn:Ei.
    + repeat split.
    + cbn [length Nat.eqb]. rewrite followRows_items, length_map.
      repeat split. intros H. discriminate H.
  - intros Hne.
    pose proof (renderFollowOpmlGroups_groups s p Hne) as Hrun.
    cbv zeta in Hrun.
    destruct (mapM (Follow.buildFeedNode formatNumber formatDateTime)
                   (Follow.followOpmlGroups s)) as [ws|x] eqn:Em.
    + rewrite Hrun. cbn [fst snd Follow.panelCount Follow.panelList].
      assert (Hall : Forall (fun g => arr_or_empty (group_items g) = []
                                      \/ feedListFound formatNumber g = true)
                            (Follow.followOpmlGroups s)).
      { apply mapM_Ok_all in Em. revert Em. apply Forall_impl.
        intros g [w Hw]. apply (buildFeedNode_Ok_inv g w Hw). }
      rewrite (feeds_Ok _ Hall) in Em. inversion Em as [Hws]. clear Em.
      split; [reflexivity|]. split; [tauto|]. split; [|discriminate].
      intros _. rewrite followRows_feeds.
      rewrite !length_map. split; reflexivity.
    + destruct Hrun as [done Hrun]. rewrite Hrun.
      cbn [fst snd Follow.panelCount Follow.panelList].
      split; [reflexivity|]. split; [|split; [discriminate|]].
      * split; [discriminate|]. intros Hall. exfalso.
        rewrite (feeds_Ok _ Hall) in Em. discriminate Em.
      * intros x' Hx. inversion Hx; subst x'.
        apply mapM_Throw_some in Em. destruct Em as (g & _ & Hg).
        apply buildFeedNode_Throw in Hg. apply Hg.
Qed.

(** *** The ranked lists *)

Lemma buildMomoyuNode_Throw (sec : MomoyuSection) (x : exn) :
  Follow.buildMomoyuNode formatNumber sec = Throw x ->
  x = nullAccess Reading (js "list") (js "appendChild").
Proof.
  unfold Follow.buildMomoyuNode. cbv zeta. intros H.
  destruct (mapM _ (arr_or_empty (entries sec))) as [rows|x'] eqn:E;
    [discriminate H|].
  cbn [bind] in H. inversion H; subst x'.
  destruct (appendRows_throw Follow.renderMomoyuEntry _ _ _ _ E) as [_ ->].
  reflexivity.
Qed.

(** Whatever the panels hold, a render function of the page either returns
    or throws the [TypeError] of [appendChild] on [null]; the header is
    written before any section is built. *)
Lemma renderFollowOpmlGroups_outcome (s : Follow.State) (p : Follow.Panel) :
  let run := Follow.renderFollowOpmlGroups formatNumber formatDateTime s p in
  (fst run = Ok tt
   \/ fst run = Throw (nullAccess Reading (js "list") (js "appendChild")))
  /\ Follow.panelCount (snd run)
     = match Follow.followOpmlGroups s with
       | [] => formatNumber (N.of_nat (length (Follow.followOpmlItems s)))
                 ++ js " 条"
       | groups =>
           formatNumber (N.of_nat (length groups)) ++ js " 个订阅 · "
             ++ formatNumber
                  (fold_left (fun acc g => (acc + Follow.groupItemCount g)%N)
                             groups 0%N)
             ++ js " 条"
       end.
Proof.
  cbv zeta.
  destruct (Follow.followOpmlGroups s) as [|g groups] eqn:Eg.
  - unfold Follow.renderFollowOpmlGroups. cbv zeta. rewrite Eg.
    cbn [length Nat.eqb]. unfold bindM, modify. cbn [fst snd].
    split; [left; reflexivity | reflexivity].
  - assert (Hne : Follow.followOpmlGroups s <> []) by congruence.
    pose proof (renderFollowOpmlGroups_groups s p Hne) as Hrun.
    cbv zeta in Hrun. rewrite Eg in Hrun. rewrite shown_total. cbn [N.add].
    destruct (mapM (Follow.buildFeedNode formatNumber formatDateTime)
                   (g :: groups)) as [ws|x] eqn:Em.
    + rewrite Hrun. split; [left; reflexivity | reflexivity].
    + destruct Hrun as [done Hrun]. rewrite Hrun. cbn [fst snd].
      split; [|reflexivity]. right.
      apply mapM_Throw_some in Em. destruct Em as (g' & _ & Hg).
      apply buildFeedNode_Throw in Hg. destruct Hg as [-> _]. reflexivity.
Qed.

Lemma renderMomoyuParsed_unfold (s : Follow.State) (p : Follow.Panel)
      (sec : MomoyuSection) (rest : list MomoyuSection) :
  match Follow.momoyuParsed s with
  | Some parsed => arr_or_empty (sections parsed)
  | None => []
  end = sec :: rest ->
  exists meta,
    Follow.renderMomoyuParsed formatNumber formatDateTime s p
    = forEach (fun sec =>
                 (wrap <- liftR (Follow.buildMomoyuNode formatNumber sec) ;;
                  Follow.appendNode (Follow.MomoyuNode wrap))%js)
              (sec :: rest)
              (Follow.mkPanel
                 (formatNumber (N.of_nat (length (sec :: rest)))
                    ++ js " 个榜单")
                 [Follow.MetaNote meta]).
Proof.
  intros Es. unfold Follow.renderMomoyuParsed. cbv zeta. rewrite Es.
  replace (length (sec :: rest) =? 0)%nat with false by reflexivity.
  eexists. unfold bindM at 1. unfold modify at 1. unfold bindM at 1.
  unfold modify at 1. unfold bindM at 1. unfold Follow.appendNode at 1.
  unfold modify at 1. reflexivity.
Qed.

Lemma renderMomoyuParsed_outcome (s : Follow.State) (p : Follow.Panel) :
  let run := Follow.renderMomoyuParsed formatNumber formatDateTime s p in
  (fst run = Ok tt
   \/ fst run = Throw (nullAccess Reading (js "list") (js "appendChild")))
  /\ Follow.panelCount (snd run)
     = match match Follow.momoyuParsed s with
             | Some parsed => arr_or_empty (sections parsed)
             | None => []
             end
       with
       | [] => formatNumber (N.of_nat (length (Follow.momoyuItems s)))
                 ++ js " 条"
       | secs => formatNumber (N.of_nat (length secs)) ++ js " 个榜单"
       end.
Proof.
  cbv zeta.
  destruct (match Follow.momoyuParsed s with
            | Some parsed => arr_or_empty (sections parsed)
            | None => []
            end) as [|sec rest] eqn:Es.
  - unfold Follow.renderMomoyuParsed. cbv zeta. rewrite Es.
    cbn [length Nat.eqb]. unfold bindM, modify. cbn [fst snd].
    split; [left; reflexivity | reflexivity].
  - destruct (renderMomoyuParsed_unfold s p sec rest Es) as [meta ->].
    match goal with
    | |- context [forEach _ _ ?P] =>
        pose proof (forEach_append (Follow.buildMomoyuNode formatNumber)
                      Follow.MomoyuNode (sec :: rest) P) as Hrun
    end.
    destruct (mapM (Follow.buildMomoyuNode formatNumber) (sec :: rest))
      as [ws|x] eqn:Em.
    + rewrite Hrun. cbn [fst snd]. split; [left; reflexivity | reflexivity].
    + destruct Hrun as [done Hrun]. rewrite Hrun. cbn [fst snd].
      split; [|reflexivity]. right.
      apply mapM_Throw_some in Em. destruct Em as (sec' & _ & Hs).
      apply buildMomoyuNode_Throw in Hs. rewrite Hs. reflexivity.
Qed.

(** X21. Start-up of the subscription page never throws, and issues one
    request.  On a snapshot it stores the four collections of the payload
    (an absent one as empty) with its generation time, and renders the
    subscription panel, then the ranked lists, from that state.  When both
    render functions return, the panels are what they wrote and the
    timestamp shows the formatted generation time.  When one of them
    throws (the list container of a section was not found in its markup),
    the other steps of the [try] block are skipped: the failure notice
    takes the place of the timestamp, both lists hold the message of the
    exception as markup, and the headers are those written before the
    exception (the header of the ranked lists is as it was when the
    subscription panel threw). *)
Theorem follow_init_outcome (e : Follow.Env) :
  exists e',
    Follow.init formatNumber formatDateTime e = (Ok tt, e')
    /\ Follow.net e' = snd (loadNewsData (Follow.net e))
    /\ forall payload,
         fst (loadNewsData (Follow.net e)) = Ok payload ->
         let follow :=
           Follow.renderFollowOpmlGroups formatNumber formatDateTime
             (Follow.st e') (Follow.followOpml (Follow.dom e)) in
         let momoyu :=
           Follow.renderMomoyuParsed formatNumber formatDateTime
             (Follow.st e') (Follow.momoyu (Follow.dom e)) in
         let failure (x : exn) :=
           Follow.updatedAt (Follow.dom e') = js "数据加载失败"
           /\ Follow.panelList (Follow.followOpml (Follow.dom e'))
              = [Follow.Markup (emptyMarkup (message x))]
           /\ Follow.panelList (Follow.momoyu (Follow.dom e'))
              = [Follow.Markup (emptyMarkup (message x))]
           /\ Follow.panelCount (Follow.followOpml (Follow.dom e'))
              = Follow.panelCount (snd follow)
           /\ x = nullAccess Reading (js "list") (js "appendChild") in
         Follow.st e' = Follow.applyPayload payload (Follow.st e)
         /\ Follow.followOpmlItems (Follow.st e')
            = arr_or_empty (follow_opml_items payload)
         /\ match fst follow, fst momoyu with
            | Ok _, Ok _ =>
                Follow.followOpml (Follow.dom e') = snd follow
                /\ Follow.momoyu (Follow.dom e') = snd momoyu
                /\ Follow.updatedAt (Follow.dom e')
                   = js "更新时间："
                       ++ Follow.fmtTime formatDateTime (generated_at payload)
            | Ok _, Throw x =>
                failure x
                /\ Follow.panelCount (Follow.momoyu (Follow.dom e'))
                   = Follow.panelCount (snd momoyu)
            | Throw x, _ =>
                failure x
                /\ Follow.panelCount (Follow.momoyu (Follow.dom e'))
                   = Follow.panelCount (Follow.momoyu (Follow.dom e))
            end.
Proof.
  unfold Follow.init, tryM. unfold bindM at 1.
  destruct (loadNewsData (Follow.net e)) as [[payload|err] n] eqn:El;
    cbn [fst snd].
  2:{ eexists. split; [reflexivity|]. split; [reflexivity|].
      intros p Hp. discriminate Hp. }
  unfold bindM at 1. unfold modify at 1. unfold bindM at 1.
  unfold gets at 1. unfold bindM at 1. unfold Follow.onFollowOpml at 1.
  env_norm.
  pose proof (renderFollowOpmlGroups_outcome
                (Follow.applyPayload payload (Follow.st e))
                (Follow.followOpml (Follow.dom e))) as [Hf _].
  cbv zeta in Hf.
  destruct (Follow.renderFollowOpmlGroups formatNumber formatDateTime
              (Follow.applyPayload payload (Follow.st e))
              (Follow.followOpml (Follow.dom e))) as [rf pf] eqn:Ef.
  cbn [fst] in Hf.
  destruct rf as [[]|x].
  - unfold bindM at 1. unfold Follow.onMomoyu at 1. env_norm.
    pose proof (renderMomoyuParsed_outcome
                  (Follow.applyPayload payload (Follow.st e))
                  (Follow.momoyu (Follow.dom e))) as [Hm _].
    cbv zeta in Hm.
    destruct (Follow.renderMomoyuParsed formatNumber formatDateTime
                (Follow.applyPayload payload (Follow.st e))
                (Follow.momoyu (Follow.dom e))) as [rm pm] eqn:Em.
    cbn [fst] in Hm.
    destruct rm as [[]|x].
    + eexists. split; [reflexivity|]. split; [reflexivity|].
      intros p Hp. inversion Hp; subst p. cbv zeta. unfold modify.
      env_norm. rewrite Ef, Em. cbn [fst snd]. repeat split.
    + eexists. split; [reflexivity|]. split; [reflexivity|].
      intros p Hp. inversion Hp; subst p. cbv zeta. unfold bindM, modify.
      env_norm. rewrite Ef, Em. cbn [fst snd].
      destruct Hm as [Hm | Hm]; [discriminate Hm|]. inversion Hm; subst x.
      repeat split.
  - eexists. split; [reflexivity|]. split; [reflexivity|].
    intros p Hp. inversion Hp; subst p. cbv zeta. unfold bindM, modify.
    env_norm. rewrite Ef. cbn [fst snd].
    destruct Hf as [Hf | Hf]; [discriminate Hf|]. inversion Hf; subst x.
    repeat split.
Qed.

(** X22. [mounted] of the declarative variant never throws.  On a snapshot
    it replaces the data by the collections of the payload (an absent one
    as empty; an absent or empty generation time as [null]) and clears the
    load error, so that the label shows the generation time and the empty
    texts are the fixed ones, whatever was shown before. *)
Theorem mounted_outcome (e : VueApp.Env) :
  exists e',
    VueApp.mounted e = (Ok tt, e')
    /\ VueApp.net e' = snd (loadNewsData (VueApp.net e))
    /\ forall payload,
         fst (loadNewsData (VueApp.net e)) = Ok payload ->
         VueApp.data e' = VueApp.applyPayload payload
         /\ VueApp.loadError (VueApp.data e') = []
         /\ VueApp.followItems (VueApp.data e')
            = arr_or_empty (follow_opml_items payload)
         /\ VueApp.updatedLabel formatDateTime (VueApp.data e')
            = js "更新时间："
                ++ VueApp.fmtTime formatDateTime
                     (or_opt (generated_at payload) None)
         /\ VueApp.followEmptyText (VueApp.data e')
            = js "暂无 follow.opml 数据。"
         /\ VueApp.momoyuEmptyText (VueApp.data e')
            = js "暂无 momoyu RSS 数据。".
Proof.
  unfold VueApp.mounted, tryM, bindM, modify.
  destruct (loadNewsData (VueApp.net e)) as [[payload|err] n] eqn:El;
    cbn [fst snd]; eexists; (split; [reflexivity|]);
    (split; [reflexivity|]); intros p Hp; inversion Hp; subst.
  repeat split.
Qed.

End Platform.

Section Examples.
#[local] Existing Instance Sample.engine.

(** A subscription named [<textarea>] takes the list container of its
    section as its text: its first item cannot be appended, and start-up
    ends in the failure view although the snapshot was loaded. *)
Example swallowed_container :
  let g := mkFollowGroup (Some (js "<textarea>")) None (Some [itemA]) None in
  let p := mkSnapshot None None None None None None None None (Some [g])
                      None None None in
  let e' := snd (Follow.init formatNumber formatDateTime
                   (Follow.boot followDom
                      (mkNetwork 0 [Ok (mkResponse 200 (Ok p))] []))) in
  Follow.followOpmlGroups (Follow.st e') = [g]
  /\ Follow.updatedAt (Follow.dom e') = js "数据加载失败"
  /\ Follow.panelCount (Follow.followOpml (Follow.dom e'))
     = js "1 个订阅 · 1 条"
  /\ Follow.panelList (Follow.followOpml (Follow.dom e'))
     = [Follow.Markup
          (emptyMarkup
             (js "Cannot read properties of null (reading 'appendChild')"))].
Proof. vm_compute. repeat split. Qed.

End Examples.

End FollowSpec.

(* ================================================================= *)
(** ** The variants agree *)
(* ================================================================= *)

Module VariantSpec.
Import JS Feed Spec Views Sample Cases.
Import JSFacts UriFacts TextFacts.

Section Platform.
Context {engine : Engine}.
Variable formatNumber : N -> jsstring.
Variable formatDateTime : jsstring -> option jsstring.

(** X23. The three scripts that show subscriptions and ranked lists give
    the same count texts for the same data: the header the subscription
    page writes for its two panels is the text the declarative variants
    compute. *)
Theorem variants_show_same_counts (s : Follow.State) (d : VueApp.Data)
        (d' : VueSelector.Data) (p q : Follow.Panel) :
  VueApp.followGroups d = Follow.followOpmlGroups s ->
  VueApp.followItems d = Follow.followOpmlItems s ->
  VueApp.momoyuItems d = Follow.momoyuItems s ->
  VueApp.momoyuParsed d = Follow.momoyuParsed s ->
  VueSelector.followGroups d' = Follow.followOpmlGroups s ->
  VueSelector.followItems d' = Follow.followOpmlItems s ->
  VueSelector.momoyuItems d' = Follow.momoyuItems s ->
  VueSelector.momoyuParsed d' = Follow.momoyuParsed s ->
  let follow :=
    Follow.panelCount
      (snd (Follow.renderFollowOpmlGroups formatNumber formatDateTime s p)) in
  let momoyu :=
    Follow.panelCount
      (snd (Follow.renderMomoyuParsed formatNumber formatDateTime s q)) in
  VueApp.followCountText formatNumber d = follow
  /\ VueSelector.followCountText formatNumber d' = follow
  /\ VueApp.momoyuCountText formatNumber d = momoyu
  /\ VueSelector.momoyuCountText formatNumber d' = momoyu.
Proof.
  intros H1 H2 H3 H4 H5 H6 H7 H8. cbv zeta.
  destruct (FollowSpec.renderFollowOpmlGroups_outcome
              formatNumber formatDateTime s p) as [_ ->].
  destruct (FollowSpec.renderMomoyuParsed_outcome
              formatNumber formatDateTime s q) as [_ ->].
  unfold VueApp.followCountText, VueSelector.followCountText,
    VueApp.momoyuCountText, VueSelector.momoyuCountText,
    VueApp.hasMomoyuSections, VueSelector.hasMomoyuSections,
    VueApp.momoyuSections, VueSelector.momoyuSections,
    Follow.groupItemCount.
  rewrite H1, H2, H3, H4, H5, H6, H7, H8. cbv zeta.
  split; [|split; [|split]].
  - destruct (Follow.followOpmlGroups s); reflexivity.
  - destruct (Follow.followOpmlGroups s); reflexivity.
  - destruct (Follow.momoyuParsed s) as [parsed|]; [|reflexivity].
    destruct (arr_or_empty (sections parsed)); reflexivity.
  - destruct (Follow.momoyuParsed s) as [parsed|]; [|reflexivity].
    destruct (arr_or_empty (sections parsed)); reflexivity.
Qed.

(** X24. The declarative variants show an item with two title lines exactly
    when the item template of the page scripts does, and then with the
    same two lines; an item shown with one line and having a non-empty
    [title] shows that title in every variant. *)
Theorem bilingual_flag_matches_template (item : Item) :
  let shown := node_title (Radar.renderItemNode formatDateTime item) in
  let zh := trim (or_str (title_zh item) []) in
  let en := trim (or_str (title_en item) []) in
  VueSelector.hasBilingualTitle item = VueApp.hasBilingualTitle item
  /\ VueSelector.pickTitle item = VueApp.pickTitle item
  /\ (VueApp.hasBilingualTitle item = true <-> shown = Bilingual zh en)
  /\ (VueApp.hasBilingualTitle item = false <->
      exists text, shown = Plain text)
  /\ (VueApp.hasBilingualTitle item = false ->
      forall t, title item = Some t -> t <> [] ->
                shown = Plain t /\ VueApp.pickTitle item = t).
Proof.
  cbv zeta. unfold VueApp.hasBilingualTitle, VueSelector.hasBilingualTitle,
    Radar.renderItemNode. cbv zeta. cbn [node_title].
  split; [reflexivity|]. split; [reflexivity|].
  destruct (truthy (trim (or_str (title_zh item) []))
            && truthy (trim (or_str (title_en item) []))
            && negb (str_eqb (trim (or_str (title_zh item) []))
                             (trim (or_str (title_en item) [])))).
  - split; [split; reflexivity|]. split.
    + split; [discriminate | intros [text H]; discriminate H].
    + discriminate.
  - split; [split; discriminate|]. split.
    + split; [eauto | reflexivity].
    + intros _ t Ht Hne. rewrite (TitleSpec.or_str_truthy _ _ t Ht Hne).
      split; [reflexivity|]. unfold VueApp.pickTitle, or_opt.
      rewrite Ht. cbn [truthy_opt]. apply truthy_true in Hne. rewrite Hne.
      cbn [or_str]. rewrite Hne. reflexivity.
Qed.

End Platform.

Section Examples.
#[local] Existing Instance Sample.engine.

Lemma variants_show_same_counts_witness :
  VueApp.followCountText formatNumber vueData = js "2 个订阅 · 3 条"
  /\ VueSelector.followCountText formatNumber selectorData
     = js "2 个订阅 · 3 条"
  /\ VueApp.momoyuCountText formatNumber vueData = js "1 个榜单"
  /\ VueSelector.momoyuCountText formatNumber selectorData = js "1 个榜单".
Proof.
  assert (Hf : Follow.panelCount
                 (snd (Follow.renderFollowOpmlGroups
                         formatNumber formatDateTime followState emptyPanel))
               = js "2 个订阅 · 3 条") by (vm_compute; reflexivity).
  assert (Hm : Follow.panelCount
                 (snd (Follow.renderMomoyuParsed
                         formatNumber formatDateTime followState emptyPanel))
               = js "1 个榜单") by (vm_compute; reflexivity).
  rewrite <- Hf, <- Hm.
  apply (variants_show_same_counts formatNumber formatDateTime followState
           vueData selectorData emptyPanel emptyPanel); reflexivity.
Defined.

End Examples.

End VariantSpec.

(* ================================================================= *)
(** ** The group selector *)
(* ================================================================= *)

Module SelectorSpec.
Import JS Feed VueSelector Spec Views Sample Cases.
Import JSFacts UriFacts TextFacts.
Local Open Scope nat_scope.

(** *** Keys *)

Lemma map_from_length {A B} (f : A -> nat -> B) (l : list A) (i : nat) :
  length (map_from f i l) = length l.
Proof.
  revert i; induction l as [|x r IH]; intros i; simpl; [reflexivity|].
  rewrite IH. reflexivity.
Qed.

Lemma map_from_In {A B} (f : A -> nat -> B) (l : list A) (i : nat) (b : B) :
  In b (map_from f i l) -> exists x n, In x l /\ i <= n /\ b = f x n.
Proof.
  revert i; induction l as [|x r IH]; intros i; simpl; [tauto|].
  intros [<- | H].
  - exists x, i. auto.
  - destruct (IH _ H) as (y & n & Hy & Hn & ->). exists y, n.
    repeat split; auto. lia.
Qed.

Lemma map_from_distinct {A G} (key : G -> jsstring) (f : A -> nat -> G) :
  (forall x y i j, key (f x i) = key (f y j) -> i = j) ->
  forall l i, NoDup (map key (map_from f i l)).
Proof.
  intros Hinj. induction l as [|x r IH]; intros i; simpl; constructor.
  - intros Hin. apply in_map_iff in Hin. destruct Hin as (g & Hk & Hg).
    apply map_from_In in Hg. destruct Hg as (y & n & _ & Hn & ->).
    apply Hinj in Hk. lia.
  - apply IH.
Qed.

Lemma rev_inj {A} (l l' : list A) : rev l = rev l' -> l = l'.
Proof. intros H. rewrite <- (rev_involutive l), H. apply rev_involutive. Qed.

Lemma index_after_colons (b1 b2 : jsstring) (i j : nat) :
  b1 ++ js "::" ++ decimal (N.of_nat i) = b2 ++ js "::" ++ decimal (N.of_nat j) ->
  i = j.
Proof.
  intros H. apply (f_equal (@rev N)) in H.
  rewrite !rev_app_distr in H. cbn [js] in H.
  change (rev (js "::")) with [58%N; 58%N] in H.
  rewrite <- !app_assoc in H. cbn [app] in H.
  assert (Hd : forall n, ~ In 58%N (rev (decimal n))).
  { intros n Hin. apply in_rev in Hin. apply decimal_digits in Hin. lia. }
  apply cut_at_separator in H; [|apply Hd | apply Hd].
  destruct H as [H _]. apply rev_inj, decimal_inj in H.
  apply Nat2N.inj, H.
Qed.

Lemma follow_keys_distinct (d : Data) :
  NoDup (map fg_key (followSplitGroups d)).
Proof.
  unfold followSplitGroups, Array_map_indexed. apply map_from_distinct.
  intros x y i j. cbn [fg_key]. apply index_after_colons.
Qed.

Lemma momoyu_keys_distinct (d : Data) :
  NoDup (map mg_key (momoyuSplitGroups d)).
Proof.
  unfold momoyuSplitGroups, Array_map_indexed. apply map_from_distinct.
  intros x y i j. cbn [mg_key]. intros H. apply app_inv_head in H.
  apply decimal_inj in H. apply Nat2N.inj, H.
Qed.

Lemma follow_key_nonempty (d : Data) (g : FollowSplitGroup) :
  In g (followSplitGroups d) -> fg_key g = [] -> False.
Proof.
  unfold followSplitGroups, Array_map_indexed. intros Hin.
  apply map_from_In in Hin. destruct Hin as (x & n & _ & _ & ->).
  cbn [fg_key]. intros H. apply app_eq_nil in H. destruct H as [_ H].
  discriminate H.
Qed.

Lemma momoyu_key_nonempty (d : Data) (g : MomoyuGroup) :
  In g (momoyuSplitGroups d) -> mg_key g = [] -> False.
Proof.
  unfold momoyuSplitGroups, Array_map_indexed. intros Hin.
  apply map_from_In in Hin. destruct Hin as (x & n & _ & _ & ->).
  cbn [mg_key]. intros H. discriminate H.
Qed.

(** X25. The selectors have one entry for each subscription group and for
    each ranked list, and no two entries of a selector share a key: the
    key ends with the position of the entry.  No key is the empty string,
    the initial value of the selection. *)
Theorem selector_keys_distinct (d : Data) :
  NoDup (map fg_key (followSplitGroups d))
  /\ NoDup (map mg_key (momoyuSplitGroups d))
  /\ length (followSplitGroups d) = length (followGroups d)
  /\ length (momoyuSplitGroups d) = length (momoyuSections d)
  /\ Forall (fun g => 0 < length (fg_key g)) (followSplitGroups d)
  /\ Forall (fun g => 0 < length (mg_key g)) (momoyuSplitGroups d).
Proof.
  split; [apply follow_keys_distinct|].
  split; [apply momoyu_keys_distinct|].
  split; [apply map_from_length|]. split; [apply map_from_length|].
  split; apply Forall_forall; intros g Hg.
  - pose proof (follow_key_nonempty d g Hg).
    destruct (fg_key g); [tauto | simpl; lia].
  - pose proof (momoyu_key_nonempty d g Hg).
    destruct (mg_key g); [tauto | simpl; lia].
Qed.

(** *** The active group *)

Lemma find_existsb {G} (p : G -> bool) (l : list G) :
  match find p l with
  | Some g => In g l /\ p g = true /\ existsb p l = true
  | None => existsb p l = false /\ forall g, In g l -> p g = false
  end.
Proof.
  induction l as [|x r IH]; cbn [find existsb];
    [split; [reflexivity | intros g []]|].
  destruct (p x) eqn:E; cbn [orb].
  - repeat split; [left; reflexivity | exact E].
  - destruct (find p r) as [g|].
    + destruct IH as (Hin & Hp & Hex). repeat split; auto.
      right. exact Hin.
    + destruct IH as (Hex & Hall). split; [exact Hex|].
      intros g [<- | Hg]; auto.
Qed.

Lemma distinct_keys_same {G} (key : G -> jsstring) (l : list G) (g g' : G) :
  NoDup (map key l) -> In g l -> In g' l -> key g = key g' -> g = g'.
Proof.
  induction l as [|x r IH]; cbn [map]; intros Hnd Hg Hg' Hk; [destruct Hg|].
  inversion Hnd as [|? ? Hnot Hnd']; subst.
  destruct Hg as [<- | Hg]; destruct Hg' as [<- | Hg']; try reflexivity.
  - exfalso. apply Hnot. rewrite Hk. apply in_map, Hg'.
  - exfalso. apply Hnot. rewrite <- Hk. apply in_map, Hg.
  - apply IH; assumption.
Qed.

Lemma active_follow_cases (d : Data) :
  match activeFollowGroup d with
  | None => followSplitGroups d = []
  | Some g =>
      In g (followSplitGroups d)
      /\ (fg_key g = selectedFollowGroupKey d
          \/ (forall g', In g' (followSplitGroups d) ->
                         fg_key g' <> selectedFollowGroupKey d)
             /\ hd_error (followSplitGroups d) = Some g)
  end.
Proof.
  unfold activeFollowGroup.
  destruct (followSplitGroups d) as [|first rest] eqn:E; [reflexivity|].
  pose proof (find_existsb
                (fun group => str_eqb (fg_key group) (selectedFollowGroupKey d))
                (first :: rest)) as H.
  destruct (find _ (first :: rest)) as [g|].
  - destruct H as (Hin & Hp & _). split; [exact Hin|]. left.
    apply str_eqb_eq, Hp.
  - destruct H as (_ & Hall). split; [left; reflexivity|]. right.
    split; [|reflexivity]. intros g' Hg'. apply str_eqb_neq, Hall, Hg'.
Qed.

Lemma active_momoyu_cases (d : Data) :
  match activeMomoyuGroup d with
  | None => momoyuSplitGroups d = []
  | Some g =>
      In g (momoyuSplitGroups d)
      /\ (mg_key g = selectedMomoyuGroupKey d
          \/ (forall g', In g' (momoyuSplitGroups d) ->
                         mg_key g' <> selectedMomoyuGroupKey d)
             /\ hd_error (momoyuSplitGroups d) = Some g)
  end.
Proof.
  unfold activeMomoyuGroup.
  destruct (momoyuSplitGroups d) as [|first rest] eqn:E; [reflexivity|].
  pose proof (find_existsb
                (fun group => str_eqb (mg_key group) (selectedMomoyuGroupKey d))
                (first :: rest)) as H.
  destruct (find _ (first :: rest)) as [g|].
  - destruct H as (Hin & Hp & _). split; [exact Hin|]. left.
    apply str_eqb_eq, Hp.
  - destruct H as (_ & Hall). split; [left; reflexivity|]. right.
    split; [|reflexivity]. intros g' Hg'. apply str_eqb_neq, Hall, Hg'.
Qed.

Lemma nil_length {A} (l : list A) : l = [] <-> length l = 0.
Proof. destruct l; simpl; split; congruence. Qed.

Lemma follow_groups_length (d : Data) :
  length (followSplitGroups d) = length (followGroups d).
Proof. apply map_from_length. Qed.

Lemma momoyu_groups_length (d : Data) :
  length (momoyuSplitGroups d) = length (momoyuSections d).
Proof. apply map_from_length. Qed.

Lemma follow_none_iff (d : Data) :
  followSplitGroups d = [] <-> followGroups d = [].
Proof. rewrite !nil_length, follow_groups_length. reflexivity. Qed.

Lemma momoyu_none_iff (d : Data) :
  momoyuSplitGroups d = [] <-> momoyuSections d = [].
Proof. rewrite !nil_length, momoyu_groups_length. reflexivity. Qed.

(** X26. The group shown by a selector.  There is none exactly when there
    is no group.  Otherwise it is an entry of the selector: the one that
    carries the selected key, and the only one, when an entry carries it;
    the first entry when none does. *)
Theorem active_group_is_selected_or_first (d : Data) :
  (activeFollowGroup d = None <-> followGroups d = [])
  /\ (forall g, activeFollowGroup d = Some g ->
        In g (followSplitGroups d)
        /\ (fg_key g = selectedFollowGroupKey d
            \/ (forall g', In g' (followSplitGroups d) ->
                           fg_key g' <> selectedFollowGroupKey d)
               /\ hd_error (followSplitGroups d) = Some g)
        /\ forall g', In g' (followSplitGroups d) ->
                      fg_key g' = selectedFollowGroupKey d -> g' = g)
  /\ (activeMomoyuGroup d = None <-> momoyuSections d = [])
  /\ (forall g, activeMomoyuGroup d = Some g ->
        In g (momoyuSplitGroups d)
        /\ (mg_key g = selectedMomoyuGroupKey d
            \/ (forall g', In g' (momoyuSplitGroups d) ->
                           mg_key g' <> selectedMomoyuGroupKey d)
               /\ hd_error (momoyuSplitGroups d) = Some g)
        /\ forall g', In g' (momoyuSplitGroups d) ->
                      mg_key g' = selectedMomoyuGroupKey d -> g' = g).
Proof.
  pose proof (active_follow_cases d) as HF.
  pose proof (active_momoyu_cases d) as HM.
  split; [|split; [|split]].
  - rewrite <- follow_none_iff.
    destruct (activeFollowGroup d) as [g|].
    + destruct HF as [Hin _]. split; [discriminate|].
      intros E. rewrite E in Hin. destruct Hin.
    + tauto.
  - intros g Hg. rewrite Hg in HF. destruct HF as [Hin Hcase].
    split; [exact Hin|]. split; [exact Hcase|].
    intros g' Hin' Hk. destruct Hcase as [Hsel | [Hnone _]].
    + apply (distinct_keys_same fg_key (followSplitGroups d));
        [apply follow_keys_distinct | assumption | assumption | congruence].
    + exfalso. apply (Hnone g' Hin' Hk).
  - rewrite <- momoyu_none_iff.
    destruct (activeMomoyuGroup d) as [g|].
    + destruct HM as [Hin _]. split; [discriminate|].
      intros E. rewrite E in Hin. destruct Hin.
    + tauto.
  - intros g Hg. rewrite Hg in HM. destruct HM as [Hin Hcase].
    split; [exact Hin|]. split; [exact Hcase|].
    intros g' Hin' Hk. destruct Hcase as [Hsel | [Hnone _]].
    + apply (distinct_keys_same mg_key (momoyuSplitGroups d));
        [apply momoyu_keys_distinct | assumption | assumption | congruence].
    + exfalso. apply (Hnone g' Hin' Hk).
Qed.


(** *** syncSelectedGroups *)

(** [syncSelectedGroups] as two updates of the selection. *)
Lemma sync_eq (d : Data) :
  syncSelectedGroups d
  = set_selectedFollowGroupKey
      (match followSplitGroups d with
       | first :: _ =>
           if existsb (fun group =>
                         str_eqb (fg_key group) (selectedFollowGroupKey d))
                      (followSplitGroups d)
           then selectedFollowGroupKey d else fg_key first
       | [] => []
       end)
      (set_selectedMomoyuGroupKey
         (match momoyuSplitGroups d with
          | first :: _ =>
              if existsb (fun group =>
                            str_eqb (mg_key group) (selectedMomoyuGroupKey d))
                         (momoyuSplitGroups d)
              then selectedMomoyuGroupKey d else mg_key first
          | [] => []
          end) d).
Proof.
  unfold syncSelectedGroups. cbv zeta. destruct d as [fi fg mi mp sf sm ga le].
  unfold followSplitGroups, momoyuSplitGroups, momoyuSections,
    set_selectedFollowGroupKey, set_selectedMomoyuGroupKey.
  cbn [followItems followGroups momoyuItems momoyuParsed
       selectedFollowGroupKey selectedMomoyuGroupKey generatedAt loadError].
  generalize (match mp with
              | Some parsed => arr_or_empty (sections parsed)
              | None => []
              end).
  intros secs. set (MG := Array_map_indexed _ secs).
  destruct MG as [|mfirst mrest];
    [|destruct (existsb _ (mfirst :: mrest))];
    cbn [negb followItems followGroups momoyuItems momoyuParsed
         selectedFollowGroupKey selectedMomoyuGroupKey generatedAt loadError];
    set (FG := Array_map_indexed _ fg);
    (destruct FG as [|ffirst frest];
     [|destruct (existsb _ (ffirst :: frest))]); reflexivity.
Qed.

Lemma find_or_first {G} (key : G -> jsstring) (l : list G) (k : jsstring) :
  let shown k0 :=
    match l with
    | [] => None
    | first :: _ =>
        match find (fun group => str_eqb (key group) k0) l with
        | Some group => Some group
        | None => Some first
        end
    end in
  let k' := match l with
            | first :: _ =>
                if existsb (fun group => str_eqb (key group) k) l
                then k else key first
            | [] => []
            end in
  shown k' = shown k
  /\ k' = match shown k' with Some g => key g | None => [] end.
Proof.
  cbv zeta. destruct l as [|first rest]; [split; reflexivity|].
  pose proof (find_existsb (fun group => str_eqb (key group) k)
                           (first :: rest)) as H.
  destruct (find (fun group => str_eqb (key group) k) (first :: rest))
    as [g0|] eqn:Ef.
  - destruct H as (_ & Hp & ->). rewrite Ef. split; [reflexivity|].
    symmetry. apply str_eqb_eq, Hp.
  - destruct H as (-> & _). cbn [find]. rewrite str_eqb_refl. auto.
Qed.

(** What [syncSelectedGroups] leaves. *)
Lemma sync_facts (d : Data) :
  let d' := syncSelectedGroups d in
  (followItems d' = followItems d /\ followGroups d' = followGroups d
   /\ momoyuItems d' = momoyuItems d /\ momoyuParsed d' = momoyuParsed d
   /\ generatedAt d' = generatedAt d /\ loadError d' = loadError d)
  /\ (activeFollowGroup d' = activeFollowGroup d
      /\ activeMomoyuGroup d' = activeMomoyuGroup d)
  /\ (selectedFollowGroupKey d'
      = match activeFollowGroup d' with Some g => fg_key g | None => [] end
      /\ selectedMomoyuGroupKey d'
         = match activeMomoyuGroup d' with Some g => mg_key g | None => [] end).
Proof.
  cbv zeta. rewrite sync_eq.
  pose proof (find_or_first fg_key (followSplitGroups d)
                            (selectedFollowGroupKey d)) as [HF1 HF2].
  pose proof (find_or_first mg_key (momoyuSplitGroups d)
                            (selectedMomoyuGroupKey d)) as [HM1 HM2].
  split; [repeat split|]. split; split; assumption.
Qed.

(** X27. [syncSelectedGroups] changes nothing but the two selected keys,
    and never changes which group is shown.  Afterwards each selected key
    is the key of the group shown, or the empty string when there is no
    group; a selected key that an entry carries is kept; and to synchronise
    again changes nothing. *)
Theorem sync_selects_shown_group (d : Data) :
  let d' := syncSelectedGroups d in
  (followItems d' = followItems d /\ followGroups d' = followGroups d
   /\ momoyuItems d' = momoyuItems d /\ momoyuParsed d' = momoyuParsed d
   /\ generatedAt d' = generatedAt d /\ loadError d' = loadError d)
  /\ (activeFollowGroup d' = activeFollowGroup d
      /\ activeMomoyuGroup d' = activeMomoyuGroup d)
  /\ (selectedFollowGroupKey d'
      = match activeFollowGroup d' with Some g => fg_key g | None => [] end
      /\ selectedMomoyuGroupKey d'
         = match activeMomoyuGroup d' with Some g => mg_key g | None => [] end)
  /\ ((exists g, In g (followSplitGroups d)
                 /\ fg_key g = selectedFollowGroupKey d) ->
      selectedFollowGroupKey d' = selectedFollowGroupKey d)
  /\ ((exists g, In g (momoyuSplitGroups d)
                 /\ mg_key g = selectedMomoyuGroupKey d) ->
      selectedMomoyuGroupKey d' = selectedMomoyuGroupKey d)
  /\ syncSelectedGroups d' = d'.
Proof.
  cbv zeta. destruct (sync_facts d) as (Hframe & Hactive & Hkeys).
  cbv zeta in Hframe, Hactive, Hkeys.
  split; [exact Hframe|]. split; [exact Hactive|]. split; [exact Hkeys|].
  destruct Hactive as [HaF HaM]. destruct Hkeys as [HkF HkM].
  rewrite HaF in HkF. rewrite HaM in HkM.
  split; [|split].
  - intros (g & Hin & Hk). rewrite HkF.
    pose proof (active_follow_cases d) as HF.
    destruct (activeFollowGroup d) as [g0|].
    + destruct HF as [_ [Hsel | [Hnone _]]]; [exact Hsel|].
      exfalso. apply (Hnone g Hin Hk).
    + rewrite HF in Hin. destruct Hin.
  - intros (g & Hin & Hk). rewrite HkM.
    pose proof (active_momoyu_cases d) as HM.
    destruct (activeMomoyuGroup d) as [g0|].
    + destruct HM as [_ [Hsel | [Hnone _]]]; [exact Hsel|].
      exfalso. apply (Hnone g Hin Hk).
    + rewrite HM in Hin. destruct Hin.
  - destruct (sync_facts (syncSelectedGroups d)) as (_ & [HaF' HaM'] & [HkF' HkM']).
    cbv zeta in HaF', HaM', HkF', HkM'.
    rewrite HaF', HaF in HkF'. rewrite HaM', HaM in HkM'.
    rewrite <- HkF in HkF'. rewrite <- HkM in HkM'.
    revert HkF' HkM'. rewrite (sync_eq (syncSelectedGroups d)).
    destruct (syncSelectedGroups d) as [fi fg mi mp sf sm ga le].
    unfold set_selectedFollowGroupKey, set_selectedMomoyuGroupKey.
    cbn [followItems followGroups momoyuItems momoyuParsed
         selectedFollowGroupKey selectedMomoyuGroupKey generatedAt loadError].
    intros -> ->. reflexivity.
Qed.


(** *** mounted *)

Lemma active_first_when_unselected (d : Data) :
  selectedFollowGroupKey d = [] ->
  activeFollowGroup d = hd_error (followSplitGroups d).
Proof.
  intros Hsel. pose proof (active_follow_cases d) as H.
  destruct (activeFollowGroup d) as [g|].
  - destruct H as [Hin [Hk | [_ Hhd]]]; [|symmetry; exact Hhd].
    exfalso. apply (follow_key_nonempty d g Hin). congruence.
  - rewrite H. reflexivity.
Qed.

Lemma active_first_when_unselected_momoyu (d : Data) :
  selectedMomoyuGroupKey d = [] ->
  activeMomoyuGroup d = hd_error (momoyuSplitGroups d).
Proof.
  intros Hsel. pose proof (active_momoyu_cases d) as H.
  destruct (activeMomoyuGroup d) as [g|].
  - destruct H as [Hin [Hk | [_ Hhd]]]; [|symmetry; exact Hhd].
    exfalso. apply (momoyu_key_nonempty d g Hin). congruence.
  - rewrite H. reflexivity.
Qed.

(** X28. [mounted] of the variant with the selector never throws.  On a
    snapshot it stores the collections of the payload, synchronises the
    selection and clears the load error: each selected key is then the key
    of the group shown (the empty string when there is none), and from an
    empty selection the first subscription and the first ranked list are
    shown.  On a failed load everything is emptied, the selection is
    reset, no group is shown and the label reports the failure. *)
Theorem selector_mounted_outcome
        (formatDateTime : jsstring -> option jsstring) (e : Env) :
  exists e',
    mounted e = (Ok tt, e')
    /\ net e' = snd (loadNewsData (net e))
    /\ (forall payload,
          fst (loadNewsData (net e)) = Ok payload ->
          data e'
          = set_loadError []
              (syncSelectedGroups (applyPayload payload (data e)))
          /\ followGroups (data e') = arr_or_empty (follow_opml_groups payload)
          /\ momoyuParsed (data e') = momoyu_parsed payload
          /\ loadError (data e') = []
          /\ selectedFollowGroupKey (data e')
             = match activeFollowGroup (data e') with
               | Some g => fg_key g
               | None => []
               end
          /\ selectedMomoyuGroupKey (data e')
             = match activeMomoyuGroup (data e') with
               | Some g => mg_key g
               | None => []
               end
          /\ (selectedFollowGroupKey (data e) = [] ->
              activeFollowGroup (data e')
              = hd_error (followSplitGroups (data e')))
          /\ (selectedMomoyuGroupKey (data e) = [] ->
              activeMomoyuGroup (data e')
              = hd_error (momoyuSplitGroups (data e'))))
    /\ (forall err,
          fst (loadNewsData (net e)) = Throw err ->
          data e'
          = mkData [] [] [] None [] [] None
                   (if truthy (message err) then message err
                    else js "数据加载失败")
          /\ activeFollowGroup (data e') = None
          /\ activeMomoyuGroup (data e') = None
          /\ updatedLabel formatDateTime (data e') = js "数据加载失败").
Proof.
  unfold mounted, tryM, bindM, modify.
  destruct (loadNewsData (net e)) as [[payload|err] n] eqn:El;
    cbn [fst snd]; eexists; (split; [reflexivity|]);
    (split; [reflexivity|]); cbn [data].
  - split; [|intros err Herr; discriminate Herr].
    intros p Hp. inversion Hp; subst p. clear Hp.
    destruct (sync_facts (applyPayload payload (data e)))
      as ((_ & Hfg & _ & Hmp & _ & _) & (HaF & HaM) & (HkF & HkM)).
    cbv zeta in Hfg, Hmp, HaF, HaM, HkF, HkM.
    set (d1 := applyPayload payload (data e)) in *.
    assert (EF : followSplitGroups (syncSelectedGroups d1)
                 = followSplitGroups d1)
      by (unfold followSplitGroups; rewrite Hfg; reflexivity).
    assert (EM : momoyuSplitGroups (syncSelectedGroups d1)
                 = momoyuSplitGroups d1)
      by (unfold momoyuSplitGroups, momoyuSections; rewrite Hmp;
          reflexivity).
    split; [reflexivity|].
    split; [cbn [followGroups set_loadError]; rewrite Hfg; reflexivity|].
    split; [cbn [momoyuParsed set_loadError]; rewrite Hmp; reflexivity|].
    split; [reflexivity|].
    split; [exact HkF|]. split; [exact HkM|].
    split.
    + intros Hsel.
      change (activeFollowGroup (syncSelectedGroups d1)
              = hd_error (followSplitGroups (syncSelectedGroups d1))).
      rewrite EF, HaF. apply active_first_when_unselected. exact Hsel.
    + intros Hsel.
      change (activeMomoyuGroup (syncSelectedGroups d1)
              = hd_error (momoyuSplitGroups (syncSelectedGroups d1))).
      rewrite EM, HaM. apply active_first_when_unselected_momoyu. exact Hsel.
  - split; [intros p Hp; discriminate Hp|].
    intros x Hx. inversion Hx; subst x. clear Hx.
    split; [reflexivity|]. split; [reflexivity|]. split; [reflexivity|].
    unfold updatedLabel. cbn [loadError].
    destruct (truthy (message err)) eqn:E; [rewrite E|]; reflexivity.
Qed.

(** The sample snapshot: two subscriptions, one ranked list. *)
Example selector_after_mount :
  let d := data (snd (mounted (selectorEnv netFollow))) in
  map fg_key (followSplitGroups d)
  = [js "https://one.example/rss::0"; js "follow::1"]
  /\ map mg_key (momoyuSplitGroups d) = [js "momoyu-0"]
  /\ selectedFollowGroupKey d = js "https://one.example/rss::0"
  /\ selectedMomoyuGroupKey d = js "momoyu-0"
  /\ option_map fg_name (activeFollowGroup d) = Some (js "Feed One").
Proof. vm_compute. repeat split. Qed.

(** A selection that an entry carries is kept: the second subscription
    stays selected, the stale ranked list is replaced by the first. *)
Example sync_keeps_valid_selection :
  let d := syncSelectedGroups selectorData in
  selectedFollowGroupKey d = js "follow::1"
  /\ selectedMomoyuGroupKey d = js "momoyu-0"
  /\ option_map fg_name (activeFollowGroup d) = Some (js "未命名订阅").
Proof. vm_compute. repeat split. Qed.


End SelectorSpec.
